(** * Video DownloadHelper: the page-embedded detector (content.js)

    A shallow embedding of the [VideoDetector] class of [src/content.js]
    and the properties of its URL classifier, its duplicate removal, its
    final filter and its scan pipeline; then of its title methods, of
    the background script [src/background.js] (file names, the playlist
    parser, the URLs kept per tab, the downloads and their end) and of
    the popup script [src/unnamed/part_000] (the scan it asks for, the
    list it shows, the download it requests).

    Conventions of the embedding.
    - A JavaScript string is a [string]; a character stands for one code
      unit in the range 0..255, so [String.length] is the JavaScript
      [length] on that range.
      The Vietnamese texts of the blob candidate stand as their UTF-8
      bytes; nothing depends on their length.
    - [undefined] / an absent property is [None] in an [option] field.
    - The object state [this.videos] is threaded through a small state and
      exception monad; a JavaScript exception is the [Throw] completion.
      A scan awaits nothing but its own synchronous steps, so it runs to
      its end before another message is handled: one scan at a time.
    - Host capabilities (DOM queries, the [URL] constructor, [JSON.parse])
      and the title resolver are parameters of the development; a DOM
      query and a title lookup may throw.
    - Regular expressions are values of a small syntax tree run by a
      backtracking matcher with the priorities of the JavaScript one
      (leftmost start, greedy or lazy repetition, alternatives in order).
    - What the background script does to the browser is a record of the
      notifications shown, the downloads started, the storage area, the
      responses sent and the tabs opened.  The calls of the browser that
      the script awaits for a result ([fetch], [chrome.downloads.download],
      [chrome.downloads.search]) are parameters that return a completion;
      the calls for notifications, storage and tabs are taken not to
      throw, and the [try] around them is kept.
    - A reading of [Date.now()] is a parameter.
    - A [TypeError] that the engine throws (a property read on
      [undefined]) is a [Throw] completion; the text of its message is
      not modelled.
    - The popup document is the section it displays, the details of its
      error section and the items of its list; an item stands for the
      values that its HTML is built from. *)

From Stdlib Require Import String Ascii List Bool Arith Lia NArith.
From Stdlib Require DecimalString.
From stdpp Require Import base gmap sets list strings.

Local Open Scope string_scope.
Local Open Scope list_scope.

(* ================================================================== *)
(** * Part I. Definitions *)
(* ================================================================== *)

(** ** JavaScript strings *)

(** [String.prototype.toLowerCase] on one code unit: A-Z and the Latin-1
    capitals (all of 192..222 but the multiplication sign 215). *)
Definition lower_char (c : ascii) : ascii :=
  let n := N_of_ascii c in
  if (((65 <=? n) && (n <=? 90)) ||
      ((192 <=? n) && (n <=? 222) && negb (n =? 215)))%N
  then ascii_of_N (n + 32) else c.

Definition chars (s : string) : list ascii := list_ascii_of_string s.

Definition toLowerCase (s : string) : string :=
  string_of_list_ascii (map lower_char (chars s)).

(** [p] is a prefix of [l]. *)
Fixpoint prefixb (p l : list ascii) : bool :=
  match p, l with
  | [], _ => true
  | _ :: _, [] => false
  | a :: p', b :: l' => Ascii.eqb a b && prefixb p' l'
  end.

(** [sub] occurs in [l]. *)
Fixpoint infixb (sub l : list ascii) : bool :=
  prefixb sub l ||
  match l with
  | [] => false
  | _ :: l' => infixb sub l'
  end.

(** [s.startsWith(p)] *)
Definition startsWith (s p : string) : bool := prefixb (chars p) (chars s).

(** [s.includes(sub)] *)
Definition includes (s sub : string) : bool := infixb (chars sub) (chars s).

(** [s.replace(pat, by)] with a string pattern: the first occurrence only. *)
Fixpoint replace_first (pat by_ l : list ascii) : list ascii :=
  if prefixb pat l then by_ ++ drop (length pat) l
  else match l with
       | [] => []
       | c :: l' => c :: replace_first pat by_ l'
       end.

Definition replace (s pat by_ : string) : string :=
  string_of_list_ascii (replace_first (chars pat) (chars by_) (chars s)).

(** JavaScript truthiness of a string and of a possibly absent string. *)
Definition truthy (s : string) : bool := negb (String.eqb s "").

Definition truthy_opt (o : option string) : bool :=
  match o with Some s => truthy s | None => false end.

(** [a || b] on possibly absent strings. *)
Definition or_else (a b : option string) : option string :=
  if truthy_opt a then a else b.

(** The values [isStreamingUrl] can be handed by the request wrappers: the
    first argument of [fetch] or of [XMLHttpRequest.open] is any value;
    [JRequest] is a [Request] object with its [url], [JObject] any other
    object. *)
Inductive jsval : Type :=
| JUndefined
| JNull
| JBoolean (b : bool)
| JNumber (n : Z)
| JString (s : string)
| JRequest (url : string)
| JObject.

(** ** Regular expressions *)

Inductive regex : Type :=
| Eps
| Chr (p : ascii -> bool)
| Seq (r1 r2 : regex)
| Alt (r1 r2 : regex)
| Star (greedy : bool) (r : regex)
| Group (r : regex)
| AtEnd.

(** What a match reports: the text of the one capture group, when it took
    part in the match. *)
Definition capture := option (list ascii).

(** The loop of a repetition [r*] or [r*?]: [step] matches [r] once.  A
    greedy repetition tries one more round before it lets [k] go on, a lazy
    one lets [k] go on first.  A round that consumes nothing is rejected, as
    in the JavaScript semantics, so [fuel], the length of the text, is never
    used up. *)
Fixpoint star_loop {R : Type} (greedy : bool)
    (step : list ascii -> capture ->
            (list ascii -> capture -> option R) -> option R)
    (k : list ascii -> capture -> option R)
    (fuel : nat) (s : list ascii) (cap : capture) : option R :=
  match fuel with
  | O => k s cap
  | S fuel' =>
      let again :=
        step s cap (fun s' cap' =>
          if (length s' <? length s)%nat
          then star_loop greedy step k fuel' s' cap' else None) in
      if greedy then
        match again with
        | Some x => Some x
        | None => k s cap
        end
      else
        match k s cap with
        | Some x => Some x
        | None => again
        end
  end.

(** The backtracking matcher in continuation-passing style.  [k] receives
    the text left after the match and the capture; [None] from [k] makes the
    matcher try its next choice. *)
Fixpoint rmatch {R : Type} (r : regex) (s : list ascii) (cap : capture)
    (k : list ascii -> capture -> option R) : option R :=
  match r with
  | Eps => k s cap
  | Chr p =>
      match s with
      | c :: s' => if p c then k s' cap else None
      | [] => None
      end
  | Seq r1 r2 => rmatch r1 s cap (fun s' cap' => rmatch r2 s' cap' k)
  | Alt r1 r2 =>
      match rmatch r1 s cap k with
      | Some x => Some x
      | None => rmatch r2 s cap k
      end
  | Star greedy r1 => star_loop greedy (rmatch r1) k (length s) s cap
  | Group r1 =>
      rmatch r1 s cap (fun s' _ =>
        k s' (Some (take (length s - length s') s)))
  | AtEnd =>
      match s with
      | [] => k s cap
      | _ :: _ => None
      end
  end.

(** One successful match: the matched text ([match[0]]), the capture
    ([match[1]]) and the text after the match. *)
Record rmatched : Type := Matched {
  m_text : list ascii;
  m_group : capture;
  m_rest : list ascii
}.

Definition match_here (r : regex) (s : list ascii) : option rmatched :=
  rmatch r s None (fun s' cap =>
    Some (Matched (take (length s - length s') s) cap s')).

(** The leftmost match in [s]. *)
Fixpoint search (r : regex) (s : list ascii) : option rmatched :=
  match match_here r s with
  | Some m => Some m
  | None =>
      match s with
      | [] => None
      | _ :: s' => search r s'
      end
  end.

(** [pattern.test(s)] for a pattern without the [g] flag. *)
Definition test (r : regex) (s : string) : bool :=
  match search r (chars s) with Some _ => true | None => false end.

(** [while ((match = pattern.exec(text)) !== null) ...] for a pattern with
    the [g] flag: the successive matches, each search resuming where the
    previous match ended.  A match of the empty text would leave
    [lastIndex] in place; the loop is cut by [fuel]. *)
Fixpoint exec_all (fuel : nat) (r : regex) (s : list ascii) : list rmatched :=
  match fuel with
  | O => []
  | S fuel' =>
      match search r s with
      | None => []
      | Some m => m :: exec_all fuel' r (m_rest m)
      end
  end.

(** Every match of [r] takes at least one character (a syntactic check). *)
Fixpoint consumes (r : regex) : bool :=
  match r with
  | Eps => false
  | Chr _ => true
  | Seq r1 r2 => consumes r1 || consumes r2
  | Alt r1 r2 => consumes r1 && consumes r2
  | Star _ _ => false
  | Group r1 => consumes r1
  | AtEnd => false
  end.

(** Character classes and the usual derived forms. *)
Definition chr (c : ascii) : regex := Chr (Ascii.eqb c).

(** A literal character under the [i] flag. *)
Definition chr_i (c : ascii) : regex :=
  Chr (fun x => Ascii.eqb (lower_char x) (lower_char c)).

Fixpoint lit_i_chars (l : list ascii) : regex :=
  match l with
  | [] => Eps
  | c :: l' => Seq (chr_i c) (lit_i_chars l')
  end.

(** A literal text under the [i] flag. *)
Definition lit_i (s : string) : regex := lit_i_chars (chars s).

Fixpoint lit_chars (l : list ascii) : regex :=
  match l with
  | [] => Eps
  | c :: l' => Seq (chr c) (lit_chars l')
  end.

Definition lit (s : string) : regex := lit_chars (chars s).

Definition plus (r : regex) : regex := Seq r (Star true r).
Definition lazy_plus (r : regex) : regex := Seq r (Star false r).
Definition star (r : regex) : regex := Star true r.
Definition opt (r : regex) : regex := Alt r Eps.

Definition code (c : ascii) : N := N_of_ascii c.

(** [\s] on the modelled range: tab, the line terminators, vertical tab,
    form feed, space and the no-break space. *)
Definition is_space (c : ascii) : bool :=
  let n := code c in
  ((9 <=? n) && (n <=? 13) || (n =? 32) || (n =? 160))%N.

(** [\d] *)
Definition is_digit (c : ascii) : bool :=
  let n := code c in ((48 <=? n) && (n <=? 57))%N.

(** [.]: anything but a line terminator. *)
Definition is_dot (c : ascii) : bool :=
  let n := code c in negb ((n =? 10) || (n =? 13))%N.

(** The double quote, and texts that contain it: in [q s] every backquote
    of [s] stands for a double quote (none of the texts written here
    contains a backquote). *)
Definition dquote : ascii := ascii_of_N 34.
Definition squote : ascii := ascii_of_N 39.
Definition backquote : ascii := ascii_of_N 96.

Definition q (s : string) : string :=
  string_of_list_ascii
    (map (fun c => if Ascii.eqb c backquote then dquote else c) (chars s)).

(** The class of everything but white space and the two quotes. *)
Definition not_space_quote (c : ascii) : bool :=
  negb (is_space c || Ascii.eqb c dquote || Ascii.eqb c squote).

Definition from_chars (l : list ascii) : string := string_of_list_ascii l.

(** ** Completions and the state monad of the detector *)

(** The outcome of running a piece of JavaScript: a value, or a thrown
    exception with its message. *)
Inductive completion (A : Type) : Type :=
| Normal (a : A)
| Throw (e : string).

Arguments Normal {A} a.
Arguments Throw {A} e.

(** A computation over a mutable state [S] that may throw; the state
    reached when the exception is thrown is kept. *)
Definition ST (S A : Type) : Type := S -> completion A * S.

Definition ret {S A : Type} (a : A) : ST S A := fun st => (Normal a, st).

Definition bind {S A B : Type} (m : ST S A) (f : A -> ST S B) : ST S B :=
  fun st =>
    match m st with
    | (Normal a, st') => f a st'
    | (Throw e, st') => (Throw e, st')
    end.

Definition lift {S A : Type} (c : completion A) : ST S A := fun st => (c, st).

(** [try { m } catch (error) { h error }] *)
Definition try_catch {S A : Type} (m : ST S A) (h : string -> ST S A) : ST S A :=
  fun st =>
    match m st with
    | (Normal a, st') => (Normal a, st')
    | (Throw e, st') => h e st'
    end.

Definition get {S : Type} : ST S S := fun st => (Normal st, st).
Definition put {S : Type} (st : S) : ST S unit := fun _ => (Normal tt, st).

Notation "x <- m ;; f" := (bind m (fun x => f))
  (at level 100, m at next level, right associativity).
Notation "m ;;; f" := (bind m (fun _ => f))
  (at level 100, right associativity).

(** [l.forEach(f)] and [for (const x of l) f(x)]. *)
Fixpoint forEach {S A : Type} (l : list A) (f : A -> ST S unit) : ST S unit :=
  match l with
  | [] => ret tt
  | x :: l' => f x ;;; forEach l' f
  end.

(** ** The host: DOM, URL parser, JSON parser *)

(** A DOM element, as far as the detector reads it.  [el_src] is the [src]
    property (a string on media and source elements, absent elsewhere),
    [el_type] the [type] property of a source element. *)
#[local] Unset Elimination Schemes.
Inductive element : Type := Element {
  el_src : option string;
  el_type : string;
  el_textContent : string;
  el_querySelectorAll : string -> completion (list element)
}.
#[local] Set Elimination Schemes.

(** [element.querySelector(sel)]: the first match, or [null]. *)
Definition el_querySelector (e : element) (sel : string)
  : completion (option element) :=
  match el_querySelectorAll e sel with
  | Normal l => Normal (head l)
  | Throw m => Throw m
  end.

(** The page: [window.location.hostname], [document.title] and
    [document.querySelectorAll]. *)
Record document : Type := Document {
  hostname : string;
  doc_title : string;
  querySelectorAll : string -> completion (list element)
}.

(** The object built by [new URL(url)]. *)
Record URL : Type := mkURL {
  protocol : string;
  host_name : string;
  pathname : string
}.

(** The part of the parsed player response that the detector reads:
    [playerData.streamingData] and its two manifest fields.  A player
    response holds texts there; [None] is an absent property. *)
Record streamingData : Type := StreamingData {
  hlsManifestUrl : option string;
  dashManifestUrl : option string
}.

Record playerData : Type := PlayerData {
  streamingData_ : option streamingData
}.

(** ** Candidates *)

(** The object literal pushed on [this.videos]; a field that a literal does
    not write is [None].  The playback numbers [duration] and [currentTime]
    of the generic literals are not represented. *)
Record candidate : Type := Candidate {
  url : option string;
  src : option string;
  type : string;
  platform : option string;
  format : option string;
  size : option string;
  title : string;
  isStreaming : option bool;
  downloadable : option bool;
  reason : option string;
  alternative : option string;
  element_ : option element;
  sourceElement : option element;
  mimeType : option string
}.

(** The three shapes of literal in the source. *)
Definition generic_candidate (s ty ttl : string) (el : element)
    (source : option element) (mime : option string) : candidate :=
  {| url := None; src := Some s; type := ty; platform := None;
     format := None; size := None; title := ttl; isStreaming := None;
     downloadable := None; reason := None; alternative := None;
     element_ := Some el; sourceElement := source; mimeType := mime |}.

Definition platform_candidate (u ttl ty fmt : string) (el : element)
  : candidate :=
  {| url := Some u; src := None; type := ty; platform := None;
     format := Some fmt; size := Some "Unknown"; title := ttl;
     isStreaming := None; downloadable := None; reason := None;
     alternative := None; element_ := Some el; sourceElement := None;
     mimeType := None |}.

Definition streaming_candidate (u plat fmt ttl : string) : candidate :=
  {| url := Some u; src := None; type := "streaming"; platform := Some plat;
     format := Some fmt; size := Some "Unknown"; title := ttl;
     isStreaming := Some true; downloadable := None; reason := None;
     alternative := None; element_ := None; sourceElement := None;
     mimeType := None |}.

Definition blob_reason : string :=
  q "Blob URLs không thể tải xuống trực tiếp từ extension. Hãy thử right-click và `Save video as...` trên video.".

Definition blob_alternative : string :=
  "Sử dụng browser's built-in save feature hoặc screen recording tools".

Definition blob_candidate (u ttl plat : string) (el : element) : candidate :=
  {| url := Some u; src := None; type := plat ++ "_blob"; platform := None;
     format := Some "blob"; size := Some "Unknown"; title := ttl;
     isStreaming := None; downloadable := Some false;
     reason := Some blob_reason; alternative := Some blob_alternative;
     element_ := Some el; sourceElement := None; mimeType := None |}.

(** The title resolver (the [extract...Title] methods): it reads the page
    through DOM queries and the clock; it is a parameter here, and a call
    may throw like any DOM access. *)
Record title_resolver : Type := TitleResolver {
  extractVideoTitle : element -> option element -> completion string;
  extractTikTokTitle : option element -> completion string;
  extractFacebookTitle : option element -> completion string;
  extractYouTubeTitle : option element -> completion string;
  extractInstagramTitle : option element -> completion string;
  extractTwitterTitle : option element -> completion string;
  extractTwitchTitle : option element -> completion string;
  extractTitleFromStreamingUrl : string -> string -> completion string
}.

(** ** The patterns of the source *)

Definition seqs (l : list regex) : regex := fold_right Seq Eps l.

(** The [streamingPatterns] array of [isStreamingUrl]. *)
Definition streamingPatterns : list regex :=
  [ lit_i "/hls/";
    lit_i "/dash/";
    lit_i "/stream/";
    lit_i "/manifest/";
    lit_i "playlist.m3u8";
    lit_i "master.m3u8";
    lit_i "index.m3u8";
    Seq (lit_i ".ts") AtEnd;
    Seq (lit_i "segment-") (plus (Chr is_digit)) ].

Definition not_dquote (c : ascii) : bool := negb (Ascii.eqb c dquote).
Definition not_squote (c : ascii) : bool := negb (Ascii.eqb c squote).

Definition http_prefix : list regex :=
  [ lit_i "http"; opt (chr_i "s"); lit_i "://" ].

(** The [patterns] array of [extractStreamingUrlsFromText]. *)
Definition extractPatterns : list regex :=
  [ seqs (http_prefix ++
          [plus (Chr not_space_quote); lit_i ".m3u8"; star (Chr not_space_quote)]);
    seqs (http_prefix ++
          [plus (Chr not_space_quote); lit_i ".mpd"; star (Chr not_space_quote)]);
    seqs (http_prefix ++
          [plus (Chr not_space_quote); lit_i "/hls/"; star (Chr not_space_quote)]);
    seqs (http_prefix ++
          [plus (Chr not_space_quote); lit_i "/dash/"; star (Chr not_space_quote)]);
    seqs [ chr dquote;
           Group (seqs (http_prefix ++
                        [star (Chr not_dquote);
                         Alt (lit_i "m3u8") (lit_i "mpd");
                         star (Chr not_dquote)]));
           chr dquote ];
    seqs [ chr squote;
           Group (seqs (http_prefix ++
                        [star (Chr not_squote);
                         Alt (lit_i "m3u8") (lit_i "mpd");
                         star (Chr not_squote)]));
           chr squote ] ].

(** The pattern of [findYouTubeStreamingUrls]: the assignment of an object
    literal to [ytInitialPlayerResponse], closed by a semicolon. *)
Definition playerResponsePattern : regex :=
  seqs [ lit "ytInitialPlayerResponse";
         star (Chr is_space); chr "="; star (Chr is_space);
         Group (seqs [chr "{"; lazy_plus (Chr is_dot); chr "}"]);
         chr ";" ].

(** ** The URL classifier *)

(** [isStreamingUrl(url)] *)
Definition isStreamingUrl (v : jsval) : bool :=
  match v with
  | JString url =>
      if negb (truthy url) then false
      else if includes url ".m3u8" || includes url "m3u8" then true
      else if includes url ".mpd" || includes url "mpd" then true
      else existsb (fun pattern => test pattern url) streamingPatterns
  | _ => false
  end.

(** [isBlobUrl(url)], as the truth value of [url && url.startsWith('blob:')]. *)
Definition isBlobUrl (url : string) : bool :=
  truthy url && startsWith url "blob:".

(** [getStreamingFormat(url)] *)
Definition getStreamingFormat (url : string) : string :=
  if includes url ".m3u8" || includes url "m3u8" then "HLS"
  else if includes url ".mpd" || includes url "mpd" then "DASH"
  else if includes url ".ts" then "TS"
  else "Stream".

Definition videoExtensions : list string :=
  [".mp4"; ".webm"; ".ogg"; ".avi"; ".mov"; ".wmv"; ".flv"; ".mkv"].

Definition videoMimePatterns : list string :=
  ["video/"; "mp4"; "webm"; "ogg"].

(** [getVideoFormat(url)] *)
Definition getVideoFormat (url : string) : string :=
  if negb (truthy url) then "Unknown"
  else
    let urlLower := toLowerCase url in
    if includes urlLower ".mp4" then "MP4"
    else if includes urlLower ".webm" then "WebM"
    else if includes urlLower ".ogg" then "OGG"
    else if includes urlLower ".avi" then "AVI"
    else if includes urlLower ".mov" then "MOV"
    else if includes urlLower ".wmv" then "WMV"
    else if includes urlLower ".flv" then "FLV"
    else if includes urlLower ".mkv" then "MKV"
    else if includes urlLower ".m3u8" then "HLS"
    else if includes urlLower ".mpd" then "DASH"
    else if includes urlLower ".ts" then "TS"
    else if startsWith urlLower "blob:" then "Blob"
    else "Video".

(** [detectPlatform()] on the host name of the page. *)
Definition detectPlatform (hostname : string) : string :=
  let hostname := toLowerCase hostname in
  if includes hostname "tiktok.com" then "tiktok"
  else if includes hostname "facebook.com" || includes hostname "fb.com"
  then "facebook"
  else if includes hostname "youtube.com" || includes hostname "youtu.be"
  then "youtube"
  else if includes hostname "instagram.com" then "instagram"
  else if includes hostname "twitter.com" || includes hostname "x.com"
  then "twitter"
  else if includes hostname "twitch.tv" then "twitch"
  else "generic".

(** ** Duplicate removal and the final filter *)

(** [videos.filter(video => ...)] with the closure over the [seen] set:
    an element passes when its key is not in the set yet, and adds it. *)
Fixpoint filter_unseen (key : candidate -> option string)
    (seen : gset (option string)) (videos : list candidate) : list candidate :=
  match videos with
  | [] => []
  | video :: rest =>
      if bool_decide (key video ∈ seen) then filter_unseen key seen rest
      else video :: filter_unseen key ({[ key video ]} ∪ seen) rest
  end.

(** The first [removeDuplicates] of the class body (line 493), keyed on
    [video.url || video.src]. *)
Definition removeDuplicates_first (videos : list candidate) : list candidate :=
  filter_unseen (fun video => or_else (url video) (src video)) ∅ videos.

(** The second [removeDuplicates] of the class body (line 961), keyed on
    [video.src].  A class body with two methods of one name keeps the
    last, so this is the method that [this.removeDuplicates] calls. *)
Definition removeDuplicates (videos : list candidate) : list candidate :=
  filter_unseen src ∅ videos.

Definition is_true_opt (o : option bool) : bool :=
  match o with Some b => b | None => false end.

(** [isValidVideo(video)], as the truth value that [filter] takes of it. *)
Definition isValidVideo (video : candidate) : bool :=
  if is_true_opt (isStreaming video) then
    match url video with
    | Some u => truthy u && (10 <? String.length u)%nat
    | None => false
    end
  else
    match or_else (url video) (src video) with
    | Some videoUrl =>
        if negb (truthy videoUrl) || (String.length videoUrl <? 10)%nat
        then false
        else if (String.length videoUrl <? 20)%nat then false
        else true
    | None => false
    end.

(** ** The manifest scanner *)

Definition strip_quotes (l : list ascii) : list ascii :=
  List.filter (fun c => negb (Ascii.eqb c dquote || Ascii.eqb c squote)) l.

(** One pass of the [while] loop of [extractStreamingUrlsFromText] over
    the matches of one pattern. *)
Definition urls_of_matches (ms : list rmatched) : list string :=
  flat_map (fun m =>
    let url :=
      match m_group m with
      | Some g => if truthy (from_chars g) then g else m_text m
      | None => m_text m
      end in
    if truthy (from_chars url) && isStreamingUrl (JString (from_chars url))
    then [from_chars (strip_quotes url)] else []) ms.

(** [[...new Set(urls)]]: first occurrences, in order. *)
Fixpoint unique_from (seen : gset string) (urls : list string) : list string :=
  match urls with
  | [] => []
  | u :: rest =>
      if bool_decide (u ∈ seen) then unique_from seen rest
      else u :: unique_from ({[ u ]} ∪ seen) rest
  end.

(** [extractStreamingUrlsFromText(text)] *)
Definition extractStreamingUrlsFromText (text : string) : list string :=
  unique_from ∅
    (flat_map (fun pattern =>
       urls_of_matches (exec_all (S (String.length text)) pattern (chars text)))
     extractPatterns).

(** ** The detector on one page *)

Section VideoDetector.

(** [new URL(url)]: the parsed URL, or [None] when the constructor throws. *)
Variable new_URL : string -> option URL.

(** [JSON.parse(text)] of a player response, or [None] when it throws. *)
Variable JSON_parse : string -> option playerData.

Variable resolver : title_resolver.

(** The page the content script runs in. *)
Variable doc : document.

(** The detector state is [this.videos]. *)
Definition detector (A : Type) : Type := ST (list candidate) A.

(** [this.videos.push(c)] *)
Definition push (c : candidate) : detector unit :=
  fun videos => (Normal tt, videos ++ [c]).

(** [isValidVideoUrl(url)] *)
Definition isValidVideoUrl (url : string) : bool :=
  match new_URL url with
  | None => false
  | Some urlObj =>
      if negb (existsb (String.eqb (protocol urlObj)) ["http:"; "https:"])
      then false
      else if startsWith url "blob:" then false
      else if startsWith url "data:" then false
      else
        let hasVideoExtension :=
          existsb (fun ext => includes (toLowerCase url) ext) videoExtensions in
        let hasVideoMime :=
          existsb (fun pattern => includes (toLowerCase url) pattern)
                  videoMimePatterns in
        hasVideoExtension || hasVideoMime
  end.

(** [isSocialMediaUrl(url)] *)
Definition isSocialMediaUrl (url : string) : bool :=
  if negb (truthy url) then false
  else
    let socialDomains :=
      ["facebook.com"; "youtube.com"; "instagram.com"; "tiktok.com";
       "twitter.com"; "x.com"] in
    match new_URL url with
    | Some urlObj =>
        existsb (fun domain => includes (host_name urlObj) domain) socialDomains
    | None => false
    end.

(** [findDirectVideoElements()] *)
Definition findDirectVideoElements : detector unit :=
  videoElements <- lift (querySelectorAll doc "video[src]") ;;
  forEach videoElements (fun video =>
    match el_src video with
    | Some s =>
        if truthy s && isValidVideoUrl s then
          ttl <- lift (extractVideoTitle resolver video None) ;;
          push (generic_candidate s "direct" ttl video None None)
        else ret tt
    | None => ret tt
    end).

(** [findSourceElements()] *)
Definition findSourceElements : detector unit :=
  videoElements <- lift (querySelectorAll doc "video") ;;
  forEach videoElements (fun video =>
    sources <- lift (el_querySelectorAll video "source[src]") ;;
    forEach sources (fun source =>
      match el_src source with
      | Some s =>
          if truthy s && isValidVideoUrl s then
            ttl <- lift (extractVideoTitle resolver video (Some source)) ;;
            push (generic_candidate s "source" ttl video (Some source)
                    (Some (el_type source)))
          else ret tt
      | None => ret tt
      end)).

(** [extractPlatformTitle(element, platform)] *)
Definition extractPlatformTitle (el : element) (platform : string)
  : completion string :=
  if String.eqb platform "tiktok" then extractTikTokTitle resolver (Some el)
  else if String.eqb platform "facebook"
  then extractFacebookTitle resolver (Some el)
  else if String.eqb platform "youtube"
  then extractYouTubeTitle resolver (Some el)
  else if String.eqb platform "instagram"
  then extractInstagramTitle resolver (Some el)
  else if String.eqb platform "twitter"
  then extractTwitterTitle resolver (Some el)
  else if String.eqb platform "twitch"
  then extractTwitchTitle resolver (Some el)
  else extractVideoTitle resolver el None.

(** [findBlobVideos(platform)] *)
Definition findBlobVideos (platform : string) : detector unit :=
  videoElements <- lift (querySelectorAll doc "video") ;;
  forEach videoElements (fun video =>
    match el_src video with
    | Some s =>
        if truthy s && startsWith s "blob:" then
          ttl <- lift (extractPlatformTitle video platform) ;;
          push (blob_candidate s ttl platform video)
        else ret tt
    | None => ret tt
    end).

(** [element.src || (element.querySelector('source') &&
    element.querySelector('source').src)] *)
Definition resolve_src (el : element) : completion (option string) :=
  if truthy_opt (el_src el) then Normal (el_src el)
  else
    match el_querySelector el "source" with
    | Throw e => Throw e
    | Normal None => Normal None
    | Normal (Some _) =>
        match el_querySelector el "source" with
        | Throw e => Throw e
        | Normal None => Throw "TypeError"
        | Normal (Some source) => Normal (el_src source)
        end
    end.

(** The common body of the six [find<Platform>Videos] methods, which
    differ in their selector list, their title method and their tag. *)
Definition findPlatformVideos (selectors : list string)
    (titleOf : option element -> completion string) (tag : string)
  : detector unit :=
  forEach selectors (fun selector =>
    elements <- lift (querySelectorAll doc selector) ;;
    forEach elements (fun el =>
      s <- lift (resolve_src el) ;;
      match s with
      | Some s =>
          if truthy s && isValidVideoUrl s then
            ttl <- lift (titleOf (Some el)) ;;
            push (platform_candidate s ttl tag (getVideoFormat s) el)
          else ret tt
      | None => ret tt
      end)) ;;;
  findBlobVideos tag.

Definition tiktokSelectors : list string :=
  [ "video[src]"; "video source[src]"; q "[data-e2e=`browse-video`] video";
    ".video-player video"; ".feed-video video";
    q "div[data-e2e=`feed-item`] video" ].

Definition facebookSelectors : list string :=
  [ "video[src]"; "video source[src]"; q "[data-pagelet=`FeedUnit`] video";
    q "[data-pagelet=`VideoPlayerRoot`] video";
    ".story-bucket-current video"; q "[role=`main`] video" ].

Definition youtubeSelectors : list string :=
  [ "video[src]"; "video source[src]"; ".html5-video-player video";
    "#movie_player video"; ".video-stream" ].

Definition instagramSelectors : list string :=
  [ "video[src]"; "video source[src]"; "article video";
    q "[role=`presentation`] video" ].

Definition twitterSelectors : list string :=
  [ "video[src]"; "video source[src]"; q "[data-testid=`videoPlayer`] video";
    ".media-container video" ].

Definition twitchSelectors : list string :=
  [ "video[src]"; "video source[src]"; ".video-player video";
    q "[data-a-target=`player-overlay-click-handler`] video" ].

Definition findTikTokVideos : detector unit :=
  findPlatformVideos tiktokSelectors (extractTikTokTitle resolver) "tiktok".
Definition findFacebookVideos : detector unit :=
  findPlatformVideos facebookSelectors (extractFacebookTitle resolver)
    "facebook".
Definition findYouTubeVideos : detector unit :=
  findPlatformVideos youtubeSelectors (extractYouTubeTitle resolver)
    "youtube".
Definition findInstagramVideos : detector unit :=
  findPlatformVideos instagramSelectors (extractInstagramTitle resolver)
    "instagram".
Definition findTwitterVideos : detector unit :=
  findPlatformVideos twitterSelectors (extractTwitterTitle resolver)
    "twitter".
Definition findTwitchVideos : detector unit :=
  findPlatformVideos twitchSelectors (extractTwitchTitle resolver) "twitch".

(** [findPlatformSpecificVideos(platform)] *)
Definition findPlatformSpecificVideos (platform : string) : detector unit :=
  if String.eqb platform "tiktok" then findTikTokVideos
  else if String.eqb platform "facebook" then findFacebookVideos
  else if String.eqb platform "youtube" then findYouTubeVideos
  else if String.eqb platform "instagram" then findInstagramVideos
  else if String.eqb platform "twitter" then findTwitterVideos
  else if String.eqb platform "twitch" then findTwitchVideos
  else ret tt.

(** The literal pushed for a streaming URL found by the generic scans. *)
Definition streaming_push (tag : string) (titleOf : completion string)
    (default : string -> string) (url : string) : detector unit :=
  let format := getStreamingFormat url in
  ttl <- lift titleOf ;;
  push (streaming_candidate url tag format
          (if truthy ttl then ttl else default format)).

(** The [forEach] body shared by [findStreamingVideos] and
    [scanPageForStreamingUrls]. *)
Definition push_streaming (platform url : string) : detector unit :=
  streaming_push platform
    (extractTitleFromStreamingUrl resolver url platform)
    (fun format => (platform ++ " " ++ format ++ " Stream")%string) url.

(** [extractYouTubeStreamingData(streamingData)] *)
Definition extractYouTubeStreamingData (sd : streamingData) : detector unit :=
  let ttl := replace (doc_title doc) " - YouTube" "" in
  match hlsManifestUrl sd with
  | Some u =>
      if truthy u then
        push (streaming_candidate u "youtube" "HLS"
                (if truthy ttl then ttl else "YouTube HLS Stream"))
      else ret tt
  | None => ret tt
  end ;;;
  match dashManifestUrl sd with
  | Some u =>
      if truthy u then
        push (streaming_candidate u "youtube" "DASH"
                (if truthy ttl then ttl else "YouTube DASH Stream"))
      else ret tt
  | None => ret tt
  end.

(** [findYouTubeStreamingUrls()] *)
Definition findYouTubeStreamingUrls : detector unit :=
  scripts <- lift (querySelectorAll doc "script") ;;
  forEach scripts (fun script =>
    let text := el_textContent script in
    if truthy text && includes text "ytInitialPlayerResponse" then
      try_catch
        (match search playerResponsePattern (chars text) with
         | Some playerDataMatch =>
             match m_group playerDataMatch with
             | Some g =>
                 match JSON_parse (from_chars g) with
                 | Some playerData =>
                     match streamingData_ playerData with
                     | Some sd => extractYouTubeStreamingData sd
                     | None => ret tt
                     end
                 | None => lift (Throw "SyntaxError")
                 end
             | None => lift (Throw "SyntaxError")
             end
         | None => ret tt
         end)
        (fun _ => ret tt)
    else ret tt).

(** [findFacebookStreamingUrls()] *)
Definition findFacebookStreamingUrls : detector unit :=
  scripts <- lift (querySelectorAll doc "script") ;;
  forEach scripts (fun script =>
    let text := el_textContent script in
    if truthy text && (includes text "hd_src" || includes text "sd_src") then
      forEach (extractStreamingUrlsFromText text)
        (streaming_push "facebook" (extractFacebookTitle resolver None)
           (fun _ => "Facebook Stream"))
    else ret tt).

(** [findTikTokStreamingUrls()] *)
Definition findTikTokStreamingUrls : detector unit :=
  scripts <- lift (querySelectorAll doc "script") ;;
  forEach scripts (fun script =>
    let text := el_textContent script in
    if truthy text && includes text "playAddr" then
      forEach (extractStreamingUrlsFromText text)
        (streaming_push "tiktok" (extractTikTokTitle resolver None)
           (fun _ => "TikTok Stream"))
    else ret tt).

(** [scanPageForStreamingUrls(platform)] *)
Definition scanPageForStreamingUrls (platform : string) : detector unit :=
  scripts <- lift (querySelectorAll doc "script") ;;
  forEach scripts (fun script =>
    let text := el_textContent script in
    if truthy text then
      forEach (extractStreamingUrlsFromText text) (push_streaming platform)
    else ret tt) ;;;
  if String.eqb platform "youtube" then findYouTubeStreamingUrls
  else if String.eqb platform "facebook" then findFacebookStreamingUrls
  else if String.eqb platform "tiktok" then findTikTokStreamingUrls
  else ret tt.

(** [findStreamingVideos(platform)]; [streamingUrls] is the set
    [this.streamingUrls] in insertion order. *)
Definition findStreamingVideos (streamingUrls : list string)
    (platform : string) : detector unit :=
  forEach streamingUrls (push_streaming platform) ;;;
  scanPageForStreamingUrls platform.

(** The body of the [try] block of [findVideos]. *)
Definition findVideos_try (streamingUrls : list string)
  : detector (list candidate) :=
  put [] ;;;
  let platform := detectPlatform (hostname doc) in
  findDirectVideoElements ;;;
  findSourceElements ;;;
  findPlatformSpecificVideos platform ;;;
  findStreamingVideos streamingUrls platform ;;;
  videos <- get ;;
  put (removeDuplicates videos) ;;;
  videos <- get ;;
  put (List.filter isValidVideo videos) ;;;
  get.

(** [findVideos()] *)
Definition findVideos (streamingUrls : list string)
  : detector (list candidate) :=
  try_catch (findVideos_try streamingUrls) (fun _ => ret []).

(** The list a scan returns, started from any [this.videos]. *)
Definition scan (streamingUrls : list string) (videos0 : list candidate)
  : completion (list candidate) :=
  fst (findVideos streamingUrls videos0).

End VideoDetector.

(** ** The message listener *)

Record request : Type := Request { action : string }.

Record response : Type := Response {
  videos : list candidate;
  error : option string
}.

(** A settled promise. *)
Inductive promise (A : Type) : Type :=
| Fulfilled (a : A)
| Rejected (e : string).

Arguments Fulfilled {A} a.
Arguments Rejected {A} e.

(** The promise returned by a call of an [async] method. *)
Definition async {A : Type} (c : completion A) : promise A :=
  match c with
  | Normal a => Fulfilled a
  | Throw e => Rejected e
  end.

(** The channel state is the list of responses sent so far. *)
Definition channel (A : Type) : Type := ST (list response) A.

Definition sendResponse (r : response) : channel unit :=
  fun sent => (Normal tt, sent ++ [r]).

(** [p.then(f)] and [p.catch(g)], run to the settling of the new promise. *)
Definition promise_then {S A B : Type} (p : promise A) (f : A -> ST S B)
  : ST S (promise B) :=
  fun st =>
    match p with
    | Fulfilled a =>
        match f a st with
        | (c, st') => (Normal (async c), st')
        end
    | Rejected e => (Normal (Rejected e), st)
    end.

Definition promise_catch {S A : Type} (p : promise A) (g : string -> ST S A)
  : ST S (promise A) :=
  fun st =>
    match p with
    | Fulfilled a => (Normal (Fulfilled a), st)
    | Rejected e =>
        match g e st with
        | (c, st') => (Normal (async c), st')
        end
    end.

(** The listener installed by [init]: the responses it sends for one
    request, and whether it returned [true]. *)
Definition onMessage (new_URL : string -> option URL)
    (JSON_parse : string -> option playerData) (resolver : title_resolver)
    (doc : document) (streamingUrls : list string) (videos0 : list candidate)
    (request : request) : channel bool :=
  if String.eqb (action request) "findVideos" then
    p <- promise_then
           (async (scan new_URL JSON_parse resolver doc streamingUrls videos0))
           (fun videos => sendResponse {| videos := videos; error := None |}) ;;
    _ <- promise_catch p
           (fun e => sendResponse {| videos := []; error := Some e |}) ;;
    ret true
  else ret false.

(** ** The network observer *)

(** [this.streamingUrls.add(url)] *)
Definition streamingUrls_add (url : string) (urls : list string) : list string :=
  if bool_decide (url ∈ urls) then urls else urls ++ [url].

(** What the wrapper of [XMLHttpRequest.prototype.open] records. *)
Definition observe_open (url : jsval) (urls : list string) : list string :=
  match url with
  | JString u => if isStreamingUrl url then streamingUrls_add u urls else urls
  | _ => urls
  end.

(** What the wrapper of [window.fetch] records. *)
Definition observe_fetch (url : jsval) (urls : list string) : list string :=
  match url with
  | JString u => if isStreamingUrl url then streamingUrls_add u urls else urls
  | JRequest u =>
      if isStreamingUrl (JString u) then streamingUrls_add u urls else urls
  | _ => urls
  end.

(** ** Vocabulary of the statements *)

(** [sub] occurs in [s]; [s] ends with [suffix]. *)
Definition contains (s sub : string) : Prop :=
  exists pre post, chars s = pre ++ chars sub ++ post.

Definition ends_with (s suffix : string) : Prop :=
  exists pre, chars s = pre ++ chars suffix.

(** [s] holds [segment-] followed by a digit. *)
Definition has_segment_marker (s : string) : Prop :=
  exists pre d post,
    chars s = pre ++ chars "segment-" ++ d :: post /\ is_digit d = true.

(** One of the tests of [isStreamingUrl] holds of [url]: the two bare
    substrings, looked for in the URL as it is, or one of the nine patterns,
    which ignore letter case. *)
Definition streaming_marker (url : string) : Prop :=
  contains url "m3u8" \/ contains url "mpd" \/
  contains (toLowerCase url) "/hls/" \/
  contains (toLowerCase url) "/dash/" \/
  contains (toLowerCase url) "/stream/" \/
  contains (toLowerCase url) "/manifest/" \/
  contains (toLowerCase url) "playlist.m3u8" \/
  contains (toLowerCase url) "master.m3u8" \/
  contains (toLowerCase url) "index.m3u8" \/
  ends_with (toLowerCase url) ".ts" \/
  has_segment_marker (toLowerCase url).

(** The tests of [getVideoFormat] before the blob test, as an ordered
    table: a marker looked for in the lower-cased URL and the format it
    stands for. *)
Definition formatMarkers : list (string * string) :=
  [ (".mp4", "MP4"); (".webm", "WebM"); (".ogg", "OGG"); (".avi", "AVI");
    (".mov", "MOV"); (".wmv", "WMV"); (".flv", "FLV"); (".mkv", "MKV");
    (".m3u8", "HLS"); (".mpd", "DASH"); (".ts", "TS") ].

(** The first marker of the list found in [urlLower]. *)
Fixpoint first_marker (markers : list (string * string)) (urlLower : string)
  : option string :=
  match markers with
  | [] => None
  | (marker, fmt) :: rest =>
      if includes urlLower marker then Some fmt
      else first_marker rest urlLower
  end.

(** A candidate that is marked not downloadable explains why. *)
Definition explains_itself (c : candidate) : Prop :=
  downloadable c = Some false ->
  exists r, reason c = Some r /\ r <> "".

(** The two groups of literals: locator in [src] without [url] and
    [format], or locator in [url] without [src]. *)
Definition src_only (c : candidate) : Prop :=
  (exists s, src c = Some s) /\ url c = None /\ format c = None.

Definition url_only (c : candidate) : Prop :=
  (exists u, url c = Some u) /\ src c = None.

(** The generic harvest writes [src], never [url], [format] or
    [downloadable]; the other strategies write [url], never [src], and give
    a reason with [downloadable: false]. *)
Definition harvested (c : candidate) : Prop :=
  src_only c /\ explains_itself c.

Definition located (c : candidate) : Prop :=
  url_only c /\ explains_itself c.

(** What a detection strategy appends to [this.videos], started from
    [videos0]. *)
Definition emitted (m : ST (list candidate) unit) (videos0 : list candidate)
  : list candidate :=
  drop (length videos0) (snd (m videos0)).

(** [m] leaves the candidates it finds in place and appends candidates
    that satisfy [P], whether it returns or throws. *)
Definition appends {A : Type} (P : candidate -> Prop)
    (m : ST (list candidate) A) : Prop :=
  forall videos, exists new, snd (m videos) = videos ++ new /\ Forall P new.

(** The four strategies in sequence, as [findVideos] runs them. *)
Definition strategies (new_URL : string -> option URL)
    (JSON_parse : string -> option playerData) (resolver : title_resolver)
    (doc : document) (streamingUrls : list string) : ST (list candidate) unit :=
  findDirectVideoElements new_URL resolver doc ;;;
  findSourceElements new_URL resolver doc ;;;
  findPlatformSpecificVideos new_URL resolver doc
    (detectPlatform (hostname doc)) ;;;
  findStreamingVideos JSON_parse resolver doc streamingUrls
    (detectPlatform (hostname doc)).

(** ** A host for the worked scenarios *)

Definition is_alpha (c : ascii) : bool :=
  let n := code (lower_char c) in ((97 <=? n) && (n <=? 122))%N.

Definition is_scheme_char (c : ascii) : bool :=
  is_alpha c || is_digit c || Ascii.eqb c "+" || Ascii.eqb c "-" ||
  Ascii.eqb c ".".

(** The scheme and what follows its colon. *)
Fixpoint split_scheme (l : list ascii) : option (list ascii * list ascii) :=
  match l with
  | [] => None
  | c :: l' =>
      if Ascii.eqb c ":" then Some ([], l')
      else if is_scheme_char c then
        match split_scheme l' with
        | Some (scheme, rest) => Some (c :: scheme, rest)
        | None => None
        end
      else None
  end.

(** The longest prefix free of [stop], and the rest. *)
Fixpoint break (stop : ascii -> bool) (l : list ascii)
  : list ascii * list ascii :=
  match l with
  | [] => ([], [])
  | c :: l' =>
      if stop c then ([], l)
      else let (a, b) := break stop l' in (c :: a, b)
  end.

(** A small absolute-URL parser: the scheme by the scheme state of the URL
    standard (a letter, then letters, digits, [+], [-], [.], up to the
    colon), the authority and the path by splitting.  A text without a
    scheme does not parse; the authority is not validated. *)
Definition reference_URL (url : string) : option URL :=
  match chars url with
  | c :: _ =>
      if is_alpha c then
        match split_scheme (chars url) with
        | Some (scheme, rest) =>
            let proto := from_chars (map lower_char scheme ++ [":"%char]) in
            let stop_path c := Ascii.eqb c "?" || Ascii.eqb c "#" in
            match rest with
            | "/"%char :: "/"%char :: authority =>
                let (host, tail) :=
                  break (fun c => Ascii.eqb c "/" || stop_path c) authority in
                let path := fst (break stop_path tail) in
                Some (mkURL proto (from_chars (map lower_char host))
                        (match path with [] => "/" | _ => from_chars path end))
            | _ => Some (mkURL proto "" (from_chars (fst (break stop_path rest))))
            end
        | None => None
        end
      else None
  | [] => None
  end.

(** A resolver for a page without any title text: the platform methods
    answer their default titles, the generic one the name taken from the
    example URL. *)
Definition plain_resolver : title_resolver :=
  {| extractVideoTitle := fun _ _ => Normal "clip";
     extractTikTokTitle := fun _ => Normal "TikTok Video";
     extractFacebookTitle := fun _ => Normal "Facebook Video";
     extractYouTubeTitle := fun _ => Normal "YouTube Video";
     extractInstagramTitle := fun _ => Normal "Instagram Video";
     extractTwitterTitle := fun _ => Normal "Twitter Video";
     extractTwitchTitle := fun _ => Normal "Twitch Video";
     extractTitleFromStreamingUrl := fun _ platform =>
       Normal (platform ++ " Stream")%string |}.

(** A JSON parser that rejects every text (the scenarios never reach it). *)
Definition no_JSON : string -> option playerData := fun _ => None.

(** A media element with the given [src] and no children. *)
Definition video_element (s : string) : element :=
  Element (Some s) "" "" (fun _ => Normal []).

(** A script element with the given text. *)
Definition script_element (text : string) : element :=
  Element None "" text (fun _ => Normal []).

(** A page made of top-level video elements (each with a [src] attribute)
    and scripts; [classes] lists further selectors that match the videos. *)
Definition page (host ttl : string) (videos : list element)
    (classes : list string) (scripts : list element) : document :=
  Document host ttl (fun selector =>
    if String.eqb selector "script" then Normal scripts
    else if existsb (String.eqb selector) ("video" :: "video[src]" :: classes)
    then Normal videos
    else Normal []).

Definition clip_url : string := "https://cdn.example.com/clip.mp4".

(** A generic page with the single element
    [<video src=https://cdn.example.com/clip.mp4>]. *)
Definition clip_page : document :=
  page "www.example.org" "Clip" [video_element clip_url] [] [].

Definition manifest_url : string := "https://example.com/hls/master.m3u8".

(** A candidate located at the manifest URL is the HLS candidate of the
    YouTube page. *)
Definition manifest_safe (c : candidate) : Prop :=
  or_else (url c) (src c) = Some manifest_url ->
  url c = Some manifest_url /\ platform c = Some "youtube" /\
  format c = Some "HLS" /\ isStreaming c = Some true.

Definition player_script_text : string :=
  q "ytInitialPlayerResponse = {`streamingData`:{`hlsManifestUrl`:`https://example.com/hls/master.m3u8`}}".

(** The page of the YouTube scenario: the script alone. *)
Definition youtube_script_page : document :=
  page "www.youtube.com" "Clip - YouTube" [] [] [script_element player_script_text].

Definition player_blob_url : string :=
  "blob:https://www.youtube.com/0f6c1a2e-7b1d-4c55-9a3e-2d4b8c6e1f00".

(** A YouTube watch page: the player's video element, whose [src] is a blob
    URL, and the same script. *)
Definition youtube_watch_page : document :=
  page "www.youtube.com" "Clip - YouTube"
    [video_element player_blob_url]
    [".html5-video-player video"; "#movie_player video"; ".video-stream"]
    [script_element player_script_text].

(** The page with the single video element again, on which the query for
    the scripts throws. *)
Definition broken_page : document :=
  Document "www.example.org" "Clip" (fun selector =>
    if String.eqb selector "script" then Throw "InvalidStateError"
    else querySelectorAll clip_page selector).

Definition tiktok_blob_url : string :=
  "blob:https://www.tiktok.com/5d1c0a9e-1111-2222-3333-444455556666".

(** A TikTok page whose one video element has a blob [src]. *)
Definition tiktok_blob_page : document :=
  page "www.tiktok.com" "TikTok" [video_element tiktok_blob_url] [] [].

(** A page without media elements and scripts. *)
Definition empty_page : document := page "www.example.org" "Empty" [] [] [].

(** Two candidates of the streaming strategy with different URLs. *)
Definition stream_one : candidate :=
  streaming_candidate "https://a.example.com/live/one.m3u8" "generic" "HLS"
    "generic Stream".

Definition stream_two : candidate :=
  streaming_candidate "https://b.example.com/live/two.mpd" "generic" "DASH"
    "generic Stream".

(** ** More of the JavaScript string methods *)

(** What is left of [l] after its longest prefix of characters in [p]. *)
Fixpoint drop_while (p : ascii -> bool) (l : list ascii) : list ascii :=
  match l with
  | c :: l' => if p c then drop_while p l' else l
  | [] => []
  end.

(** [s.trim()]: the white space of [trim] is the class [\s]. *)
Definition trim_chars (l : list ascii) : list ascii :=
  rev (drop_while is_space (rev (drop_while is_space l))).

Definition trim (s : string) : string := from_chars (trim_chars (chars s)).

(** [s.substring(0, n)] and [s.substring(n)]. *)
Definition substring_to (n : nat) (s : string) : string :=
  from_chars (take n (chars s)).

Definition substring_from (n : nat) (s : string) : string :=
  from_chars (drop n (chars s)).

(** [s.split(sep)] for a separator of one character: the pieces between
    the separators, the empty ones included; never the empty array. *)
Fixpoint split (sep : ascii) (l : list ascii) : list (list ascii) :=
  match l with
  | [] => [[]]
  | c :: l' =>
      if Ascii.eqb c sep then [] :: split sep l'
      else match split sep l' with
           | piece :: pieces => (c :: piece) :: pieces
           | [] => [[c]]
           end
  end.

(** [s.replace(pattern, by)] for a pattern with the [g] flag: every match
    from left to right; an empty match is replaced too and the scan moves on
    by one character. *)
Fixpoint replace_all_loop (fuel : nat) (r : regex) (by_ s : list ascii)
  : list ascii :=
  match fuel with
  | O => s
  | S fuel' =>
      match match_here r s with
      | Some m =>
          if (length (m_rest m) <? length s)%nat
          then by_ ++ replace_all_loop fuel' r by_ (m_rest m)
          else match s with
               | [] => by_
               | c :: s' => by_ ++ c :: replace_all_loop fuel' r by_ s'
               end
      | None =>
          match s with
          | [] => []
          | c :: s' => c :: replace_all_loop fuel' r by_ s'
          end
      end
  end.

Definition replace_all (s : string) (r : regex) (by_ : string) : string :=
  from_chars (replace_all_loop (S (String.length s)) r (chars by_) (chars s)).

(** [s.replace(pattern, by)] for a pattern without the [g] flag: the
    leftmost match only. *)
Fixpoint replace_match (r : regex) (by_ s : list ascii) : list ascii :=
  match match_here r s with
  | Some m => by_ ++ m_rest m
  | None =>
      match s with
      | [] => []
      | c :: s' => c :: replace_match r by_ s'
      end
  end.

(** The decimal digits of a number, as a template literal writes it. *)
Definition decimal (n : N) : string :=
  DecimalString.NilZero.string_of_uint (N.to_uint n).

(** [a.then(f)] on completions: [f] runs on the value of [a]. *)
Definition and_then {A B : Type} (a : completion A) (f : A -> completion B)
  : completion B :=
  match a with
  | Normal x => f x
  | Throw e => Throw e
  end.

(** ** Titles *)

(** The class of the two sanitizers: the double quote and the characters
    of [<>:/\|?] and the star. *)
Definition is_reserved (c : ascii) : bool :=
  existsb (Ascii.eqb c)
    ["<"; ">"; ":"; dquote; "/"; "\"; "|"; "?"; "*"]%char.

(** The class [[-_]]. *)
Definition is_dash (c : ascii) : bool :=
  Ascii.eqb c "-" || Ascii.eqb c "_".

(** The class [[^/.]]. *)
Definition not_slash_dot (c : ascii) : bool :=
  negb (Ascii.eqb c "/" || Ascii.eqb c ".").

(** [/\s+/g] *)
Definition spaces : regex := plus (Chr is_space).

(** [/\.[^/.]+$/] *)
Definition extensionPattern : regex :=
  seqs [chr "."; plus (Chr not_slash_dot); AtEnd].

(** [/\.(m3u8|mpd|ts)$/i] *)
Definition manifestNamePattern : regex :=
  seqs [chr ".";
        Group (Alt (lit_i "m3u8") (Alt (lit_i "mpd") (lit_i "ts")));
        AtEnd].

(** [sanitizeTitle(title)] *)
Definition sanitizeTitle (title : string) : string :=
  substring_to 100
    (trim (replace_all (replace_all title (Chr is_reserved) "_") spaces " ")).

Module Titles.

Section Page.

(** [new URL(url)], or [None] when the constructor throws. *)
Variable new_URL : string -> option URL.

(** The page the content script runs in. *)
Variable doc : document.

(** The element properties that the title methods read besides those of
    [element]: the [title] property, [getAttribute(name)] ([None] is
    [null]), [parentElement] and the [content] property of a [meta]
    element ([None] on other elements). *)
Variable el_title : element -> string.
Variable getAttribute : element -> string -> option string.
Variable parentElement : element -> option element.
Variable el_content : element -> option string.

(** The reading of [Date.now()]. *)
Variable now : N.

(** [document.querySelector(selector)] *)
Definition doc_querySelector (selector : string) : completion (option element) :=
  match querySelectorAll doc selector with
  | Normal l => Normal (head l)
  | Throw m => Throw m
  end.

(** [extractTitleFromUrl(url)] *)
Definition extractTitleFromUrl (url : option string) : string :=
  match url with
  | Some url =>
      if negb (truthy url) then ""
      else
        match new_URL url with
        | Some urlObj =>
            match last (split "/" (chars (pathname urlObj))) with
            | Some filename =>
                if truthy (from_chars filename)
                   && includes (from_chars filename) "."
                then from_chars (replace_match extensionPattern [] filename)
                else ""
            | None => ""
            end
        | None => ""
        end
  | None => ""
  end.

(** The text of the first element matched by [selector] under [parent],
    trimmed, when it is not empty. *)
Definition text_under (parent : element) (selector : string)
  : completion (option string) :=
  and_then (el_querySelector parent selector) (fun found =>
    match found with
    | Some e =>
        if truthy (trim (el_textContent e))
        then Normal (Some (trim (el_textContent e)))
        else Normal None
    | None => Normal None
    end).

(** The [while (parent && depth < 3)] loop of [findNearbyTitle]; [rounds]
    is what is left of the three rounds. *)
Fixpoint nearby (rounds : nat) (parent : option element) : completion string :=
  match rounds, parent with
  | S rounds', Some parent =>
      if truthy (el_title parent) then Normal (el_title parent)
      else
        and_then (text_under parent "h1, h2, h3, h4, h5, h6") (fun heading =>
          match heading with
          | Some text => Normal text
          | None =>
              and_then
                (text_under parent ".title, .video-title, .name, .video-name")
                (fun titleElement =>
                   match titleElement with
                   | Some text => Normal text
                   | None => nearby rounds' (parentElement parent)
                   end)
          end)
  | _, _ => Normal ""
  end.

(** [findNearbyTitle(videoElement)] *)
Definition findNearbyTitle (videoElement : element) : completion string :=
  nearby 3 (parentElement videoElement).

(** The value of [e.getAttribute(name)] where the source has tested it. *)
Definition attribute (e : element) (name : string) : string :=
  match getAttribute e name with Some v => v | None => "" end.

(** [extractVideoTitle(videoElement, sourceElement = null)] *)
Definition extractVideoTitle (videoElement : element)
    (sourceElement : option element) : completion string :=
  let title :=
    if truthy (el_title videoElement) then el_title videoElement
    else if truthy_opt (getAttribute videoElement "data-title")
    then attribute videoElement "data-title"
    else if truthy_opt (getAttribute videoElement "aria-label")
    then attribute videoElement "aria-label"
    else "" in
  let title :=
    match sourceElement with
    | Some source =>
        if negb (truthy title) then
          if truthy (el_title source) then el_title source
          else if truthy_opt (getAttribute source "data-title")
          then attribute source "data-title"
          else title
        else title
    | None => title
    end in
  and_then
    (if negb (truthy title) then findNearbyTitle videoElement
     else Normal title)
    (fun title =>
       let title :=
         if negb (truthy title)
         then extractTitleFromUrl
                (or_else (el_src videoElement)
                         (match sourceElement with
                          | Some source => el_src source
                          | None => None
                          end))
         else title in
       let title :=
         if negb (truthy title) then ("Video " ++ decimal now)%string
         else title in
       Normal (sanitizeTitle title)).

(** The loop shared by [extractTikTokTitle] and [extractFacebookTitle]:
    the first selector whose element has a text. *)
Fixpoint titleFromText (titleSelectors : list string) (fallback : string)
  : completion string :=
  match titleSelectors with
  | [] => Normal fallback
  | selector :: rest =>
      and_then (doc_querySelector selector) (fun titleElement =>
        match titleElement with
        | Some e =>
            if truthy (trim (el_textContent e))
            then Normal (sanitizeTitle (trim (el_textContent e)))
            else titleFromText rest fallback
        | None => titleFromText rest fallback
        end)
  end.

(** The loop shared by the title methods of YouTube, Instagram, Twitter
    and Twitch: the first selector whose element has a text, or a [content]
    when its text is empty. *)
Fixpoint titleFromTextOrContent (titleSelectors : list string)
    (fallback : string) : completion string :=
  match titleSelectors with
  | [] => Normal fallback
  | selector :: rest =>
      and_then (doc_querySelector selector) (fun titleElement =>
        match titleElement with
        | Some e =>
            match or_else (Some (el_textContent e)) (el_content e) with
            | Some title =>
                if truthy title && truthy (trim title)
                then Normal (sanitizeTitle (trim title))
                else titleFromTextOrContent rest fallback
            | None => titleFromTextOrContent rest fallback
            end
        | None => titleFromTextOrContent rest fallback
        end)
  end.

(** [extractTikTokTitle(element)]; the six platform methods do not read
    their argument. *)
Definition extractTikTokTitle : completion string :=
  titleFromText
    [ q "[data-e2e=`browse-video-desc`]"; ".video-meta-caption";
      ".tt-video-meta-caption"; "h1" ]
    "TikTok Video".

(** [extractFacebookTitle(element)] *)
Definition extractFacebookTitle : completion string :=
  titleFromText
    [ q "[data-ad-preview=`message`]"; ".userContent";
      q "[data-testid=`post_message`]"; "h3" ]
    "Facebook Video".

(** [extractYouTubeTitle(element)] *)
Definition extractYouTubeTitle : completion string :=
  titleFromTextOrContent
    [ "h1.title"; ".watch-title"; "#container h1";
      q "meta[property=`og:title`]" ]
    "YouTube Video".

(** [extractInstagramTitle(element)] *)
Definition extractInstagramTitle : completion string :=
  titleFromTextOrContent
    [ q "meta[property=`og:title`]"; "h1"; ".caption" ]
    "Instagram Video".

(** [extractTwitterTitle(element)] *)
Definition extractTwitterTitle : completion string :=
  titleFromTextOrContent
    [ q "[data-testid=`tweetText`]"; q "meta[property=`og:title`]";
      ".tweet-text" ]
    "Twitter Video".

(** [extractTwitchTitle(element)] *)
Definition extractTwitchTitle : completion string :=
  titleFromTextOrContent
    [ q "h1[data-a-target=`stream-title`]"; ".channel-info-content h1";
      q "meta[property=`og:title`]" ]
    "Twitch Video".

(** The test of the loop of [extractTitleFromStreamingUrl] on one part of
    the path. *)
Definition meaningful (part : string) : bool :=
  truthy part && negb (test manifestNamePattern part)
  && (3 <? String.length part)%nat.

(** [extractTitleFromStreamingUrl(url, platform)] *)
Definition extractTitleFromStreamingUrl (url platform : string) : string :=
  match new_URL url with
  | Some urlObj =>
      let pathParts :=
        List.filter truthy
          (map from_chars (split "/" (chars (pathname urlObj)))) in
      match find meaningful (rev pathParts) with
      | Some part => sanitizeTitle (replace_all part (Chr is_dash) " ")
      | None => (platform ++ " Stream")%string
      end
  | None => (platform ++ " Stream")%string
  end.

(** The title methods of the page, as the detector calls them. *)
Definition resolver : title_resolver :=
  TitleResolver extractVideoTitle
    (fun _ => extractTikTokTitle) (fun _ => extractFacebookTitle)
    (fun _ => extractYouTubeTitle) (fun _ => extractInstagramTitle)
    (fun _ => extractTwitterTitle) (fun _ => extractTwitchTitle)
    (fun url platform => Normal (extractTitleFromStreamingUrl url platform)).

End Page.

End Titles.

(** ** Vocabulary of the title statements *)

(** Every run of characters in [p] replaced by [by_]; [in_run] tells that
    the character before belongs to a run already replaced. *)
Fixpoint squeeze (p : ascii -> bool) (by_ : list ascii) (in_run : bool)
    (l : list ascii) : list ascii :=
  match l with
  | [] => []
  | c :: l' =>
      if p c then
        if in_run then squeeze p by_ true l'
        else by_ ++ squeeze p by_ true l'
      else c :: squeeze p by_ false l'
  end.

(** What the first replacement of the sanitizers makes of a character. *)
Definition esc (c : ascii) : ascii := if is_reserved c then "_"%char else c.

(** Every white-space character of [l] is a space and no two of them are
    neighbours; with [after_space], the text follows a space. *)
Fixpoint single_spaced (after_space : bool) (l : list ascii) : bool :=
  match l with
  | [] => true
  | c :: l' =>
      if is_space c
      then Ascii.eqb c " " && negb after_space && single_spaced true l'
      else single_spaced false l'
  end.

(** A text that can stand in a file name and on one line: at most 100
    characters, none of them reserved, no white space but single spaces,
    none of them in front. *)
Definition tidy (s : string) : Prop :=
  String.length s <= 100 /\
  Forall (fun c => is_reserved c = false) (chars s) /\
  Forall (fun c => is_space c = true -> c = " "%char) (chars s) /\
  ~ contains s "  " /\
  startsWith s " " = false.

(** [tidy], decided. *)
Definition tidyb (s : string) : bool :=
  (String.length s <=? 100)%nat
  && forallb (fun c => negb (is_reserved c)) (chars s)
  && single_spaced false (chars s)
  && negb (startsWith s " ").

(** The names that [detectPlatform] gives and the formats that
    [getStreamingFormat] gives. *)
Definition platformNames : list string :=
  ["tiktok"; "facebook"; "youtube"; "instagram"; "twitter"; "twitch";
   "generic"].

Definition streamingFormats : list string := ["HLS"; "DASH"; "TS"; "Stream"].

(** [resolver] is the title code of the page: each of its methods is the
    method of [Titles], the generic one at the reading of the clock of its
    call. *)
Definition page_titles (new_URL : string -> option URL) (doc : document)
    (el_title : element -> string)
    (getAttribute : element -> string -> option string)
    (parentElement : element -> option element)
    (el_content : element -> option string)
    (resolver : title_resolver) : Prop :=
  (forall video source, exists now,
      extractVideoTitle resolver video source
      = Titles.extractVideoTitle new_URL el_title getAttribute parentElement
          now video source) /\
  (forall e, extractTikTokTitle resolver e = Titles.extractTikTokTitle doc) /\
  (forall e, extractFacebookTitle resolver e = Titles.extractFacebookTitle doc) /\
  (forall e, extractYouTubeTitle resolver e
             = Titles.extractYouTubeTitle doc el_content) /\
  (forall e, extractInstagramTitle resolver e
             = Titles.extractInstagramTitle doc el_content) /\
  (forall e, extractTwitterTitle resolver e
             = Titles.extractTwitterTitle doc el_content) /\
  (forall e, extractTwitchTitle resolver e
             = Titles.extractTwitchTitle doc el_content) /\
  (forall url platform,
      extractTitleFromStreamingUrl resolver url platform
      = Normal (Titles.extractTitleFromStreamingUrl new_URL url platform)).

(** Every title that a method of [resolver] returns is tidy. *)
Definition tidy_resolver (resolver : title_resolver) : Prop :=
  (forall video source t,
      extractVideoTitle resolver video source = Normal t -> tidy t) /\
  (forall e t, extractTikTokTitle resolver e = Normal t -> tidy t) /\
  (forall e t, extractFacebookTitle resolver e = Normal t -> tidy t) /\
  (forall e t, extractYouTubeTitle resolver e = Normal t -> tidy t) /\
  (forall e t, extractInstagramTitle resolver e = Normal t -> tidy t) /\
  (forall e t, extractTwitterTitle resolver e = Normal t -> tidy t) /\
  (forall e t, extractTwitchTitle resolver e = Normal t -> tidy t) /\
  (forall url platform t,
      In platform platformNames ->
      extractTitleFromStreamingUrl resolver url platform = Normal t -> tidy t).

(** The properties of a returned candidate that the scan theorems state:
    a tidy title; a title, for a streaming candidate; a locator of at least
    eleven characters, twenty for a candidate that is not a streaming one. *)
Definition titled (c : candidate) : Prop := tidy (title c).

Definition named_stream (c : candidate) : Prop :=
  isStreaming c = Some true -> title c <> "".

Definition long_locator (c : candidate) : Prop :=
  exists locator,
    or_else (url c) (src c) = Some locator /\
    11 <= String.length locator /\
    (isStreaming c <> Some true -> 20 <= String.length locator).

(** A YouTube page with a player response whose manifest URL is written
    with escaped slashes, as JSON allows, and a JSON parser that reads that
    response. *)
Definition escaped_script_text : string :=
  q "ytInitialPlayerResponse = {`streamingData`:{`hlsManifestUrl`:`https:\/\/example.com\/hls\/master.m3u8`}};".

Definition youtube_escaped_page : document :=
  page "www.youtube.com" "Talk: part 1 - YouTube" [] []
    [script_element escaped_script_text].

Definition manifest_JSON : string -> option playerData :=
  fun _ => Some (PlayerData (Some (StreamingData (Some manifest_url) None))).

(** ** The requests of the page *)

(** A request that the page makes through one of the two wrapped entry
    points, with the value it passes as the URL. *)
Inductive page_request : Type :=
| XhrOpen (url : jsval)
| Fetch (url : jsval).

Definition observe (urls : list string) (r : page_request) : list string :=
  match r with
  | XhrOpen url => observe_open url urls
  | Fetch url => observe_fetch url urls
  end.

(** [this.streamingUrls] after the requests, from the empty set of the
    constructor. *)
Definition observed (requests : list page_request) : list string :=
  fold_left observe requests [].

(** The text that a request asks for, when it gives one. *)
Definition requested (r : page_request) : option string :=
  match r with
  | XhrOpen (JString u) => Some u
  | Fetch (JString u) => Some u
  | Fetch (JRequest u) => Some u
  | _ => None
  end.

(** [u] holds no quote character. *)
Definition quote_free (u : string) : Prop :=
  Forall (fun c => c <> dquote /\ c <> squote) (chars u).

(** The text without its quote characters, as the [replace] of the scanner
    gives it. *)
Definition unquoted (url : string) : string :=
  from_chars (strip_quotes (chars url)).

(** ** The background script (background.js) *)

(** [s.lastIndexOf(c)] for a text [c] of one character: the index of its
    last occurrence, or -1. *)
Fixpoint lastIndexOf (c : ascii) (l : list ascii) : Z :=
  match l with
  | [] => -1
  | a :: l' =>
      let n := lastIndexOf c l' in
      if (0 <=? n)%Z then (n + 1)%Z
      else if Ascii.eqb a c then 0%Z else (-1)%Z
  end.

(** [s.substring(0, n)] for a number [n] that may be negative. *)
Definition substring_to_Z (n : Z) (s : string) : string :=
  substring_to (Z.to_nat n) s.

(** The line feed. *)
Definition newline : ascii := ascii_of_N 10.

Module Background.

(** The object built by [new URL(url)], with the fields that the
    background script reads. *)
Record URL : Type := mkURL {
  protocol : string;
  host : string;
  hostname : string;
  pathname : string
}.

(** [chrome.notifications.create(options)] *)
Record notification : Type := Notification {
  n_type : string;
  n_iconUrl : string;
  n_title : string;
  n_message : string
}.

(** The [options] argument of [showNotification]. *)
Record notify_options : Type := NotifyOptions {
  o_message : option string;
  o_type : option string;
  o_iconUrl : option string
}.

(** [chrome.downloads.download(options)] *)
Record download_options : Type := DownloadOptions {
  d_url : string;
  d_filename : string;
  d_conflictAction : string;
  d_saveAs : bool
}.

(** The value stored under [download_<id>]. *)
Record download_info : Type := DownloadInfo {
  i_url : string;
  i_filename : string;
  i_startTime : N
}.

(** What [downloadStreamingVideo] resolves to: the report of a playlist
    download, or the download id of a direct download. *)
Inductive streaming_result : Type :=
| PlaylistReport (format : string) (segments : option nat) (message : string)
| DirectDownload (downloadId : N).

(** The message of the popup and the answer to it. *)
Record request : Type := Request {
  action : string;
  r_url : option string;
  r_filename : option string;
  r_video : option candidate
}.

Record response : Type := Response {
  success : bool;
  downloadId : option N;
  result : option streaming_result;
  error : option string
}.

(** An entry of the answer of [chrome.downloads.search]. *)
Record download_item : Type := DownloadItem {
  item_error : option string
}.

(** The argument of the listener of [chrome.downloads.onChanged]:
    [delta_state] is [downloadDelta.state.current], absent when the change
    is not one of the state. *)
Record download_delta : Type := DownloadDelta {
  delta_id : N;
  delta_state : option string
}.

(** What the background script has done to the browser: the notifications
    shown, the downloads started, the storage area, the responses sent,
    the tabs opened. *)
Record state : Type := State {
  notifications : list notification;
  started : list download_options;
  storage : gmap string download_info;
  sent : list response;
  opened : list (option string)
}.

(** [isStreamingUrl(url)] of the background script. *)
Definition isStreamingUrl (v : jsval) : bool :=
  match v with
  | JString url =>
      if negb (truthy url) then false
      else if includes url ".m3u8" || includes url "m3u8" then true
      else if includes url ".mpd" || includes url "mpd" then true
      else if includes url ".ts"
              && (includes url "segment" || includes url "chunk")
      then true
      else false
  | _ => false
  end.

(** [Array.from(urls).slice(-n)] *)
Definition slice_last (n : nat) (urls : list string) : list string :=
  drop (length urls - n) urls.

(** [storeStreamingUrl(url, tabId)] on the map [this.streamingUrls]; a
    set is the list of its elements in insertion order. *)
Definition storeStreamingUrl (url : string) (tabId : Z)
    (streamingUrls : gmap Z (list string)) : gmap Z (list string) :=
  let streamingUrls :=
    match streamingUrls !! tabId with
    | Some _ => streamingUrls
    | None => <[tabId := []]> streamingUrls
    end in
  let streamingUrls := alter (streamingUrls_add url) tabId streamingUrls in
  match streamingUrls !! tabId with
  | Some urls =>
      if (100 <? length urls)%nat
      then <[tabId := slice_last 100 urls]> streamingUrls
      else streamingUrls
  | None => streamingUrls
  end.

(** The listener of [chrome.webRequest.onBeforeRequest]. *)
Definition onBeforeRequest (details : jsval * Z)
    (streamingUrls : gmap Z (list string)) : gmap Z (list string) :=
  match details with
  | (JString url, tabId) =>
      if isStreamingUrl (JString url)
      then storeStreamingUrl url tabId streamingUrls
      else streamingUrls
  | _ => streamingUrls
  end.

(** The map after the requests, from the empty map of the constructor. *)
Definition monitored (requests : list (jsval * Z)) : gmap Z (list string) :=
  fold_left (fun streamingUrls details => onBeforeRequest details streamingUrls)
    requests ∅.

(** [detectStreamingFormat(url)] *)
Definition detectStreamingFormat (url : string) : string :=
  if includes url ".m3u8" then "HLS"
  else if includes url ".mpd" then "DASH"
  else "DIRECT".

(** [sanitizeFilename(filename)]; [None] is a value that is not a text. *)
Definition sanitizeFilename (now : N) (filename : option string) : string :=
  let filename :=
    match filename with
    | Some f => if truthy f then f else ("video_" ++ decimal now)%string
    | None => ("video_" ++ decimal now)%string
    end in
  substring_to 100
    (trim (replace_all (replace_all filename (Chr is_reserved) "_") spaces "_")).

(** [generateFilename(video, extension)] *)
Definition generateFilename (now : N) (video : candidate) (extension : string)
  : string :=
  let filename := if truthy (title video) then title video else "video" in
  let filename := sanitizeFilename now (Some filename) in
  let filename :=
    if includes filename "."
    then substring_to_Z (lastIndexOf "." (chars filename)) filename
    else filename in
  (filename ++ "." ++ extension)%string.

Section Host.

(** [new URL(url)], or [None] when the constructor throws. *)
Variable new_URL : string -> option URL.

(** [fetch(url, {method: 'HEAD', mode: 'no-cors'})]: the status of the
    response, or the message of the rejection. *)
Variable fetch_head : string -> completion N.

(** [fetch(url)] followed by [response.text()]; the URL is the [url]
    field of a candidate, which may be absent. *)
Variable fetch_text : option string -> completion string.

(** [URL.createObjectURL(new Blob([content]))] *)
Variable createObjectURL : string -> string.

(** [chrome.downloads.download(options)]: the download id, or the message
    of the rejection. *)
Variable downloads_download : download_options -> completion N.

(** The reading of [Date.now()] that names a file without a name. *)
Variable now : N.

(** The later reading of [Date.now()] that [downloadVideo] stores. *)
Variable startTime : N.

Definition background (A : Type) : Type := ST state A.

(** [chrome.notifications.create(n)] *)
Definition notifications_create (n : notification) : background unit :=
  fun st =>
    (Normal tt,
     {| notifications := notifications st ++ [n]; started := started st;
        storage := storage st; sent := sent st; opened := opened st |}).

(** A call of [chrome.downloads.download]: the call is recorded, and its
    outcome is the host's. *)
Definition download (options : download_options) : background N :=
  fun st =>
    (downloads_download options,
     {| notifications := notifications st; started := started st ++ [options];
        storage := storage st; sent := sent st; opened := opened st |}).

(** [chrome.storage.local.set({[key]: info})] *)
Definition storage_set (key : string) (info : download_info)
  : background unit :=
  fun st =>
    (Normal tt,
     {| notifications := notifications st; started := started st;
        storage := <[key := info]> (storage st); sent := sent st;
        opened := opened st |}).

(** [chrome.storage.local.remove([key])] *)
Definition storage_remove (key : string) : background unit :=
  fun st =>
    (Normal tt,
     {| notifications := notifications st; started := started st;
        storage := delete key (storage st); sent := sent st;
        opened := opened st |}).

Definition sendResponse (r : response) : background unit :=
  fun st =>
    (Normal tt,
     {| notifications := notifications st; started := started st;
        storage := storage st; sent := sent st ++ [r];
        opened := opened st |}).

(** [a || b] for an option that may be absent or empty. *)
Definition or_default (a : option string) (b : string) : string :=
  match a with
  | Some s => if truthy s then s else b
  | None => b
  end.

(** [showNotification(title, options)] *)
Definition showNotification (title : string) (options : notify_options)
  : background unit :=
  try_catch
    (notifications_create
       {| n_type := or_default (o_type options) "basic";
          n_iconUrl := or_default (o_iconUrl options) "icons/icon.png";
          n_title := title;
          n_message := or_default (o_message options) "" |})
    (fun _ => ret tt).

(** [showStreamingNotification(video, format, segmentCount)] *)
Definition showStreamingNotification (video : candidate) (format : string)
    (segmentCount : nat) : background unit :=
  let message :=
    if (0 <? segmentCount)%nat
    then (format ++ " stream detected with "
          ++ decimal (N.of_nat segmentCount)
          ++ " segments. Downloading playlist file.")%string
    else (format ++ " stream detected. Downloading manifest file.")%string in
  notifications_create
    {| n_type := "basic"; n_iconUrl := "icons/icon.png";
       n_title := "Video DownloadHelper"; n_message := message |}.

(** [isValidUrl(url)]; the argument may be absent. *)
Definition isValidUrl (url : option string) : bool :=
  match url with
  | Some u => match new_URL u with Some _ => true | None => false end
  | None => false
  end.

(** [isBlobUrl(url)] *)
Definition isBlobUrl (url : string) : bool := startsWith url "blob:".

(** [isSocialMediaUrl(url)] *)
Definition isSocialMediaUrl (url : string) : bool :=
  let socialDomains :=
    ["facebook.com"; "youtube.com"; "instagram.com"; "tiktok.com";
     "twitter.com"; "x.com"] in
  match new_URL url with
  | Some urlObj =>
      existsb (fun domain => includes (hostname urlObj) domain) socialDomains
  | None => false
  end.

(** The key [download_<id>] of the storage area. *)
Definition download_key (downloadId : N) : string :=
  ("download_" ++ decimal downloadId)%string.

(** [storeDownloadInfo(downloadId, info)] *)
Definition storeDownloadInfo (downloadId : N) (info : download_info)
  : background unit :=
  try_catch (storage_set (download_key downloadId) info) (fun _ => ret tt).

(** The line that [parseM3U8] pushes for a line of the playlist that is
    neither empty nor a comment. *)
Definition segmentUrl (baseUrl : option string) (line : string)
  : completion string :=
  if negb (startsWith line "http") then
    match match baseUrl with Some b => new_URL b | None => None end with
    | Some baseUrlObj =>
        if startsWith line "/"
        then Normal (protocol baseUrlObj ++ "//" ++ host baseUrlObj ++ line)%string
        else
          let basePath :=
            substring_to_Z
              (lastIndexOf "/" (chars (pathname baseUrlObj)) + 1)
              (pathname baseUrlObj) in
          Normal (protocol baseUrlObj ++ "//" ++ host baseUrlObj
                  ++ basePath ++ line)%string
    | None => Throw "TypeError"
    end
  else Normal line.

(** The [for] loop of [parseM3U8] over the lines. *)
Fixpoint segments_of (baseUrl : option string) (lines : list string)
  : completion (list string) :=
  match lines with
  | [] => Normal []
  | l :: rest =>
      let line := trim l in
      if truthy line && negb (startsWith line "#") then
        and_then (segmentUrl baseUrl line) (fun segment =>
          and_then (segments_of baseUrl rest) (fun segments =>
            Normal (segment :: segments)))
      else segments_of baseUrl rest
  end.

(** [parseM3U8(playlistText, baseUrl)] *)
Definition parseM3U8 (playlistText : string) (baseUrl : option string)
  : completion (list string) :=
  segments_of baseUrl (map from_chars (split newline (chars playlistText))).

(** [downloadVideo(url, filename)] *)
Definition downloadVideo (url filename : option string) : background N :=
  if negb (isValidUrl url) then lift (Throw "URL không hợp lệ")
  else
    match url with
    | None => lift (Throw "URL không hợp lệ")
    | Some url =>
        if isBlobUrl url then
          showNotification "Blob URL không hỗ trợ"
            {| o_message := Some (q "Blob URLs không thể tải xuống trực tiếp. Hãy thử right-click và `Save video as...` trên video.");
               o_type := Some "basic"; o_iconUrl := Some "icons/icon.png" |} ;;;
          lift (Throw "Blob URLs không thể tải xuống trực tiếp")
        else
          (if isSocialMediaUrl url then
             showNotification "Social Media Video"
               {| o_message := Some "Video từ social media thường được bảo vệ. Hãy thử sử dụng các công cụ chuyên dụng như yt-dlp hoặc 4K Video Downloader.";
                  o_type := Some "basic"; o_iconUrl := Some "icons/icon.png" |}
           else ret tt) ;;;
          match fetch_head url with
          | Throw e =>
              showNotification "URL không khả dụng"
                {| o_message := Some ("Không thể truy cập URL: " ++ e)%string;
                   o_type := Some "basic";
                   o_iconUrl := Some "icons/icon.png" |} ;;;
              lift (Throw ("URL không khả dụng: " ++ e)%string)
          | Normal _ =>
              let sanitizedFilename := sanitizeFilename now filename in
              downloadId <-
                download {| d_url := url; d_filename := sanitizedFilename;
                            d_conflictAction := "uniquify";
                            d_saveAs := false |} ;;
              storeDownloadInfo downloadId
                {| i_url := url; i_filename := sanitizedFilename;
                   i_startTime := startTime |} ;;;
              ret downloadId
          end
    end.

(** [downloadPlaylistFile(video, content, extension)]; the later
    [revokeObjectURL] of the timer is left out. *)
Definition downloadPlaylistFile (video : candidate) (content extension : string)
  : background N :=
  download {| d_url := createObjectURL content;
              d_filename := generateFilename now video extension;
              d_conflictAction := "uniquify"; d_saveAs := false |}.

(** [downloadHLS(video)] *)
Definition downloadHLS (video : candidate) : background streaming_result :=
  playlistText <- lift (fetch_text (url video)) ;;
  segments <- lift (parseM3U8 playlistText (url video)) ;;
  downloadPlaylistFile video playlistText "m3u8" ;;;
  showStreamingNotification video "HLS" (length segments) ;;;
  ret (PlaylistReport "HLS" (Some (length segments)) "HLS playlist downloaded").

(** [downloadDASH(video)] *)
Definition downloadDASH (video : candidate) : background streaming_result :=
  manifestText <- lift (fetch_text (url video)) ;;
  downloadPlaylistFile video manifestText "mpd" ;;;
  showStreamingNotification video "DASH" 0 ;;;
  ret (PlaylistReport "DASH" None "DASH manifest downloaded").

(** [downloadDirect(video)] *)
Definition downloadDirect (video : candidate) : background streaming_result :=
  downloadId <-
    downloadVideo (url video)
      (Some (if truthy (title video) then title video else "streaming_video")) ;;
  ret (DirectDownload downloadId).

(** [downloadStreamingVideo(video)]; an absent [video] has no [format] to
    read. *)
Definition downloadStreamingVideo (video : option candidate)
  : background streaming_result :=
  match video with
  | None => lift (Throw "TypeError")
  | Some video =>
      format <-
        lift (if truthy_opt (format video)
              then Normal (or_default (format video) "")
              else match url video with
                   | Some u => Normal (detectStreamingFormat u)
                   | None => Throw "TypeError"
                   end) ;;
      if String.eqb format "HLS" then downloadHLS video
      else if String.eqb format "DASH" then downloadDASH video
      else downloadDirect video
  end.

(** [handleMessage(request, sender, sendResponse)] *)
Definition handleMessage (request : request) : background unit :=
  try_catch
    (if String.eqb (action request) "downloadVideo" then
       result <- downloadVideo (r_url request) (r_filename request) ;;
       sendResponse {| success := true; downloadId := Some result;
                       result := None; error := None |}
     else if String.eqb (action request) "downloadStreaming" then
       result <- downloadStreamingVideo (r_video request) ;;
       sendResponse {| success := true; downloadId := None;
                       result := Some result; error := None |}
     else ret tt)
    (fun e =>
       sendResponse {| success := false; downloadId := None; result := None;
                       error := Some e |}).

(** [chrome.downloads.search({id: downloadId})] *)
Variable downloads_search : N -> completion (list download_item).

(** [getDownloadInfo(downloadId)]: the stored value, if any. *)
Definition getDownloadInfo (downloadId : N) : background (option download_info) :=
  try_catch
    (fun st => (Normal (storage st !! download_key downloadId), st))
    (fun _ => ret None).

(** [cleanupDownloadInfo(downloadId)] *)
Definition cleanupDownloadInfo (downloadId : N) : background unit :=
  try_catch (storage_remove (download_key downloadId)) (fun _ => ret tt).

(** [chrome.tabs.create({url, active: false})], inside its [try]. *)
Definition tabs_create (url : option string) : background unit :=
  fun st =>
    (Normal tt,
     {| notifications := notifications st; started := started st;
        storage := storage st; sent := sent st;
        opened := opened st ++ [url] |}).

(** [downloadInfo?.filename || 'video'] *)
Definition filename_of (downloadInfo : option download_info) : string :=
  match downloadInfo with
  | Some info => if truthy (i_filename info) then i_filename info else "video"
  | None => "video"
  end.

(** The options of the notifications of [handleDownloadChange]. *)
Definition basic (message : string) : notify_options :=
  {| o_message := Some message; o_type := Some "basic";
     o_iconUrl := Some "icons/icon.png" |}.

(** [handleDownloadChange(downloadDelta)] *)
Definition handleDownloadChange (downloadDelta : download_delta)
  : background unit :=
  match delta_state downloadDelta with
  | Some state =>
      if negb (truthy state) then ret tt
      else
        let downloadId := delta_id downloadDelta in
        downloadInfo <- getDownloadInfo downloadId ;;
        if String.eqb state "complete" then
          showNotification "Tải xuống hoàn tất"
            (basic ("Video đã được tải xuống: "
                    ++ filename_of downloadInfo)%string) ;;;
          cleanupDownloadInfo downloadId
        else if String.eqb state "interrupted" then
          downloadItem <- lift (downloads_search downloadId) ;;
          let errorReason :=
            or_default
              (match head downloadItem with
               | Some first => item_error first
               | None => None
               end) "Unknown error" in
          (if String.eqb errorReason "NETWORK_FAILED"
              || String.eqb errorReason "SERVER_FORBIDDEN"
           then
             showNotification "Thử phương pháp khác"
               (basic ("Đang thử tải xuống bằng cách khác: "
                       ++ filename_of downloadInfo)%string) ;;;
             try_catch
               (tabs_create
                  (match downloadInfo with
                   | Some info => Some (i_url info)
                   | None => None
                   end))
               (fun _ => ret tt)
           else
             showNotification "Lỗi tải xuống"
               (basic ("Không thể tải xuống video: "
                       ++ filename_of downloadInfo
                       ++ String newline "Lỗi: " ++ errorReason)%string)) ;;;
          cleanupDownloadInfo downloadId
        else ret tt
  | None => ret tt
  end.

End Host.

End Background.

(** ** Vocabulary of the background statements *)

(** A name that [chrome.downloads.download] can take as it is: no
    reserved character and no white space. *)
Definition plain_name (s : string) : Prop :=
  Forall (fun c => is_reserved c = false /\ is_space c = false) (chars s).

(** The lines that name a segment: trimmed, neither empty nor a comment. *)
Definition media_of (lines : list string) : list string :=
  List.filter (fun line => truthy line && negb (startsWith line "#"))
    (map trim lines).

(** The media lines of a playlist. *)
Definition media_lines (playlistText : string) : list string :=
  media_of (map from_chars (split newline (chars playlistText))).

(** The set of a tab after a URL is stored in it. *)
Definition stored_set (url : string) (urls : list string) : list string :=
  let urls := streamingUrls_add url urls in
  if (100 <? length urls)%nat then Background.slice_last 100 urls else urls.

(** The download that a message may start: under a plain name, never
    overwriting a file and never asking where to save. *)
Definition quiet_download (d : Background.download_options) : Prop :=
  plain_name (Background.d_filename d) /\
  Background.d_conflictAction d = "uniquify" /\
  Background.d_saveAs d = false.

(** ** A host for the background scenarios *)

(** The parser of the scenarios as the background script reads it; the
    URLs of the scenarios have no port, so [host] is the host name. *)
Definition background_URL (url : string) : option Background.URL :=
  option_map
    (fun u => Background.mkURL (protocol u) (host_name u) (host_name u)
                (pathname u))
    (reference_URL url).

(** A browser that has done nothing yet. *)
Definition idle : Background.state :=
  Background.State [] [] ∅ [] [].

(** ** The popup script *)

Module Popup.

(** The sections of the popup document; one of them is displayed at a
    time, or none. *)
Inductive section_id : Type :=
| Loading
| NoVideos
| VideosList
| ErrorSection.

(** What the error section holds: the text of an error, or the page about
    a special tab with its two variable texts. *)
Inductive details : Type :=
| NoDetails
| ErrorText (message : string)
| SpecialPage (pageType suggestion : string).

(** The button of a list item. *)
Inductive button : Type :=
| DownloadButton
| InfoButton.

(** A list item, by the values that its HTML is built from; [it_format]
    is the format before the badge puts it in upper case. *)
Record item : Type := Item {
  it_index : nat;
  it_title : string;
  it_shortUrl : string;
  it_platform : string;
  it_type : string;
  it_format : string;
  it_size : string;
  it_warning : option (string * option string);
  it_button : button
}.

(** The popup: [this.videos], the section displayed, the error details,
    the items of the list, and the delays it has waited for. *)
Record state : Type := State {
  videos_ : list candidate;
  shown : option section_id;
  errorDetails : details;
  items : list item;
  waited : list nat
}.

(** The active tab as [chrome.tabs.query] gives it. *)
Record tab : Type := Tab {
  tab_id : Z;
  tab_url : option string
}.

Definition popup (A : Type) : Type := ST state A.

(** [isValidTabUrl(url)] *)
Definition isValidTabUrl (url : option string) : bool :=
  match url with
  | Some url =>
      if negb (truthy url) then false
      else
        let invalidPrefixes :=
          [ "chrome://"; "chrome-extension://"; "moz-extension://";
            "edge://"; "about:"; "data:"; "file://" ] in
        negb (existsb (fun prefix => startsWith url prefix) invalidPrefixes)
  | None => false
  end.

(** [shortenUrl(url)]; an absent URL has no [length]. *)
Definition shortenUrl (url : option string) : completion string :=
  match url with
  | Some url =>
      if (String.length url <=? 50)%nat then Normal url
      else
        Normal (substring_to 30 url ++ "..."
                ++ substring_from (String.length url - 17) url)%string
  | None => Throw "TypeError"
  end.

(** The table of [getPlatformDisplayName]. *)
Definition platformNames : list (string * string) :=
  [ ("tiktok", "TikTok"); ("facebook", "Facebook"); ("youtube", "YouTube");
    ("instagram", "Instagram"); ("twitter", "Twitter/X"); ("twitch", "Twitch");
    ("tiktok_blob", "TikTok"); ("facebook_blob", "Facebook");
    ("youtube_blob", "YouTube"); ("instagram_blob", "Instagram");
    ("twitter_blob", "Twitter/X"); ("twitch_blob", "Twitch");
    ("direct", "Direct"); ("source", "HTML5") ].

(** [platformNames[type]] *)
Fixpoint lookup_name (table : list (string * string)) (type : string)
  : option string :=
  match table with
  | [] => None
  | (key, name) :: rest =>
      if String.eqb key type then Some name else lookup_name rest type
  end.

(** [getPlatformDisplayName(type)] *)
Definition getPlatformDisplayName (type : string) : string :=
  match lookup_name platformNames type with
  | Some name => name
  | None => "Generic"
  end.

Section Host.

(** [new URL(url)], or [None] when the constructor throws. *)
Variable new_URL : string -> option URL.

(** The reading of [Date.now()]. *)
Variable now : N.

(** [chrome.tabs.query({active: true, currentWindow: true})]: the first
    tab of the answer, if any, or the message of the rejection. *)
Variable tabs_query : completion (option tab).

(** [chrome.tabs.sendMessage] at the attempt of the given number: the
    response, which may be [undefined], or the message of the rejection. *)
Variable sendMessage : nat -> completion (option response).

(** [extractVideoTitle(url)] of the popup. *)
Definition extractVideoTitle (url : option string) : string :=
  match match url with Some u => new_URL u | None => None end with
  | Some urlObj =>
      match last (split "/" (chars (pathname urlObj))) with
      | Some filename =>
          if truthy (from_chars filename)
             && includes (from_chars filename) "."
          then from_chars filename
          else ("video_" ++ decimal now ++ ".mp4")%string
      | None => ("video_" ++ decimal now ++ ".mp4")%string
      end
  | None => ("video_" ++ decimal now ++ ".mp4")%string
  end.

(** [video.url && video.url.startsWith('blob:')], as a truth value. *)
Definition isBlob (video : candidate) : bool :=
  match url video with
  | Some u => truthy u && startsWith u "blob:"
  | None => false
  end.

(** [video.downloadable === false] *)
Definition isNonDownloadable (video : candidate) : bool :=
  match downloadable video with
  | Some false => true
  | _ => false
  end.

(** [a || b] for a field that may be absent or empty. *)
Definition or_text (a : option string) (b : string) : string :=
  match a with
  | Some s => if truthy s then s else b
  | None => b
  end.

(** [createVideoItem(video, index)] *)
Definition createVideoItem (video : candidate) (index : nat)
  : completion item :=
  let title :=
    if truthy (title video) then title video
    else extractVideoTitle (url video) in
  and_then (shortenUrl (url video)) (fun shortUrl =>
    let platform := getPlatformDisplayName (type video) in
    let format := or_text (format video) "Unknown" in
    let blocked := isBlob video || isNonDownloadable video in
    Normal
      {| it_index := index; it_title := title; it_shortUrl := shortUrl;
         it_platform := platform; it_type := type video; it_format := format;
         it_size := or_text (size video) "Unknown";
         it_warning :=
           if blocked
           then Some (or_text (reason video)
                        "Video này không thể tải xuống trực tiếp",
                      if truthy_opt (alternative video)
                      then alternative video else None)
           else None;
         it_button := if blocked then InfoButton else DownloadButton |}).

(** [hideAllSections()] followed by the display of one section. *)
Definition show (section : section_id) : popup unit :=
  fun st =>
    (Normal tt,
     {| videos_ := videos_ st; shown := Some section;
        errorDetails := errorDetails st; items := items st;
        waited := waited st |}).

Definition showLoading : popup unit := show Loading.

Definition showNoVideos : popup unit := show NoVideos.

(** [showError(message)] *)
Definition showError (message : string) : popup unit :=
  fun st =>
    (Normal tt,
     {| videos_ := videos_ st; shown := Some ErrorSection;
        errorDetails := ErrorText message; items := items st;
        waited := waited st |}).

(** [showSpecialPageError(url)]; an absent URL has no [startsWith]: the
    sections are hidden by then. *)
Definition showSpecialPageError (url : option string) : popup unit :=
  fun st =>
    match url with
    | Some url =>
        let (pageType, suggestion) :=
          if startsWith url "chrome://"
          then ("trang cài đặt Chrome",
                "Hãy mở YouTube, Facebook hoặc trang web khác")
          else if startsWith url "chrome-extension://"
          then ("trang extension", "Hãy mở một trang web để quét video")
          else if startsWith url "edge://"
          then ("trang cài đặt Edge",
                "Hãy mở YouTube, Facebook hoặc trang web khác")
          else if startsWith url "about:"
          then ("trang about", "Hãy mở một trang web bình thường")
          else if startsWith url "file://"
          then ("file cục bộ", "Hãy mở trang web online để quét video")
          else ("trang đặc biệt", "Hãy mở một trang web bình thường") in
        (Normal tt,
         {| videos_ := videos_ st; shown := Some ErrorSection;
            errorDetails := SpecialPage pageType suggestion;
            items := items st; waited := waited st |})
    | None =>
        (Throw "TypeError",
         {| videos_ := videos_ st; shown := None;
            errorDetails := errorDetails st; items := items st;
            waited := waited st |})
    end.

(** [videoList.appendChild(listItem)] *)
Definition appendChild (listItem : item) : popup unit :=
  fun st =>
    (Normal tt,
     {| videos_ := videos_ st; shown := shown st;
        errorDetails := errorDetails st; items := items st ++ [listItem];
        waited := waited st |}).

(** The [forEach] of [displayVideos], from the given index on. *)
Fixpoint appendItems (videos : list candidate) (index : nat) : popup unit :=
  match videos with
  | [] => ret tt
  | video :: rest =>
      listItem <- lift (createVideoItem video index) ;;
      appendChild listItem ;;;
      appendItems rest (S index)
  end.

(** [displayVideos()] *)
Definition displayVideos : popup unit :=
  fun st =>
    match videos_ st with
    | [] => showNoVideos st
    | _ :: _ =>
        appendItems (videos_ st) 0
          {| videos_ := videos_ st; shown := Some VideosList;
             errorDetails := errorDetails st; items := [];
             waited := waited st |}
    end.

(** [await new Promise(resolve => setTimeout(resolve, ms))] *)
Definition wait (ms : nat) : popup unit :=
  fun st =>
    (Normal tt,
     {| videos_ := videos_ st; shown := shown st;
        errorDetails := errorDetails st; items := items st;
        waited := waited st ++ [ms] |}).

(** The [for] loop of [sendMessageWithRetry] from the given attempt on;
    [rounds] is the number of attempts left. *)
Fixpoint retry (rounds attempt maxRetries : nat)
  : popup (option (option response)) :=
  match rounds with
  | O => ret None
  | S rounds' =>
      match sendMessage attempt with
      | Normal r => ret (Some r)
      | Throw _ =>
          if (attempt =? maxRetries)%nat then
            lift (Throw ("Không thể kết nối với trang web sau "
                         ++ decimal (N.of_nat maxRetries)
                         ++ " lần thử. Vui lòng refresh trang và thử lại."))
          else
            wait (300 * attempt) ;;;
            retry rounds' (S attempt) maxRetries
      end
  end.

(** [sendMessageWithRetry(tabId, message, maxRetries)]: the response, or
    [None] when the loop ends without an attempt. *)
Definition sendMessageWithRetry (maxRetries : nat)
  : popup (option (option response)) :=
  retry maxRetries 1 maxRetries.

(** [this.videos = videos] *)
Definition set_videos (videos : list candidate) : popup unit :=
  fun st =>
    (Normal tt,
     {| videos_ := videos; shown := shown st;
        errorDetails := errorDetails st; items := items st;
        waited := waited st |}).

(** [scanForVideos()]; the injection of the content script, whose failure
    is caught and logged, is left out. *)
Definition scanForVideos : popup unit :=
  showLoading ;;;
  try_catch
    (found <- lift tabs_query ;;
     match found with
     | None => lift (Throw "Không thể truy cập tab hiện tại")
     | Some tab =>
         if negb (isValidTabUrl (tab_url tab))
         then showSpecialPageError (tab_url tab)
         else
           wait 200 ;;;
           answer <- sendMessageWithRetry 3 ;;
           match answer with
           | Some (Some response) =>
               set_videos (videos response) ;;;
               displayVideos
           | _ => showNoVideos
           end
     end)
    (fun message => showError message).

(** The message that [downloadVideo(video, button)] sends to the
    background script, if it gets that far. *)
Definition downloadRequest (video : candidate)
  : completion Background.request :=
  let by_format :=
    match format video with
    | Some f => String.eqb f "HLS" || String.eqb f "DASH"
    | None => false
    end in
  and_then
    (if by_format then Normal true
     else match url video with
          | Some u => Normal (includes u ".m3u8" || includes u ".mpd")
          | None => Throw "TypeError"
          end)
    (fun isStreaming =>
       if isStreaming then
         Normal {| Background.action := "downloadStreaming";
                   Background.r_url := None; Background.r_filename := None;
                   Background.r_video := Some video |}
       else
         Normal {| Background.action := "downloadVideo";
                   Background.r_url := url video;
                   Background.r_filename :=
                     Some (if truthy (title video) then title video
                           else extractVideoTitle (url video));
                   Background.r_video := None |}).

End Host.

End Popup.

(** ** Vocabulary of the popup statements *)

(** A popup that has shown nothing yet. *)
Definition closed : Popup.state := Popup.State [] None Popup.NoDetails [] [].

(** The type of a candidate has a name in the table of the popup. *)
Definition known_type (c : candidate) : Prop :=
  is_Some (Popup.lookup_name Popup.platformNames (type c)).

(** The state of the popup after it has waited for the given delays. *)
Definition after_waiting (st : Popup.state) (delays : list nat) : Popup.state :=
  {| Popup.videos_ := Popup.videos_ st; Popup.shown := Popup.shown st;
     Popup.errorDetails := Popup.errorDetails st; Popup.items := Popup.items st;
     Popup.waited := Popup.waited st ++ delays |}.

(** The delays before the attempts from [attempt] up to [k], [k] left
    out. *)
Definition delays_between (attempt k : nat) : list nat :=
  map (fun j => 300 * j) (seq attempt (k - attempt)).

(** The candidate has a URL for the popup to show. *)
Definition has_url (c : candidate) : Prop := exists u, url c = Some u.

(** The page of the scenarios as the popup sees it: a tab with the URL of
    the clip page and a content script that answers at once. *)
Definition clip_tab : Popup.tab :=
  Popup.Tab 1 (Some "https://www.example.org/clip").

(** A content script that answers every attempt with the given list. *)
Definition answering (videos : list candidate)
  : nat -> completion (option response) :=
  fun _ => Normal (Some {| videos := videos; error := None |}).

(** A content script that answers the third attempt only. *)
Definition answering_late (videos : list candidate)
  : nat -> completion (option response) :=
  fun attempt =>
    if (attempt =? 3)%nat
    then Normal (Some {| videos := videos; error := None |})
    else Throw "Could not establish connection".

(** The six platform tags and the types that the platform strategies
    write with them. *)
Definition platformTags : list string :=
  ["tiktok"; "facebook"; "youtube"; "instagram"; "twitter"; "twitch"].

(** The type of the candidate is [streaming] or has a name of its own in
    the popup. *)
Definition named_type (c : candidate) : Prop :=
  type c = "streaming" \/ known_type c.

(* ================================================================== *)
(** * Part II. Properties *)
(* ================================================================== *)

(** ** Strings *)

Lemma chars_from_chars (l : list ascii) : chars (from_chars l) = l.
Proof. apply list_ascii_of_string_of_list_ascii. Qed.

Lemma chars_toLowerCase (s : string) :
  chars (toLowerCase s) = map lower_char (chars s).
Proof. apply chars_from_chars. Qed.

Lemma chars_length (s : string) : length (chars s) = String.length s.
Proof. induction s as [|c s IH]; simpl; [reflexivity | now rewrite <- IH]. Qed.

Lemma truthy_true (s : string) : truthy s = true <-> s <> "".
Proof.
  unfold truthy. destruct (String.eqb_spec s ""); simpl; split; congruence.
Qed.

Lemma truthy_false (s : string) : truthy s = false <-> s = "".
Proof.
  unfold truthy. destruct (String.eqb_spec s ""); simpl; split; congruence.
Qed.

Lemma prefixb_spec (p l : list ascii) :
  prefixb p l = true <-> exists post, l = p ++ post.
Proof.
  revert l. induction p as [|a p IH]; intros l; simpl.
  - split; [intros _; now exists l | reflexivity].
  - destruct l as [|b l].
    + split; [discriminate | intros [post H]; discriminate].
    + rewrite andb_true_iff, IH. split.
      * intros [Hab [post ->]]. apply Ascii.eqb_eq in Hab. subst. now exists post.
      * intros [post H]. injection H as -> ->. split.
        -- apply Ascii.eqb_refl.
        -- now exists post.
Qed.

Lemma infixb_spec (sub l : list ascii) :
  infixb sub l = true <-> exists pre post, l = pre ++ sub ++ post.
Proof.
  induction l as [|c l IH]; simpl; rewrite orb_true_iff, prefixb_spec.
  - split.
    + intros [[post H] | H]; [| discriminate]. now exists [], post.
    + intros (pre & post & H). left. destruct pre; [now exists post |].
      discriminate.
  - rewrite IH. split.
    + intros [[post H] | (pre & post & ->)].
      * now exists [], post.
      * now exists (c :: pre), post.
    + intros (pre & post & H). destruct pre as [|c' pre].
      * left. now exists post.
      * right. injection H as -> ->. now exists pre, post.
Qed.

Lemma includes_spec (s sub : string) : includes s sub = true <-> contains s sub.
Proof. apply infixb_spec. Qed.

Lemma includes_false (s sub : string) :
  includes s sub = false <-> ~ contains s sub.
Proof.
  rewrite <- includes_spec. destruct (includes s sub); split; congruence.
Qed.

Lemma chars_app (a b : string) : chars (a ++ b) = chars a ++ chars b.
Proof. induction a as [|c a IH]; simpl; [reflexivity | now rewrite <- IH]. Qed.

(** A text that contains [a ++ b] contains [b]. *)
Lemma contains_tail (s a b : string) :
  contains s (a ++ b) -> contains s b.
Proof.
  intros (pre & post & H). exists (pre ++ chars a), post.
  rewrite H, chars_app. now rewrite <- !app_assoc.
Qed.

Lemma is_digit_lower_char (c : ascii) : is_digit (lower_char c) = is_digit c.
Proof. destruct c as [[] [] [] [] [] [] [] []]; reflexivity. Qed.

(** ** Matches advance *)

(** The loop of a repetition hands on a text no longer than its input,
    when each round does. *)
Lemma star_loop_advances {R : Type} (greedy : bool)
    (step : list ascii -> capture ->
            (list ascii -> capture -> option R) -> option R)
    (k : list ascii -> capture -> option R) :
  (forall s cap k' x,
      step s cap k' = Some x ->
      exists s' cap', k' s' cap' = Some x /\ length s' <= length s) ->
  forall fuel s cap x,
    star_loop greedy step k fuel s cap = Some x ->
    exists s' cap', k s' cap' = Some x /\ length s' <= length s.
Proof.
  intros Hstep. induction fuel as [|fuel IH]; intros s cap x H;
    cbn [star_loop] in H.
  - exists s, cap. split; [assumption | lia].
  - assert (Hagain : forall y,
              step s cap (fun s' cap' =>
                if (length s' <? length s)%nat
                then star_loop greedy step k fuel s' cap' else None) = Some y ->
              exists s' cap', k s' cap' = Some y /\ length s' <= length s).
    { intros y Hy. apply Hstep in Hy as (s1 & cap1 & Hy & Hle1).
      destruct (Nat.ltb_spec (length s1) (length s)); [| discriminate].
      apply IH in Hy as (s2 & cap2 & Hy & Hle2).
      exists s2, cap2. split; [assumption | lia]. }
    cbv zeta in H. destruct greedy.
    + destruct (step s cap _) as [y|] eqn:E.
      * injection H as ->. now apply Hagain.
      * exists s, cap. split; [assumption | lia].
    + destruct (k s cap) as [y|] eqn:E.
      * injection H as ->. exists s, cap. split; [assumption | lia].
      * now apply Hagain.
Qed.

(** The continuation of a match is entered on a text no longer than the
    input, and on a shorter one when the pattern consumes. *)
Lemma rmatch_advances {R : Type} (r : regex) :
  forall (s : list ascii) (cap : capture)
         (k : list ascii -> capture -> option R) (x : R),
    rmatch r s cap k = Some x ->
    exists s' cap',
      k s' cap' = Some x /\ length s' <= length s /\
      (consumes r = true -> length s' < length s).
Proof.
  induction r as [| p | r1 IH1 r2 IH2 | r1 IH1 r2 IH2 | greedy r1 IH1
                  | r1 IH1 |]; intros s cap k x H; cbn [rmatch consumes] in *.
  - exists s, cap. split; [assumption |]. split; [lia | discriminate].
  - destruct s as [|c s]; [discriminate |]. destruct (p c); [| discriminate].
    exists s, cap. cbn. split; [assumption |]. split; lia.
  - apply IH1 in H as (s1 & cap1 & H & Hle1 & Hlt1).
    apply IH2 in H as (s2 & cap2 & H & Hle2 & Hlt2).
    exists s2, cap2. split; [assumption |]. split; [lia |].
    intros Hc. apply orb_true_iff in Hc as [Hc | Hc];
      [specialize (Hlt1 Hc) | specialize (Hlt2 Hc)]; lia.
  - destruct (rmatch r1 s cap k) as [y|] eqn:E1.
    + injection H as ->. apply IH1 in E1 as (s' & cap' & H & Hle & Hlt).
      exists s', cap'. split; [assumption |]. split; [lia |].
      intros Hc. apply andb_true_iff in Hc as [Hc _]. auto.
    + apply IH2 in H as (s' & cap' & H & Hle & Hlt).
      exists s', cap'. split; [assumption |]. split; [lia |].
      intros Hc. apply andb_true_iff in Hc as [_ Hc]. auto.
  - apply star_loop_advances in H as (s' & cap' & H & Hle).
    + exists s', cap'. split; [assumption |]. split; [lia | discriminate].
    + intros s0 cap0 k' y Hy. apply IH1 in Hy as (s' & cap' & Hy & Hle & _).
      eauto.
  - apply IH1 in H as (s' & cap' & H & Hle & Hlt). eauto.
  - destruct s; [| discriminate].
    exists [], cap. split; [assumption |]. split; [lia | discriminate].
Qed.

(** The matcher looks at its continuation through its answers only. *)
Lemma star_loop_ext {R : Type} (greedy : bool)
    (step : list ascii -> capture ->
            (list ascii -> capture -> option R) -> option R)
    (k k' : list ascii -> capture -> option R) :
  (forall s cap k1 k2,
      (forall s' cap', k1 s' cap' = k2 s' cap') ->
      step s cap k1 = step s cap k2) ->
  (forall s cap, k s cap = k' s cap) ->
  forall fuel s cap,
    star_loop greedy step k fuel s cap = star_loop greedy step k' fuel s cap.
Proof.
  intros Hstep Hk. induction fuel as [|fuel IH]; intros s cap; cbn [star_loop].
  - apply Hk.
  - cbv zeta. rewrite (Hk s cap).
    rewrite (Hstep s cap _
               (fun s' cap' =>
                  if (length s' <? length s)%nat
                  then star_loop greedy step k' fuel s' cap' else None)).
    + reflexivity.
    + intros s' cap'. destruct (length s' <? length s)%nat; [apply IH | reflexivity].
Qed.

Lemma rmatch_ext {R : Type} (r : regex) :
  forall (s : list ascii) (cap : capture)
         (k k' : list ascii -> capture -> option R),
    (forall s' cap', k s' cap' = k' s' cap') ->
    rmatch r s cap k = rmatch r s cap k'.
Proof.
  induction r as [| p | r1 IH1 r2 IH2 | r1 IH1 r2 IH2 | greedy r1 IH1
                  | r1 IH1 |]; intros s cap k k' Hk; cbn [rmatch].
  - apply Hk.
  - destruct s as [|c s]; [reflexivity |]. destruct (p c); [apply Hk | reflexivity].
  - apply IH1. intros s' cap'. now apply IH2.
  - rewrite (IH1 s cap k k' Hk), (IH2 s cap k k' Hk). reflexivity.
  - apply star_loop_ext; [| exact Hk]. intros s0 cap0 k1 k2 H. now apply IH1.
  - apply IH1. intros s' _. apply Hk.
  - destruct s; [apply Hk | reflexivity].
Qed.

(** A match needs its continuation to accept. *)
Lemma rmatch_none {R : Type} (r : regex) (s : list ascii) (cap : capture) :
  rmatch (R := R) r s cap (fun _ _ => None) = None.
Proof.
  destruct (rmatch r s cap (fun _ _ => None)) as [x|] eqn:E; [| reflexivity].
  apply rmatch_advances in E as (s' & cap' & E & _). discriminate.
Qed.

(** The fuel of a repetition is never used up: any fuel from the length of
    the text on gives the same answer. *)
Lemma star_loop_fuel {R : Type} (greedy : bool) (r : regex)
    (k : list ascii -> capture -> option R) :
  forall (n : nat) (s : list ascii) (cap : capture) (fuel1 fuel2 : nat),
    length s <= n -> length s <= fuel1 -> length s <= fuel2 ->
    star_loop greedy (rmatch r) k fuel1 s cap
    = star_loop greedy (rmatch r) k fuel2 s cap.
Proof.
  assert (Hstuck : forall fuel cap,
             star_loop greedy (rmatch r) k fuel [] cap = k [] cap).
  { intros [|fuel] cap; cbn [star_loop]; [reflexivity |]. cbv zeta.
    rewrite (rmatch_ext r [] cap _ (fun _ _ => None)).
    - rewrite rmatch_none. now destruct greedy, (k [] cap).
    - intros s' cap'. cbn. destruct (length s' <? 0)%nat eqn:E; [| reflexivity].
      apply Nat.ltb_lt in E. lia. }
  induction n as [|n IH]; intros s cap fuel1 fuel2 Hn H1 H2.
  - destruct s; [| cbn in Hn; lia]. now rewrite !Hstuck.
  - destruct s as [|c s]; [now rewrite !Hstuck |].
    destruct fuel1 as [|fuel1]; [cbn in H1; lia |].
    destruct fuel2 as [|fuel2]; [cbn in H2; lia |].
    cbn [star_loop]. cbv zeta.
    rewrite (rmatch_ext r (c :: s) cap _
               (fun s' cap' =>
                  if (length s' <? length (c :: s))%nat
                  then star_loop greedy (rmatch r) k fuel2 s' cap' else None)).
    + reflexivity.
    + intros s' cap'. destruct (Nat.ltb_spec (length s') (length (c :: s)));
        [| reflexivity].
      cbn in *. apply IH; lia.
Qed.

(** A repetition run with more fuel than the length of the text answers
    the same. *)
Lemma rmatch_star_fuel {R : Type} (greedy : bool) (r : regex)
    (s : list ascii) (cap : capture) (k : list ascii -> capture -> option R)
    (fuel : nat) :
  length s <= fuel ->
  rmatch (Star greedy r) s cap k = star_loop greedy (rmatch r) k fuel s cap.
Proof.
  intros Hfuel. cbn [rmatch].
  apply (star_loop_fuel greedy r k (length s)); lia.
Qed.

Lemma match_here_advances (r : regex) (s : list ascii) (m : rmatched) :
  consumes r = true -> match_here r s = Some m ->
  length (m_rest m) < length s.
Proof.
  intros Hc H. unfold match_here in H.
  apply rmatch_advances in H as (s' & cap' & [= <-] & _ & Hlt). cbn. auto.
Qed.

Lemma search_advances (r : regex) (s : list ascii) (m : rmatched) :
  consumes r = true -> search r s = Some m ->
  length (m_rest m) < length s.
Proof.
  intros Hc. induction s as [|c s IH]; cbn [search].
  - destruct (match_here r []) eqn:E; [| discriminate].
    intros [= <-]. now apply match_here_advances in E.
  - destruct (match_here r (c :: s)) eqn:E.
    + intros [= <-]. now apply match_here_advances in E.
    + intros H. apply IH in H. cbn. lia.
Qed.

(** For a pattern that consumes, the loop over the matches ends by itself:
    any fuel above the length of the text gives the same matches. *)
Lemma exec_all_fuel (r : regex) (fuel : nat) (s : list ascii) :
  consumes r = true -> length s < fuel ->
  exec_all fuel r s = exec_all (S (length s)) r s.
Proof.
  intros Hc. revert s.
  induction fuel as [fuel IH] using lt_wf_ind. intros s Hlen.
  destruct fuel as [|fuel]; [lia |]. cbn [exec_all].
  destruct (search r s) as [m|] eqn:E; [| reflexivity].
  pose proof (search_advances r s m Hc E) as Hm.
  f_equal. rewrite (IH fuel) by lia.
  destruct (Nat.eq_dec (length s) (S (length (m_rest m)))) as [->|Hne];
    [reflexivity |].
  symmetry. apply IH; lia.
Qed.

Lemma extractPatterns_consume :
  Forall (fun pattern => consumes pattern = true) extractPatterns.
Proof. repeat constructor. Qed.

(** The loop of [extractStreamingUrlsFromText] ends by itself on each of
    its patterns. *)
Lemma extract_loop_ends (pattern : regex) (text : string) (fuel : nat) :
  In pattern extractPatterns -> String.length text < fuel ->
  exec_all fuel pattern (chars text)
  = exec_all (S (String.length text)) pattern (chars text).
Proof.
  intros Hin Hlen. rewrite <- chars_length in *.
  apply exec_all_fuel; [| assumption].
  pose proof extractPatterns_consume as H.
  rewrite Forall_forall in H. apply H, list_elem_of_In, Hin.
Qed.

(** ** The matcher on the patterns of the classifier *)

Lemma rmatch_lit_i {R : Type} (w s : list ascii) (cap : capture)
    (k : list ascii -> capture -> option R) :
  rmatch (lit_i_chars w) s cap k =
  if prefixb (map lower_char w) (map lower_char s)
  then k (drop (length w) s) cap else None.
Proof.
  revert s. induction w as [|a w IH]; intros s.
  - reflexivity.
  - destruct s as [|c s]; [reflexivity |].
    cbn [lit_i_chars rmatch chr_i map prefixb length drop].
    rewrite (Ascii.eqb_sym (lower_char a)).
    destruct (Ascii.eqb (lower_char c) (lower_char a)); [apply IH | reflexivity].
Qed.

Lemma rmatch_star_total {R : Type} (greedy : bool) (r : regex)
    (s : list ascii) (cap : capture) (k : list ascii -> capture -> option R) :
  (forall s' cap', is_Some (k s' cap')) ->
  is_Some (rmatch (Star greedy r) s cap k).
Proof.
  intros Hk. cbn [rmatch]. generalize (length s) as fuel.
  intros [|fuel]; cbn [star_loop]; [apply Hk |].
  cbv zeta. destruct greedy.
  - destruct (rmatch r s cap _); [eauto | apply Hk].
  - destruct (Hk s cap) as [x Hx]. rewrite Hx. eauto.
Qed.

Lemma search_is_Some (r : regex) (s : list ascii) :
  is_Some (search r s) <->
  exists pre post, s = pre ++ post /\ is_Some (match_here r post).
Proof.
  induction s as [|c s IH]; cbn [search].
  - destruct (match_here r []) as [m|] eqn:E.
    + split; [intros _; exists [], []; rewrite E; eauto | eauto].
    + split; [intros [? ?]; discriminate |].
      intros (pre & post & H & Hm). symmetry in H.
      apply app_eq_nil in H as [-> ->]. rewrite E in Hm.
      destruct Hm; discriminate.
  - destruct (match_here r (c :: s)) as [m|] eqn:E.
    + split; [intros _; exists [], (c :: s); rewrite E; eauto | eauto].
    + rewrite IH. split.
      * intros (pre & post & -> & Hm). now exists (c :: pre), post.
      * intros (pre & post & H & Hm). destruct pre as [|c' pre].
        -- simpl in H. subst post. rewrite E in Hm. destruct Hm; discriminate.
        -- injection H as -> ->. now exists pre, post.
Qed.

Lemma test_true (r : regex) (s : string) :
  test r s = true <->
  exists pre post, chars s = pre ++ post /\ is_Some (match_here r post).
Proof.
  rewrite <- search_is_Some. unfold test.
  destruct (search r (chars s)); split; try discriminate; eauto.
  intros [? ?]; discriminate.
Qed.

(** Cutting a text where an occurrence in its lower-cased form starts. *)
Lemma lower_split (l w pre : list ascii) :
  map lower_char l = pre ++ w ->
  exists pre' post', l = pre' ++ post' /\ map lower_char pre' = pre /\
                     map lower_char post' = w.
Proof.
  intros H. exists (take (length pre) l), (drop (length pre) l).
  split; [now rewrite take_drop |].
  rewrite <- firstn_map, <- skipn_map, H.
  rewrite take_app_length, drop_app_length. auto.
Qed.

Lemma test_lit_i (w s : string) :
  test (lit_i w) s = true <-> contains (toLowerCase s) (toLowerCase w).
Proof.
  rewrite test_true. unfold contains, lit_i, match_here.
  rewrite !chars_toLowerCase. split.
  - intros (pre & post & H & Hm). rewrite rmatch_lit_i in Hm.
    destruct (prefixb _ _) eqn:E; [| destruct Hm; discriminate].
    apply prefixb_spec in E as [rest E].
    exists (map lower_char pre), rest. now rewrite H, map_app, E.
  - intros (pre & rest & H).
    apply lower_split in H as (pre' & post' & H & _ & E).
    exists pre', post'. split; [assumption |].
    rewrite rmatch_lit_i.
    replace (prefixb _ _) with true; [eauto |].
    symmetry. apply prefixb_spec. now exists rest.
Qed.

(** [/w$/i.test(s)] for a literal [w]. *)
Lemma test_lit_i_end (w s : string) :
  test (Seq (lit_i w) AtEnd) s = true <->
  ends_with (toLowerCase s) (toLowerCase w).
Proof.
  rewrite test_true. unfold ends_with, lit_i, match_here.
  rewrite !chars_toLowerCase. cbn [rmatch]. split.
  - intros (pre & post & H & Hm). rewrite rmatch_lit_i in Hm.
    destruct (prefixb _ _) eqn:E; [| destruct Hm; discriminate].
    apply prefixb_spec in E as [rest E].
    destruct (drop (length (chars w)) post) eqn:D; [| destruct Hm; discriminate].
    assert (rest = []) as ->.
    { apply (f_equal (drop (length (chars w)))) in E.
      rewrite skipn_map, D in E.
      rewrite drop_app_length' in E by now rewrite length_map.
      now symmetry. }
    exists (map lower_char pre). rewrite H, map_app, E. now rewrite app_nil_r.
  - intros (pre & H).
    apply lower_split in H as (pre' & post' & H & _ & E).
    exists pre', post'. split; [assumption |].
    rewrite rmatch_lit_i.
    replace (prefixb _ _) with true.
    + replace (drop (length (chars w)) post') with (@nil ascii); [eauto |].
      symmetry. apply length_zero_iff_nil. rewrite length_drop.
      apply (f_equal length) in E. rewrite !length_map in E. lia.
    + symmetry. apply prefixb_spec. exists []. now rewrite app_nil_r.
Qed.

(** [/w\d+/i.test(s)] for a literal [w]. *)
Lemma test_lit_i_digits (w s : string) :
  test (Seq (lit_i w) (plus (Chr is_digit))) s = true <->
  exists pre d post,
    chars (toLowerCase s) = pre ++ chars (toLowerCase w) ++ d :: post /\
    is_digit d = true.
Proof.
  rewrite test_true. unfold lit_i, match_here, plus.
  rewrite !chars_toLowerCase. cbn [rmatch]. split.
  - intros (pre & post & H & Hm). rewrite rmatch_lit_i in Hm.
    destruct (prefixb _ _) eqn:E; [| destruct Hm; discriminate].
    apply prefixb_spec in E as [rest E].
    destruct (drop (length (chars w)) post) as [|d tail] eqn:D;
      [destruct Hm; discriminate |].
    destruct (is_digit d) eqn:Hd; [| destruct Hm; discriminate].
    pose proof E as E'.
    apply (f_equal (drop (length (chars w)))) in E'.
    rewrite skipn_map, D in E'.
    rewrite drop_app_length' in E' by now rewrite length_map.
    exists (map lower_char pre), (lower_char d), (map lower_char tail).
    split; [| now rewrite is_digit_lower_char].
    rewrite H, map_app, E, <- E'. reflexivity.
  - intros (pre & d & tail & H & Hd).
    apply lower_split in H as (pre' & post' & H & _ & E).
    exists pre', post'. split; [assumption |].
    rewrite rmatch_lit_i.
    replace (prefixb _ _) with true
      by (symmetry; apply prefixb_spec; now exists (d :: tail)).
    apply (f_equal (drop (length (chars w)))) in E.
    rewrite skipn_map in E.
    rewrite drop_app_length' in E by now rewrite length_map.
    destruct (drop (length (chars w)) post') as [|d' tail']; [discriminate |].
    injection E as Ed _. subst d. rewrite is_digit_lower_char in Hd.
    rewrite Hd.
    match goal with |- is_Some ?t => change t with
      (rmatch (Star true (Chr is_digit)) tail' None
         (fun s' cap => Some (Matched (take (length post' - length s') post') cap s')))
    end.
    apply rmatch_star_total. eauto.
Qed.

(** The matcher at work on small texts: the greedy class gives back what
    the literal after it needs; the quoted pattern reports its group; the
    lazy repetition of the player pattern stops at the first closing brace
    that a semicolon follows; matches of one pattern come in text order. *)
Example extract_greedy_backtracks :
  extractStreamingUrlsFromText "see https://a.io/v/x.m3u8.m3u8?t=1 now"
  = ["https://a.io/v/x.m3u8.m3u8?t=1"].
Proof. vm_compute. reflexivity. Qed.

Example extract_quoted_group :
  extractStreamingUrlsFromText (q "src: `HTTP://a.io/mpd files/1`, 'x'")
  = ["HTTP://a.io/mpd files/1"].
Proof. vm_compute. reflexivity. Qed.

Example extract_in_pattern_order :
  extractStreamingUrlsFromText
    "http://b.io/dash/1 http://a.io/hls/2 http://c.io/3.mpd http://a.io/hls/2"
  = ["http://c.io/3.mpd"; "http://a.io/hls/2"; "http://b.io/dash/1"].
Proof. vm_compute. reflexivity. Qed.

Example player_pattern_is_lazy :
  option_map (fun m => option_map from_chars (m_group m))
    (search playerResponsePattern
       (chars "var ytInitialPlayerResponse = {a:{b:1}}; var x = {c:2};"))
  = Some (Some "{a:{b:1}}").
Proof. vm_compute. reflexivity. Qed.

Example player_pattern_needs_semicolon :
  search playerResponsePattern (chars "ytInitialPlayerResponse = {a:{b:1}}")
  = None.
Proof. vm_compute. reflexivity. Qed.

(** ** The URL classifier *)

Lemma existsb_streamingPatterns (url : string) :
  existsb (fun pattern => test pattern url) streamingPatterns = true <->
  contains (toLowerCase url) "/hls/" \/
  contains (toLowerCase url) "/dash/" \/
  contains (toLowerCase url) "/stream/" \/
  contains (toLowerCase url) "/manifest/" \/
  contains (toLowerCase url) "playlist.m3u8" \/
  contains (toLowerCase url) "master.m3u8" \/
  contains (toLowerCase url) "index.m3u8" \/
  ends_with (toLowerCase url) ".ts" \/
  has_segment_marker (toLowerCase url).
Proof.
  unfold streamingPatterns. cbn [existsb].
  rewrite !orb_true_iff, !test_lit_i, test_lit_i_end, test_lit_i_digits.
  unfold has_segment_marker.
  change (toLowerCase "/hls/") with "/hls/".
  change (toLowerCase "/dash/") with "/dash/".
  change (toLowerCase "/stream/") with "/stream/".
  change (toLowerCase "/manifest/") with "/manifest/".
  change (toLowerCase "playlist.m3u8") with "playlist.m3u8".
  change (toLowerCase "master.m3u8") with "master.m3u8".
  change (toLowerCase "index.m3u8") with "index.m3u8".
  change (toLowerCase ".ts") with ".ts".
  change (toLowerCase "segment-") with "segment-".
  intuition discriminate.
Qed.

(** The exact condition under which a text is classified as streaming. *)
Lemma isStreamingUrl_iff (url : string) :
  isStreamingUrl (JString url) = true <-> streaming_marker url.
Proof.
  unfold streaming_marker. rewrite <- existsb_streamingPatterns.
  rewrite <- !includes_spec. cbn [isStreamingUrl].
  destruct (truthy url) eqn:Ht; cbn [negb].
  - destruct (includes url ".m3u8") eqn:E1.
    { assert (includes url "m3u8" = true) as ->.
      { apply includes_spec. apply includes_spec in E1.
        now apply (contains_tail url "." "m3u8"). }
      cbn. intuition. }
    cbn [orb]. destruct (includes url "m3u8"); [intuition |].
    destruct (includes url ".mpd") eqn:E2.
    { assert (includes url "mpd" = true) as ->.
      { apply includes_spec. apply includes_spec in E2.
        now apply (contains_tail url "." "mpd"). }
      cbn. intuition. }
    cbn [orb]. destruct (includes url "mpd"); [intuition |].
    intuition discriminate.
  - apply truthy_false in Ht. subst url.
    split; [discriminate |]. vm_compute. intuition discriminate.
Qed.

(** C4, as amended.  [isStreamingUrl] answers true for every text that
    contains [.m3u8] or [.mpd]; it answers false for every text that
    contains neither [m3u8] nor [mpd], with or without the dot, and that
    none of the nine streaming patterns matches; it answers false, and
    answers at all, for every value that is not a text and for the empty
    text. *)
Theorem isStreamingUrl_classifies :
  (forall url : string,
      contains url ".m3u8" \/ contains url ".mpd" ->
      isStreamingUrl (JString url) = true) /\
  (forall url : string,
      ~ streaming_marker url -> isStreamingUrl (JString url) = false) /\
  (forall v : jsval,
      (forall s, v = JString s -> s = "") -> isStreamingUrl v = false).
Proof.
  split; [| split].
  - intros url H. apply isStreamingUrl_iff. unfold streaming_marker.
    destruct H as [H | H].
    + left. now apply (contains_tail url "." "m3u8").
    + right; left. now apply (contains_tail url "." "mpd").
  - intros url H. destruct (isStreamingUrl (JString url)) eqn:E; [| reflexivity].
    apply isStreamingUrl_iff in E. contradiction.
  - intros v H. destruct v; try reflexivity.
    rewrite (H s eq_refl). reflexivity.
Qed.

Lemma isStreamingUrl_classifies_witness :
  isStreamingUrl (JString "https://cdn.example.com/live/index.m3u8") = true /\
  isStreamingUrl (JString "https://cdn.example.com/clip.mp4") = false /\
  isStreamingUrl JUndefined = false.
Proof.
  destruct isStreamingUrl_classifies as (Hyes & Hno & Hother).
  split; [| split].
  - apply Hyes. left. apply includes_spec. reflexivity.
  - apply Hno. rewrite <- isStreamingUrl_iff. vm_compute. discriminate.
  - apply Hother. intros s H. discriminate.
Defined.

(** C4, as stated, fails: a text with neither [.m3u8] nor [.mpd], matched by
    none of the patterns ([/hls/], [/dash/], the segment patterns and the
    rest), is classified as streaming because [mpd] occurs in it. *)
Lemma isStreamingUrl_bare_marker_counterexample :
  let url := "https://example.com/lampdesign/photo.jpg" in
  ~ contains url ".m3u8" /\ ~ contains url ".mpd" /\
  Forall (fun pattern => test pattern url = false) streamingPatterns /\
  isStreamingUrl (JString url) = true.
Proof.
  cbv zeta. rewrite <- !includes_false.
  repeat split; try reflexivity.
  repeat constructor.
Qed.

Section Classifier.

Variable new_URL : string -> option URL.

(** A text that starts with [blob:] or [data:] is rejected whatever the
    parser makes of it. *)
Lemma isValidVideoUrl_startsWith (url : string) :
  startsWith url "blob:" = true \/ startsWith url "data:" = true ->
  isValidVideoUrl new_URL url = false.
Proof.
  intros H. unfold isValidVideoUrl.
  destruct (new_URL url) as [urlObj|]; [| reflexivity].
  destruct (negb _); [reflexivity |].
  destruct (startsWith url "blob:"); [reflexivity |].
  destruct (startsWith url "data:"); [reflexivity |].
  destruct H; discriminate.
Qed.

(** Acceptance needs a parsed URL whose protocol is [http:] or [https:]. *)
Lemma isValidVideoUrl_protocol (url : string) :
  isValidVideoUrl new_URL url = true ->
  exists urlObj, new_URL url = Some urlObj /\
    (protocol urlObj = "http:" \/ protocol urlObj = "https:").
Proof.
  unfold isValidVideoUrl. destruct (new_URL url) as [urlObj|]; [| discriminate].
  intros H. exists urlObj. split; [reflexivity |].
  cbn [existsb] in H.
  destruct (String.eqb_spec (protocol urlObj) "http:") as [E1|_]; [now left |].
  destruct (String.eqb_spec (protocol urlObj) "https:") as [E2|_]; [now right |].
  discriminate.
Qed.

(** C5.  A URL whose scheme is [blob:] or [data:], read off the text or
    off the parsed URL, is rejected by [isValidVideoUrl] whatever else the
    text contains; and [isValidVideoUrl] accepts only a text that parses
    to a URL with the [http:] or [https:] protocol. *)
Theorem isValidVideoUrl_scheme (url : string) :
  (startsWith url "blob:" = true \/ startsWith url "data:" = true \/
   (exists urlObj, new_URL url = Some urlObj /\
      (protocol urlObj = "blob:" \/ protocol urlObj = "data:")) ->
   isValidVideoUrl new_URL url = false) /\
  (isValidVideoUrl new_URL url = true ->
   exists urlObj, new_URL url = Some urlObj /\
     (protocol urlObj = "http:" \/ protocol urlObj = "https:")).
Proof.
  split; [| apply isValidVideoUrl_protocol].
  intros [H | [H | (urlObj & Hparse & Hproto)]].
  - apply isValidVideoUrl_startsWith. now left.
  - apply isValidVideoUrl_startsWith. now right.
  - destruct (isValidVideoUrl new_URL url) eqn:E; [| reflexivity].
    apply isValidVideoUrl_protocol in E as (urlObj' & Hparse' & Hproto').
    rewrite Hparse in Hparse'. injection Hparse' as <-.
    destruct Hproto as [H | H], Hproto' as [H' | H'];
      rewrite H in H'; discriminate.
Qed.

End Classifier.

Lemma isValidVideoUrl_scheme_witness :
  isValidVideoUrl reference_URL "blob:https://www.mp4upload.com/clip.mp4" = false /\
  isValidVideoUrl reference_URL "data:video/mp4;base64,AAAAIGZ0eXBpc29t" = false /\
  exists urlObj, reference_URL clip_url = Some urlObj /\
    (protocol urlObj = "http:" \/ protocol urlObj = "https:").
Proof.
  split; [| split].
  - apply (isValidVideoUrl_scheme reference_URL). left. reflexivity.
  - apply (isValidVideoUrl_scheme reference_URL). right; right.
    eexists. split; [reflexivity |]. right. reflexivity.
  - apply (isValidVideoUrl_scheme reference_URL clip_url). reflexivity.
Defined.

(** The first marker found decides, in the order of the list. *)
Lemma first_marker_first (pre post : list (string * string))
    (marker fmt urlLower : string) :
  Forall (fun mf => ~ contains urlLower (fst mf)) pre ->
  contains urlLower marker ->
  first_marker (pre ++ (marker, fmt) :: post) urlLower = Some fmt.
Proof.
  intros Hpre Hm. induction Hpre as [|[m f] pre Hmf _ IH]; cbn.
  - apply includes_spec in Hm. now rewrite Hm.
  - cbn in Hmf. apply includes_false in Hmf. now rewrite Hmf.
Qed.

Lemma first_marker_none (markers : list (string * string)) (urlLower : string) :
  Forall (fun mf => ~ contains urlLower (fst mf)) markers <->
  first_marker markers urlLower = None.
Proof.
  induction markers as [|[m f] markers IH]; cbn.
  - split; [reflexivity | constructor].
  - destruct (includes urlLower m) eqn:E.
    + split; [| discriminate]. intros H. inversion H as [|? ? Hm _]; subst.
      cbn in Hm. apply includes_spec in E. contradiction.
    + rewrite <- IH. split.
      * intros H. now inversion H.
      * intros H. constructor; [| assumption]. cbn. now apply includes_false.
Qed.

Lemma first_marker_format (markers : list (string * string))
    (urlLower fmt : string) :
  first_marker markers urlLower = Some fmt -> In fmt (map snd markers).
Proof.
  induction markers as [|[m f] markers IH]; cbn; [discriminate |].
  destruct (includes urlLower m).
  - intros [= ->]. now left.
  - intros H. right. now apply IH.
Qed.

(** [getVideoFormat] read as a scan of the table. *)
Lemma getVideoFormat_table (url : string) :
  getVideoFormat url =
  if negb (truthy url) then "Unknown"
  else match first_marker formatMarkers (toLowerCase url) with
       | Some fmt => fmt
       | None =>
           if startsWith (toLowerCase url) "blob:" then "Blob" else "Video"
       end.
Proof.
  unfold getVideoFormat. cbn [first_marker formatMarkers].
  destruct (negb (truthy url)); [reflexivity |]. cbv zeta.
  repeat match goal with
         | |- context [includes ?a ?b] => destruct (includes a b)
         end; reflexivity.
Qed.

(** C6, as amended.  [getVideoFormat] scans the ordered markers [.mp4],
    [.webm], [.ogg], [.avi], [.mov], [.wmv], [.flv], [.mkv], [.m3u8],
    [.mpd], [.ts] in the lower-cased URL and the first one found decides;
    a non-empty URL with none of them gives [Blob] when it starts with
    [blob:] in any letter case and [Video] otherwise; [Unknown] is the
    answer for the empty URL, and for no other. *)
Theorem getVideoFormat_first_match :
  (forall (url : string) pre marker fmt post,
      url <> "" ->
      formatMarkers = pre ++ (marker, fmt) :: post ->
      Forall (fun mf => ~ contains (toLowerCase url) (fst mf)) pre ->
      contains (toLowerCase url) marker ->
      getVideoFormat url = fmt) /\
  (forall url : string,
      url <> "" ->
      Forall (fun mf => ~ contains (toLowerCase url) (fst mf)) formatMarkers ->
      getVideoFormat url =
      if startsWith (toLowerCase url) "blob:" then "Blob" else "Video") /\
  (forall url : string, getVideoFormat url = "Unknown" <-> url = "").
Proof.
  split; [| split].
  - intros url pre marker fmt post Hne Hsplit Hpre Hm.
    rewrite getVideoFormat_table. apply truthy_true in Hne. rewrite Hne.
    cbn [negb]. rewrite Hsplit.
    now rewrite (first_marker_first pre post marker fmt).
  - intros url Hne Hnone. rewrite getVideoFormat_table.
    apply truthy_true in Hne. rewrite Hne. cbn [negb].
    apply first_marker_none in Hnone. now rewrite Hnone.
  - intros url. rewrite getVideoFormat_table.
    destruct (truthy url) eqn:Ht; cbn [negb].
    + apply truthy_true in Ht. split; [| contradiction].
      destruct (first_marker formatMarkers (toLowerCase url)) as [fmt|] eqn:E.
      * apply first_marker_format in E. intros ->. cbn in E.
        repeat (destruct E as [E | E]; [discriminate |]). contradiction.
      * destruct (startsWith _ _); discriminate.
    + apply truthy_false in Ht. tauto.
Qed.

Lemma getVideoFormat_first_match_witness :
  getVideoFormat "https://cdn.example.com/clip.WEBM?src=a.mp4.ts" = "MP4" /\
  getVideoFormat "https://www.example.org/watch?v=1" = "Video" /\
  getVideoFormat "Blob:https://www.example.org/5d1c0a9e" = "Blob" /\
  getVideoFormat "" = "Unknown".
Proof.
  destruct getVideoFormat_first_match as (Hfirst & Hnone & Hunknown).
  split; [| split; [| split]].
  - apply (Hfirst _ [] ".mp4" "MP4" (tl formatMarkers)).
    + discriminate.
    + reflexivity.
    + constructor.
    + apply includes_spec. reflexivity.
  - rewrite Hnone; [reflexivity | discriminate |].
    apply first_marker_none. reflexivity.
  - rewrite Hnone; [reflexivity | discriminate |].
    apply first_marker_none. reflexivity.
  - apply Hunknown. reflexivity.
Defined.

(** C6, as stated, fails twice: a URL with none of the markers gets [Video],
    not [Unknown]; and a blob URL whose origin contains a marker gets the
    format of that marker, not [Blob]. *)
Lemma getVideoFormat_counterexample :
  (first_marker formatMarkers (toLowerCase "https://www.example.org/watch?v=1")
   = None /\
   startsWith "https://www.example.org/watch?v=1" "blob:" = false /\
   getVideoFormat "https://www.example.org/watch?v=1" <> "Unknown") /\
  (startsWith "blob:https://www.mp4upload.com/5d1c0a9e" "blob:" = true /\
   getVideoFormat "blob:https://www.mp4upload.com/5d1c0a9e" <> "Blob").
Proof. repeat split; discriminate. Qed.

(** ** The network observer *)

(** The observed set only grows, and only by texts that [isStreamingUrl]
    accepts. *)
Lemma streamingUrls_add_spec (url : string) (urls : list string) (u : string) :
  u ∈ streamingUrls_add url urls <-> u ∈ urls \/ u = url.
Proof.
  unfold streamingUrls_add. case_bool_decide as Hin.
  - split; [now left |]. intros [H | ->]; assumption.
  - rewrite elem_of_app, list_elem_of_singleton. reflexivity.
Qed.

Lemma observe_fetch_spec (v : jsval) (urls : list string) (u : string) :
  u ∈ observe_fetch v urls <->
  u ∈ urls \/
  ((v = JString u \/ v = JRequest u) /\ isStreamingUrl (JString u) = true).
Proof.
  destruct v as [| | b | n | s | s |]; cbn [observe_fetch];
    try (split; [now left | intros [H | [[H | H] _]];
                            [assumption | discriminate ..]]).
  - destruct (isStreamingUrl (JString s)) eqn:E.
    + rewrite streamingUrls_add_spec. split.
      * intros [H | ->]; [now left | right; auto].
      * intros [H | [[[= ->] | [=]] _]]; auto.
    + split; [now left |].
      intros [H | [[[= ->] | [=]] Hs]]; [assumption | congruence].
  - destruct (isStreamingUrl (JString s)) eqn:E.
    + rewrite streamingUrls_add_spec. split.
      * intros [H | ->]; [now left | right; auto].
      * intros [H | [[[=] | [= ->]] _]]; auto.
    + split; [now left |].
      intros [H | [[[=] | [= ->]] Hs]]; [assumption | congruence].
Qed.

Lemma observe_open_spec (v : jsval) (urls : list string) (u : string) :
  u ∈ observe_open v urls <->
  u ∈ urls \/ (v = JString u /\ isStreamingUrl v = true).
Proof.
  destruct v as [| | b | n | s | s |]; cbn [observe_open];
    try (split; [now left | intros [H | [H _]]; [assumption | discriminate]]).
  destruct (isStreamingUrl (JString s)) eqn:E.
  - rewrite streamingUrls_add_spec. split.
    + intros [H | ->]; [now left | right; auto].
    + intros [H | [[= ->] _]]; auto.
  - split; [now left |].
    intros [H | [[= ->] Hs]]; [assumption | congruence].
Qed.

(** ** Duplicate removal *)

Section FilterUnseen.

Variable key : candidate -> option string.

(** Survivors come from the input, in order. *)
Lemma filter_unseen_sublist (seen : gset (option string))
    (videos : list candidate) :
  sublist (filter_unseen key seen videos) videos.
Proof.
  revert seen. induction videos as [|v videos IH]; intros seen; cbn.
  - constructor.
  - case_bool_decide.
    + apply sublist_cons, IH.
    + apply sublist_skip, IH.
Qed.

(** No survivor has a key that was seen before. *)
Lemma filter_unseen_fresh (seen : gset (option string))
    (videos : list candidate) (c : candidate) :
  c ∈ filter_unseen key seen videos -> key c ∉ seen.
Proof.
  revert seen. induction videos as [|v videos IH]; intros seen; cbn.
  - intros H. inversion H.
  - case_bool_decide as Hv.
    + apply IH.
    + intros H. apply elem_of_cons in H as [-> | H]; [assumption |].
      apply IH in H. intros Hc. apply H, elem_of_union. now right.
Qed.

(** The keys of the survivors are pairwise different. *)
Lemma filter_unseen_NoDup (seen : gset (option string))
    (videos : list candidate) :
  NoDup (map key (filter_unseen key seen videos)).
Proof.
  revert seen. induction videos as [|v videos IH]; intros seen; cbn.
  - constructor.
  - case_bool_decide as Hv; [apply IH |].
    cbn. constructor; [| apply IH].
    intros Hin. apply list_elem_of_In, in_map_iff in Hin as (c & Hk & Hc).
    apply list_elem_of_In, filter_unseen_fresh in Hc.
    apply Hc, elem_of_union. left. now apply elem_of_singleton.
Qed.

(** A list of fresh, pairwise different keys passes unchanged. *)
Lemma filter_unseen_fixed (seen : gset (option string))
    (videos : list candidate) :
  NoDup (map key videos) ->
  (forall c, c ∈ videos -> key c ∉ seen) ->
  filter_unseen key seen videos = videos.
Proof.
  revert seen. induction videos as [|v videos IH]; intros seen Hnd Hfresh; cbn.
  - reflexivity.
  - cbn in Hnd. apply NoDup_cons in Hnd as [Hv Hnd].
    case_bool_decide as Hseen.
    + exfalso. apply (Hfresh v); [left | assumption].
    + f_equal. apply IH; [assumption |].
      intros c Hc. pose proof (Hfresh c (list_elem_of_further _ _ _ Hc)).
      assert (key c <> key v).
      { intros E. apply Hv. rewrite <- E.
        apply list_elem_of_In, in_map, list_elem_of_In, Hc. }
      intros [Hin | Hin]%elem_of_union; [| contradiction].
      now apply elem_of_singleton in Hin.
Qed.

Lemma filter_unseen_idempotent (seen : gset (option string))
    (videos : list candidate) :
  filter_unseen key seen (filter_unseen key seen videos)
  = filter_unseen key seen videos.
Proof.
  apply filter_unseen_fixed.
  - apply filter_unseen_NoDup.
  - intros c. apply filter_unseen_fresh.
Qed.

(** Survivors with a given key: none if the key was seen, else the first
    input of that key alone. *)
Lemma filter_unseen_per_key (seen : gset (option string))
    (videos : list candidate) (k : option string) :
  filter (fun c => key c = k) (filter_unseen key seen videos)
  = if decide (k ∈ seen) then []
    else option_list (head (filter (fun c => key c = k) videos)).
Proof.
  revert seen. induction videos as [|v videos IH]; intros seen;
    cbn [filter_unseen].
  - rewrite filter_nil. now destruct (decide _).
  - case_bool_decide as Hv.
    + rewrite IH. destruct (decide (k ∈ seen)) as [Hk|Hk]; [reflexivity |].
      rewrite filter_cons. destruct (decide (key v = k)) as [E|E];
        [subst k; contradiction | reflexivity].
    + rewrite !filter_cons, IH.
      destruct (decide (key v = k)) as [E|E].
      * subst k. destruct (decide (key v ∈ seen)); [contradiction |].
        destruct (decide (key v ∈ {[key v]} ∪ seen)) as [_|Hn]; [reflexivity |].
        exfalso. apply Hn, elem_of_union. left. now apply elem_of_singleton.
      * destruct (decide (k ∈ seen)) as [Hk|Hk];
          destruct (decide (k ∈ {[key v]} ∪ seen)) as [Hu|Hu];
          try reflexivity; exfalso.
        -- apply Hu, elem_of_union. now right.
        -- apply elem_of_union in Hu as [Hu|Hu]; [| contradiction].
           apply elem_of_singleton in Hu. congruence.
Qed.

End FilterUnseen.

(** What the method in effect does: per distinct [src] value (the absent
    one included) the first candidate survives, alone. *)
Lemma removeDuplicates_per_src (videos : list candidate) (k : option string) :
  filter (fun c => src c = k) (removeDuplicates videos)
  = option_list (head (filter (fun c => src c = k) videos)).
Proof. unfold removeDuplicates. now rewrite filter_unseen_per_key. Qed.

(** What the shadowed method does: the same per distinct value of
    [url || src]. *)
Lemma removeDuplicates_first_per_locator (videos : list candidate)
    (k : option string) :
  filter (fun c => or_else (url c) (src c) = k) (removeDuplicates_first videos)
  = option_list (head (filter (fun c => or_else (url c) (src c) = k) videos)).
Proof. unfold removeDuplicates_first. now rewrite filter_unseen_per_key. Qed.

(** C8.  Duplicate removal is idempotent: run on its own output it returns
    that output. *)
Theorem removeDuplicates_idempotent (videos : list candidate) :
  removeDuplicates (removeDuplicates videos) = removeDuplicates videos.
Proof. apply filter_unseen_idempotent. Qed.

Lemma removeDuplicates_first_idempotent (videos : list candidate) :
  removeDuplicates_first (removeDuplicates_first videos)
  = removeDuplicates_first videos.
Proof. apply filter_unseen_idempotent. Qed.

(** C1 at its failing input.  Two candidates with different URLs, as any
    strategy but the generic harvest makes them: the method in effect keeps
    the first and drops the second, whose URL then has no survivor; the
    shadowed method keeps both. *)
Theorem removeDuplicates_drops_distinct_url :
  url stream_one <> url stream_two /\
  removeDuplicates [stream_one; stream_two] = [stream_one] /\
  removeDuplicates_first [stream_one; stream_two] = [stream_one; stream_two].
Proof.
  split; [discriminate |]. split; vm_compute; reflexivity.
Qed.

(** The same through a scan: of two streaming URLs observed on a page, the
    second is missing from the result. *)
Example scan_two_observed_urls :
  scan reference_URL no_JSON plain_resolver empty_page
    ["https://a.example.com/live/one.m3u8"; "https://b.example.com/live/two.mpd"]
    []
  = Normal [stream_one].
Proof. vm_compute. reflexivity. Qed.

(** ** What the strategies append *)

Section Appends.

Context {A : Type} (P : candidate -> Prop).

Lemma appends_ret (a : A) : appends P (ret a).
Proof. intros videos. exists []. now rewrite app_nil_r. Qed.

Lemma appends_lift (c : completion A) : appends P (lift c).
Proof. intros videos. exists []. now rewrite app_nil_r. Qed.

Lemma appends_bind {B : Type} (m : ST (list candidate) B)
    (f : B -> ST (list candidate) A) :
  appends P m -> (forall b, appends P (f b)) -> appends P (bind m f).
Proof.
  intros Hm Hf videos. destruct (Hm videos) as (new & E & Hnew).
  unfold bind. destruct (m videos) as [[b|e] videos']; cbn in E; subst videos'.
  - destruct (Hf b (videos ++ new)) as (new' & E' & Hnew').
    exists (new ++ new'). rewrite E', app_assoc. split; [reflexivity |].
    now apply Forall_app.
  - now exists new.
Qed.

Lemma appends_try_catch (m : ST (list candidate) A)
    (h : string -> ST (list candidate) A) :
  appends P m -> (forall e, appends P (h e)) -> appends P (try_catch m h).
Proof.
  intros Hm Hh videos. destruct (Hm videos) as (new & E & Hnew).
  unfold try_catch. destruct (m videos) as [[a|e] videos']; cbn in E; subst videos'.
  - now exists new.
  - destruct (Hh e (videos ++ new)) as (new' & E' & Hnew').
    exists (new ++ new'). rewrite E', app_assoc. split; [reflexivity |].
    now apply Forall_app.
Qed.

Lemma appends_weaken (Q : candidate -> Prop) (m : ST (list candidate) A) :
  (forall c, P c -> Q c) -> appends P m -> appends Q m.
Proof.
  intros HPQ Hm videos. destruct (Hm videos) as (new & E & Hnew).
  exists new. split; [assumption |]. eapply Forall_impl; eauto.
Qed.

End Appends.

Lemma appends_push (P : candidate -> Prop) (c : candidate) :
  P c -> appends P (push c).
Proof. intros Hc videos. exists [c]. split; [reflexivity |]. now constructor. Qed.

Lemma appends_forEach {B : Type} (P : candidate -> Prop) (l : list B)
    (f : B -> ST (list candidate) unit) :
  (forall b, appends P (f b)) -> appends P (forEach l f).
Proof.
  intros Hf. induction l as [|b l IH]; cbn [forEach].
  - apply appends_ret.
  - apply appends_bind; [apply Hf | intros _; apply IH].
Qed.

(** What a strategy appends is what [emitted] reads off the final state. *)
Lemma appends_emitted (P : candidate -> Prop) (m : ST (list candidate) unit)
    (videos : list candidate) :
  appends P m ->
  snd (m videos) = videos ++ emitted m videos /\ Forall P (emitted m videos).
Proof.
  intros Hm. destruct (Hm videos) as (new & E & Hnew). unfold emitted.
  rewrite E, drop_app_length. auto.
Qed.

(** Breaks a strategy down to its pushes. *)
Ltac appends_steps :=
  repeat first
    [ apply appends_ret
    | apply appends_lift
    | apply appends_forEach; intros ?
    | apply appends_bind; [| intros ?]
    | apply appends_try_catch; [| intros ?]
    | match goal with
      | |- appends _ (match ?x with _ => _ end) => destruct x
      | |- appends _ (if ?b then _ else _) => destruct b
      end ].

(** Closes the side condition of a push: the shape of the literal. *)
Ltac literal_shape :=
  unfold harvested, located, src_only, url_only, explains_itself; cbn;
  repeat split; eauto; try discriminate;
  try (intros _; eexists; (split; [reflexivity | discriminate])).

Section Strategies.

Variable new_URL : string -> option URL.
Variable JSON_parse : string -> option playerData.
Variable resolver : title_resolver.
Variable doc : document.

Lemma findDirectVideoElements_appends :
  appends harvested (findDirectVideoElements new_URL resolver doc).
Proof.
  unfold findDirectVideoElements. appends_steps.
  apply appends_push. literal_shape.
Qed.

Lemma findSourceElements_appends :
  appends harvested (findSourceElements new_URL resolver doc).
Proof.
  unfold findSourceElements. appends_steps.
  apply appends_push. literal_shape.
Qed.

Lemma findBlobVideos_appends (platform : string) :
  appends located (findBlobVideos resolver doc platform).
Proof.
  unfold findBlobVideos. appends_steps.
  apply appends_push. literal_shape.
Qed.

Lemma findPlatformVideos_appends (selectors : list string)
    (titleOf : option element -> completion string) (tag : string) :
  appends located (findPlatformVideos new_URL resolver doc selectors titleOf tag).
Proof.
  unfold findPlatformVideos.
  apply appends_bind; [| intros _; apply findBlobVideos_appends].
  appends_steps. apply appends_push. literal_shape.
Qed.

Lemma findPlatformSpecificVideos_appends (platform : string) :
  appends located (findPlatformSpecificVideos new_URL resolver doc platform).
Proof.
  unfold findPlatformSpecificVideos.
  repeat match goal with
         | |- appends _ (if ?b then _ else _) => destruct b
         end;
    try apply findPlatformVideos_appends.
  apply appends_ret.
Qed.

Lemma streaming_push_appends (tag : string) (titleOf : completion string)
    (default : string -> string) (u : string) :
  appends located (streaming_push tag titleOf default u).
Proof.
  unfold streaming_push. appends_steps.
  apply appends_push. literal_shape.
Qed.

Lemma extractYouTubeStreamingData_appends (sd : streamingData) :
  appends located (extractYouTubeStreamingData doc sd).
Proof.
  unfold extractYouTubeStreamingData. appends_steps;
    apply appends_push; literal_shape.
Qed.

Lemma findYouTubeStreamingUrls_appends :
  appends located (findYouTubeStreamingUrls JSON_parse doc).
Proof.
  unfold findYouTubeStreamingUrls.
  apply appends_bind; [apply appends_lift | intros scripts].
  apply appends_forEach. intros script.
  destruct (_ && _); [| apply appends_ret].
  apply appends_try_catch; [| intros _; apply appends_ret].
  repeat match goal with
         | |- appends _ (match ?x with _ => _ end) => destruct x
         end;
    first [ apply extractYouTubeStreamingData_appends
          | apply appends_ret | apply appends_lift ].
Qed.

Lemma findFacebookStreamingUrls_appends :
  appends located (findFacebookStreamingUrls resolver doc).
Proof.
  unfold findFacebookStreamingUrls.
  apply appends_bind; [apply appends_lift | intros scripts].
  apply appends_forEach. intros script.
  destruct (_ && _); [| apply appends_ret].
  apply appends_forEach. intros u. apply streaming_push_appends.
Qed.

Lemma findTikTokStreamingUrls_appends :
  appends located (findTikTokStreamingUrls resolver doc).
Proof.
  unfold findTikTokStreamingUrls.
  apply appends_bind; [apply appends_lift | intros scripts].
  apply appends_forEach. intros script.
  destruct (_ && _); [| apply appends_ret].
  apply appends_forEach. intros u. apply streaming_push_appends.
Qed.

Lemma scanPageForStreamingUrls_appends (platform : string) :
  appends located (scanPageForStreamingUrls JSON_parse resolver doc platform).
Proof.
  unfold scanPageForStreamingUrls.
  apply appends_bind; [apply appends_lift | intros scripts].
  apply appends_bind.
  - apply appends_forEach. intros script.
    destruct (truthy _); [| apply appends_ret].
    apply appends_forEach. intros u. apply streaming_push_appends.
  - intros _.
    repeat match goal with
           | |- appends _ (if ?b then _ else _) => destruct b
           end;
      first [ apply findYouTubeStreamingUrls_appends
            | apply findFacebookStreamingUrls_appends
            | apply findTikTokStreamingUrls_appends
            | apply appends_ret ].
Qed.

Lemma findStreamingVideos_appends (streamingUrls : list string)
    (platform : string) :
  appends located
    (findStreamingVideos JSON_parse resolver doc streamingUrls platform).
Proof.
  unfold findStreamingVideos.
  apply appends_bind; [| intros _; apply scanPageForStreamingUrls_appends].
  apply appends_forEach. intros u. apply streaming_push_appends.
Qed.

End Strategies.

(** ** The scan *)

Lemma Forall_removeDuplicates (P : candidate -> Prop) (videos : list candidate) :
  Forall P videos -> Forall P (removeDuplicates videos).
Proof.
  rewrite !Forall_forall. intros H c Hc. apply H.
  eapply elem_of_sublist; [exact Hc | apply filter_unseen_sublist].
Qed.

Lemma Forall_filter_isValidVideo (P : candidate -> Prop)
    (videos : list candidate) :
  Forall P videos -> Forall P (List.filter isValidVideo videos).
Proof.
  rewrite !Forall_forall. intros H c Hc. apply H.
  apply list_elem_of_In. apply list_elem_of_In, filter_In in Hc. tauto.
Qed.

Section Scan.

Variable new_URL : string -> option URL.
Variable JSON_parse : string -> option playerData.
Variable resolver : title_resolver.
Variable doc : document.
Variable streamingUrls : list string.

Local Abbreviation collect :=
  (strategies new_URL JSON_parse resolver doc streamingUrls).
Local Abbreviation findVideos_try' :=
  (findVideos_try new_URL JSON_parse resolver doc streamingUrls).
Local Abbreviation scan' :=
  (scan new_URL JSON_parse resolver doc streamingUrls).

Lemma strategies_appends :
  appends (fun c => harvested c \/ located c) collect.
Proof.
  unfold strategies.
  apply appends_bind; [| intros _].
  { eapply appends_weaken; [| apply findDirectVideoElements_appends]. auto. }
  apply appends_bind; [| intros _].
  { eapply appends_weaken; [| apply findSourceElements_appends]. auto. }
  apply appends_bind; [| intros _].
  { eapply appends_weaken; [| apply findPlatformSpecificVideos_appends]. auto. }
  eapply appends_weaken; [| apply findStreamingVideos_appends]. auto.
Qed.

(** The [try] block either throws, out of one of the strategies, or
    returns what the strategies collected from the empty list, duplicates
    removed and filtered. *)
Lemma findVideos_try_outcome (videos0 : list candidate) :
  findVideos_try' videos0
  = match collect [] with
    | (Normal _, collected) =>
        (Normal (List.filter isValidVideo (removeDuplicates collected)),
         List.filter isValidVideo (removeDuplicates collected))
    | (Throw e, collected) => (Throw e, collected)
    end.
Proof.
  unfold findVideos_try, strategies, bind, put, get.
  destruct (findDirectVideoElements _ _ _ _) as [[[]|e] v1]; [| reflexivity].
  destruct (findSourceElements _ _ _ _) as [[[]|e] v2]; [| reflexivity].
  destruct (findPlatformSpecificVideos _ _ _ _ _) as [[[]|e] v3]; [| reflexivity].
  destruct (findStreamingVideos _ _ _ _ _ _) as [[[]|e] v4]; reflexivity.
Qed.

Lemma collected_shape :
  Forall (fun c => harvested c \/ located c) (snd (collect [])).
Proof.
  destruct (strategies_appends []) as (new & E & H). now rewrite E.
Qed.

(** [findVideos] always returns a list, the empty one when the [try]
    block throws. *)
Lemma scan_outcome (videos0 : list candidate) :
  scan' videos0
  = match collect [] with
    | (Normal _, collected) =>
        Normal (List.filter isValidVideo (removeDuplicates collected))
    | (Throw _, _) => Normal []
    end.
Proof.
  unfold scan, findVideos, try_catch. rewrite findVideos_try_outcome.
  now destruct (collect []) as [[[]|e] collected].
Qed.

(** C7.  In the list a scan returns, and in what each strategy appends,
    a candidate with [downloadable: false] carries a non-empty reason. *)
Theorem not_downloadable_carries_reason (videos0 : list candidate)
    (platform : string) :
  (exists result, scan' videos0 = Normal result /\
                  Forall explains_itself result) /\
  Forall explains_itself
    (emitted (findDirectVideoElements new_URL resolver doc) videos0) /\
  Forall explains_itself
    (emitted (findSourceElements new_URL resolver doc) videos0) /\
  Forall explains_itself
    (emitted (findPlatformSpecificVideos new_URL resolver doc platform)
       videos0) /\
  Forall explains_itself
    (emitted (findStreamingVideos JSON_parse resolver doc streamingUrls
                platform) videos0).
Proof.
  split.
  - assert (H : Forall explains_itself (snd (collect []))).
    { eapply Forall_impl; [apply collected_shape |].
      intros c [[_ Hc] | [_ Hc]]; exact Hc. }
    rewrite scan_outcome. destruct (collect []) as [[[]|e] collected].
    + eexists. split; [reflexivity |].
      now apply Forall_filter_isValidVideo, Forall_removeDuplicates.
    + exists []. split; [reflexivity | constructor].
  - repeat split;
      (eapply Forall_impl;
       [ eapply appends_emitted;
         first [ apply findDirectVideoElements_appends
               | apply findSourceElements_appends
               | apply findPlatformSpecificVideos_appends
               | apply findStreamingVideos_appends ]
       | intros c [_ Hc]; exact Hc ]).
Qed.

(** C10.  What the generic harvest appends (the direct-element pass and
    the nested-source pass) has its locator in [src] and neither [url] nor
    [format]; what the platform-specific, streaming and blob strategies
    append has its locator in [url] and no [src]. *)
Theorem locator_field_by_strategy (videos0 : list candidate)
    (platform : string) :
  Forall src_only
    (emitted (findDirectVideoElements new_URL resolver doc) videos0) /\
  Forall src_only
    (emitted (findSourceElements new_URL resolver doc) videos0) /\
  Forall url_only
    (emitted (findPlatformSpecificVideos new_URL resolver doc platform)
       videos0) /\
  Forall url_only
    (emitted (findStreamingVideos JSON_parse resolver doc streamingUrls
                platform) videos0) /\
  Forall url_only (emitted (findBlobVideos resolver doc platform) videos0).
Proof.
  repeat split;
    (eapply Forall_impl;
     [ eapply appends_emitted;
       first [ apply findDirectVideoElements_appends
             | apply findSourceElements_appends
             | apply findPlatformSpecificVideos_appends
             | apply findStreamingVideos_appends
             | apply findBlobVideos_appends ]
     | intros c [Hc _]; exact Hc ]).
Qed.

(** C9.  A scan always returns a list; when anything throws inside the
    [try] block the list is empty, whatever was collected before; and the
    listener sends one response, with that list, per [findVideos]
    request. *)
Theorem scan_failure_is_empty_result (videos0 : list candidate) :
  (exists result, scan' videos0 = Normal result) /\
  (forall e partial,
      findVideos_try' videos0 = (Throw e, partial) ->
      scan' videos0 = Normal []) /\
  (forall (request : request) (sent : list response),
      action request = "findVideos" ->
      exists result,
        scan' videos0 = Normal result /\
        onMessage new_URL JSON_parse resolver doc streamingUrls videos0
          request sent
        = (Normal true, sent ++ [ {| videos := result; error := None |} ])).
Proof.
  assert (Hret : exists result, scan' videos0 = Normal result).
  { rewrite scan_outcome. destruct (collect []) as [[[]|e] collected]; eauto. }
  split; [exact Hret |]. split.
  - intros e partial H. unfold scan, findVideos, try_catch. now rewrite H.
  - intros request sent Hreq. destruct Hret as [result Hres].
    exists result. split; [exact Hres |].
    unfold onMessage. rewrite Hreq. cbn [String.eqb Ascii.eqb].
    unfold bind, promise_then, promise_catch, sendResponse, ret.
    now rewrite Hres.
Qed.

End Scan.

(** On the page whose script query throws, the candidate collected before
    the exception is not returned. *)
Lemma scan_failure_is_empty_result_witness :
  findVideos_try reference_URL no_JSON plain_resolver broken_page [] []
  = (Throw "InvalidStateError",
     [generic_candidate clip_url "direct" "clip" (video_element clip_url)
        None None]) /\
  scan reference_URL no_JSON plain_resolver broken_page [] [] = Normal [] /\
  exists result,
    onMessage reference_URL no_JSON plain_resolver broken_page [] []
      (Request "findVideos") []
    = (Normal true, [ {| videos := result; error := None |} ]).
Proof.
  destruct (scan_failure_is_empty_result reference_URL no_JSON plain_resolver
              broken_page [] []) as (_ & Hthrow & Hmsg).
  assert (Hpartial :
            findVideos_try reference_URL no_JSON plain_resolver broken_page [] []
            = (Throw "InvalidStateError",
               [generic_candidate clip_url "direct" "clip"
                  (video_element clip_url) None None]))
    by (vm_compute; reflexivity).
  split; [exact Hpartial |]. split.
  - exact (Hthrow _ _ Hpartial).
  - destruct (Hmsg (Request "findVideos") [] eq_refl) as (result & _ & H).
    exists result. exact H.
Defined.

(** ** The scenarios *)

Lemma extract_player_script :
  extractStreamingUrlsFromText player_script_text = [manifest_url].
Proof. vm_compute. reflexivity. Qed.

(** The text of the scenario does not end its object literal with a
    semicolon, which the pattern of the YouTube extractor asks for. *)
Lemma player_script_no_match :
  search playerResponsePattern (chars player_script_text) = None.
Proof. vm_compute. reflexivity. Qed.

Lemma isValidVideo_floor (c : candidate) :
  is_true_opt (isStreaming c) = false ->
  (isValidVideo c = true <->
   exists locator, or_else (url c) (src c) = Some locator /\
                   20 <= String.length locator).
Proof.
  intros Hs. unfold isValidVideo. rewrite Hs.
  destruct (or_else (url c) (src c)) as [videoUrl|].
  - destruct (negb (truthy videoUrl) || (String.length videoUrl <? 10)%nat) eqn:E.
    + split; [discriminate |]. intros (u & [= <-] & Hlen).
      apply orb_true_iff in E as [E | E].
      * apply negb_true_iff, truthy_false in E. subst videoUrl. cbn in Hlen. lia.
      * apply Nat.ltb_lt in E. lia.
    + destruct (Nat.ltb_spec (String.length videoUrl) 20).
      * split; [discriminate |]. intros (u & [= <-] & Hlen). lia.
      * split; [| reflexivity]. intros _. exists videoUrl. split; [reflexivity | lia].
  - split; [discriminate |]. intros (u & [=] & _).
Qed.

Section Scenarios.

Variable new_URL : string -> option URL.
Variable JSON_parse : string -> option playerData.
Variable resolver : title_resolver.

#[local] Arguments isValidVideoUrl : simpl never.
#[local] Arguments extractStreamingUrlsFromText : simpl never.
#[local] Arguments search : simpl never.
#[local] Arguments playerResponsePattern : simpl never.
#[local] Arguments chars : simpl never.
#[local] Arguments removeDuplicates : simpl never.
#[local] Arguments detectPlatform : simpl never.
#[local] Arguments includes : simpl never.
#[local] Arguments getStreamingFormat : simpl never.
#[local] Arguments player_script_text : simpl never.
#[local] Arguments streaming_candidate : simpl never.
#[local] Arguments blob_candidate : simpl never.
#[local] Arguments generic_candidate : simpl never.

Lemma includes_player_script :
  includes player_script_text "ytInitialPlayerResponse" = true.
Proof. vm_compute. reflexivity. Qed.

Lemma detect_youtube : detectPlatform "www.youtube.com" = "youtube".
Proof. vm_compute. reflexivity. Qed.

Lemma detect_generic : detectPlatform "www.example.org" = "generic".
Proof. vm_compute. reflexivity. Qed.

Lemma detect_tiktok : detectPlatform "www.tiktok.com" = "tiktok".
Proof. vm_compute. reflexivity. Qed.

(** Runs a scan of a concrete page step by step: the strategies are
    unfolded and simplified, the facts about the texts of the page and
    the answers assumed for the calls of the parameters are put in as they
    come up, and the closed remainder is computed. *)
Ltac run_scan :=
  rewrite scan_outcome; unfold strategies;
  unfold player_blob_url, manifest_url, clip_url, tiktok_blob_url in *;
  repeat (progress (
    cbn;
    unfold findDirectVideoElements, findSourceElements,
      findPlatformSpecificVideos, findYouTubeVideos, findTikTokVideos,
      findPlatformVideos, findBlobVideos, findStreamingVideos,
      scanPageForStreamingUrls, findYouTubeStreamingUrls,
      findTikTokStreamingUrls, push_streaming, streaming_push,
      extractPlatformTitle, resolve_src, el_querySelector,
      bind, lift, ret, push, try_catch;
    cbn;
    rewrite ?detect_youtube, ?detect_generic, ?detect_tiktok,
      ?extract_player_script, ?includes_player_script,
      ?player_script_no_match;
    unfold player_blob_url, manifest_url, clip_url, tiktok_blob_url;
    repeat match goal with
           | H : _ = _ |- _ => rewrite H
           end));
  vm_compute; try reflexivity.

(** The YouTube scenario in isolation: with the script alone on the page
    and no URL observed, the generic script scan finds the manifest. *)
Lemma scan_youtube_script_page (videos0 : list candidate) (ttl : string) :
  extractTitleFromStreamingUrl resolver manifest_url "youtube" = Normal ttl ->
  scan new_URL JSON_parse resolver youtube_script_page [] videos0
  = Normal [streaming_candidate manifest_url "youtube" "HLS"
              (if truthy ttl then ttl else "youtube HLS Stream")].
Proof. intros Httl. run_scan. Qed.

(** A blob video on a TikTok page: one candidate, tagged [tiktok_blob], not
    downloadable, with its reason and its alternative. *)
Lemma scan_tiktok_blob_page (videos0 : list candidate) (ttl : string) :
  extractTikTokTitle resolver (Some (video_element tiktok_blob_url))
  = Normal ttl ->
  scan new_URL JSON_parse resolver tiktok_blob_page [] videos0
  = Normal [blob_candidate tiktok_blob_url ttl "tiktok"
              (video_element tiktok_blob_url)].
Proof.
  intros Httl.
  pose proof (isValidVideoUrl_startsWith new_URL tiktok_blob_url
                (or_introl eq_refl)) as Hvalid.
  run_scan.
Qed.

(** C2 at its failing input.  On a watch page, where the player's video
    element has a blob URL, the blob candidate comes first and has no
    [src]; the manifest candidate has no [src] either, so the duplicate
    removal in effect drops it: no candidate of the result has the
    manifest URL. *)
Theorem scan_youtube_watch_page_drops_manifest (videos0 : list candidate) :
  exists result,
    scan new_URL JSON_parse resolver youtube_watch_page [] videos0
    = Normal result /\
    Forall (fun c => url c <> Some manifest_url) result.
Proof.
  pose proof (isValidVideoUrl_startsWith new_URL player_blob_url
                (or_introl eq_refl)) as Hvalid.
  destruct (extractYouTubeTitle resolver (Some (video_element player_blob_url)))
    as [t1|e1] eqn:H1;
  destruct (extractTitleFromStreamingUrl resolver manifest_url "youtube")
    as [t2|e2] eqn:H2;
  eexists; (split; [run_scan |]); repeat constructor; discriminate.
Qed.

(** C3 at its failing input.  The one candidate of the page with the
    single video element has its locator in [src] and carries no [format]
    (nor [url], nor [downloadable]); the final filter keeps a
    non-streaming candidate only when its locator has 20 characters or
    more. *)
Theorem scan_clip_page_no_format (videos0 : list candidate) (urlObj : URL)
    (ttl : string) :
  new_URL clip_url = Some urlObj ->
  protocol urlObj = "https:" ->
  extractVideoTitle resolver (video_element clip_url) None = Normal ttl ->
  (exists c,
      scan new_URL JSON_parse resolver clip_page [] videos0 = Normal [c] /\
      src c = Some clip_url /\ type c = "direct" /\
      format c = None /\ url c = None /\ downloadable c = None) /\
  (forall c, is_true_opt (isStreaming c) = false ->
             isValidVideo c = true ->
             exists locator, or_else (url c) (src c) = Some locator /\
                             20 <= String.length locator).
Proof.
  intros Hparse Hproto Httl. split.
  - assert (Hvalid : isValidVideoUrl new_URL clip_url = true).
    { unfold isValidVideoUrl. rewrite Hparse, Hproto. reflexivity. }
    clear Hparse Hproto.
    exists (generic_candidate clip_url "direct" ttl (video_element clip_url)
              None None).
    split; [run_scan | repeat split].
  - intros c Hs. apply isValidVideo_floor, Hs.
Qed.

End Scenarios.

Lemma scan_clip_page_no_format_witness :
  exists c,
    scan reference_URL no_JSON plain_resolver clip_page [] [] = Normal [c] /\
    src c = Some clip_url /\ format c = None.
Proof.
  destruct (scan_clip_page_no_format reference_URL no_JSON plain_resolver []
              (mkURL "https:" "cdn.example.com" "/clip.mp4") "clip"
              eq_refl eq_refl eq_refl) as [(c & H & Hsrc & _ & Hfmt & _) _].
  exists c. auto.
Defined.

(** The floor of the final filter on a locator of 15 and of 25 characters. *)
Example isValidVideo_15_25 :
  String.length "https://a.io/v5" = 15 /\
  isValidVideo (generic_candidate "https://a.io/v5" "direct" "v"
                  (video_element "https://a.io/v5") None None) = false /\
  String.length "https://a.io/clips/v5.mp4" = 25 /\
  isValidVideo (generic_candidate "https://a.io/clips/v5.mp4" "direct" "v"
                  (video_element "https://a.io/clips/v5.mp4") None None) = true.
Proof. repeat split. Qed.

(** ** The manifest scenario under the shadowed duplicate removal *)

Section IntendedDedup.

Variable new_URL : string -> option URL.
Variable JSON_parse : string -> option playerData.
Variable resolver : title_resolver.
Variable doc : document.

Lemma isValidVideoUrl_manifest : isValidVideoUrl new_URL manifest_url = false.
Proof.
  unfold isValidVideoUrl. destruct (new_URL manifest_url); [| reflexivity].
  destruct (negb _); reflexivity.
Qed.

(** A locator that passed [isValidVideoUrl], or that is a blob URL, is not
    the manifest URL. *)
Lemma valid_not_manifest (s : string) :
  isValidVideoUrl new_URL s = true \/ startsWith s "blob:" = true ->
  Some s <> Some manifest_url.
Proof.
  intros [H | H] [= ->].
  - now rewrite isValidVideoUrl_manifest in H.
  - discriminate.
Qed.

Ltac appends_cases :=
  repeat first
    [ apply appends_ret
    | apply appends_lift
    | apply appends_forEach; intros ?
    | apply appends_bind; [| intros ?]
    | match goal with
      | |- appends _ (match ?x with _ => _ end) => destruct x eqn:?
      | |- appends _ (if ?b then _ else _) => destruct b eqn:?
      end ].

Ltac not_manifest :=
  apply appends_push; intros Hloc; exfalso;
  repeat match goal with
         | H : _ && _ = true |- _ => apply andb_true_iff in H as [? ?]
         end;
  unfold or_else, truthy_opt in Hloc; cbn in Hloc;
  repeat match goal with
         | H : truthy _ = true |- _ => rewrite H in Hloc
         end;
  revert Hloc; apply valid_not_manifest; auto.

Lemma findDirectVideoElements_safe :
  appends manifest_safe (findDirectVideoElements new_URL resolver doc).
Proof. unfold findDirectVideoElements. appends_cases. not_manifest. Qed.

Lemma findSourceElements_safe :
  appends manifest_safe (findSourceElements new_URL resolver doc).
Proof. unfold findSourceElements. appends_cases. not_manifest. Qed.

Lemma findBlobVideos_safe (platform : string) :
  appends manifest_safe (findBlobVideos resolver doc platform).
Proof. unfold findBlobVideos. appends_cases. not_manifest. Qed.

Lemma findPlatformVideos_safe (selectors : list string)
    (titleOf : option element -> completion string) (tag : string) :
  appends manifest_safe
    (findPlatformVideos new_URL resolver doc selectors titleOf tag).
Proof.
  unfold findPlatformVideos.
  apply appends_bind; [| intros _; apply findBlobVideos_safe].
  appends_cases. not_manifest.
Qed.

Lemma findPlatformSpecificVideos_safe (platform : string) :
  appends manifest_safe
    (findPlatformSpecificVideos new_URL resolver doc platform).
Proof.
  unfold findPlatformSpecificVideos.
  repeat match goal with
         | |- appends _ (if ?b then _ else _) => destruct b
         end;
    try apply findPlatformVideos_safe.
  apply appends_ret.
Qed.

Lemma push_streaming_safe (u : string) :
  appends manifest_safe (push_streaming resolver "youtube" u).
Proof.
  unfold push_streaming, streaming_push. appends_cases.
  apply appends_push. intros Hloc. cbn in Hloc.
  unfold or_else in Hloc. cbn in Hloc.
  destruct (truthy u); [| discriminate]. injection Hloc as ->.
  repeat split.
Qed.

(** The scan of the script texts on a YouTube page: what it appends is
    safe, and holds the manifest candidate when the script of the scenario
    is among the scripts. *)
Lemma generic_scan_finds (scripts : list element) (script : element)
    (videos videos' : list candidate) :
  In script scripts ->
  el_textContent script = player_script_text ->
  forEach scripts (fun script =>
    let text := el_textContent script in
    if truthy text then
      forEach (extractStreamingUrlsFromText text)
        (push_streaming resolver "youtube")
    else ret tt) videos = (Normal tt, videos') ->
  exists new, videos' = videos ++ new /\ Forall manifest_safe new /\
              Exists (fun c => url c = Some manifest_url) new.
Proof.
  set (body := fun script : element => _).
  assert (Hbody : forall x, appends manifest_safe (body x)).
  { intros x. unfold body. cbv zeta. destruct (truthy _); [| apply appends_ret].
    apply appends_forEach. intros u. apply push_streaming_safe. }
  intros Hin Htext. revert videos.
  induction scripts as [|x scripts IH]; intros videos Hrun; [destruct Hin |].
  cbn [forEach] in Hrun. unfold bind in Hrun.
  destruct (Hbody x videos) as (n1 & E1 & F1).
  destruct (body x videos) as [[[]|e] v1] eqn:Ex; [| discriminate].
  cbn in E1. subst v1.
  destruct (appends_forEach manifest_safe scripts body Hbody (videos ++ n1))
    as (n2 & E2 & F2).
  rewrite Hrun in E2. cbn in E2. subst videos'.
  exists (n1 ++ n2). rewrite app_assoc. split; [reflexivity |].
  split; [now apply Forall_app |].
  apply Exists_app. destruct Hin as [-> | Hin].
  - left. unfold body in Ex. rewrite Htext in Ex. cbv zeta in Ex.
    rewrite extract_player_script in Ex.
    change (truthy player_script_text) with true in Ex.
    cbn [forEach] in Ex.
    unfold push_streaming, streaming_push, bind, lift, ret, push in Ex.
    destruct (extractTitleFromStreamingUrl resolver manifest_url "youtube");
      [| discriminate].
    injection Ex as Ex. apply app_inv_head in Ex. subst n1.
    constructor. reflexivity.
  - right. destruct (IH Hin (videos ++ n1) Hrun) as (n2' & E2' & _ & Hex).
    apply app_inv_head in E2'. now subst n2'.
Qed.

(** On a YouTube page that has the script of the scenario, what the
    strategies collect starts with safe candidates, the manifest candidate
    among them; only the YouTube extractor comes after. *)
Lemma strategies_youtube_manifest (streamingUrls : list string)
    (scripts : list element) (script : element) (collected : list candidate) :
  detectPlatform (hostname doc) = "youtube" ->
  querySelectorAll doc "script" = Normal scripts ->
  In script scripts ->
  el_textContent script = player_script_text ->
  strategies new_URL JSON_parse resolver doc streamingUrls []
  = (Normal tt, collected) ->
  exists safe rest,
    collected = safe ++ rest /\ Forall manifest_safe safe /\
    Exists (fun c => url c = Some manifest_url) safe.
Proof.
  intros Hplat Hscripts Hin Htext Hrun.
  unfold strategies in Hrun. rewrite Hplat in Hrun. unfold bind in Hrun.
  destruct (findDirectVideoElements_safe []) as (n1 & E1 & F1).
  destruct (findDirectVideoElements _ _ _ _) as [[[]|e] v1]; [| discriminate].
  cbn in E1. subst v1.
  destruct (findSourceElements_safe n1) as (n2 & E2 & F2).
  destruct (findSourceElements _ _ _ _) as [[[]|e] v2]; [| discriminate].
  cbn in E2. subst v2.
  destruct (findPlatformSpecificVideos_safe "youtube" (n1 ++ n2))
    as (n3 & E3 & F3).
  destruct (findPlatformSpecificVideos _ _ _ _ _) as [[[]|e] v3]; [| discriminate].
  cbn in E3. subst v3.
  unfold findStreamingVideos, bind in Hrun.
  destruct (appends_forEach manifest_safe streamingUrls
              (push_streaming resolver "youtube") push_streaming_safe
              ((n1 ++ n2) ++ n3)) as (n4 & E4 & F4).
  destruct (forEach streamingUrls _ _) as [[[]|e] v4]; [| discriminate].
  cbn in E4. subst v4.
  unfold scanPageForStreamingUrls, bind, lift in Hrun. rewrite Hscripts in Hrun.
  destruct (forEach scripts _ _) as [[[]|e] v5] eqn:E5; [| discriminate].
  apply (generic_scan_finds scripts script _ _ Hin Htext) in E5
    as (n5 & -> & F5 & X5).
  cbn [String.eqb Ascii.eqb Bool.eqb] in Hrun.
  destruct (findYouTubeStreamingUrls_appends JSON_parse doc
              ((((n1 ++ n2) ++ n3) ++ n4) ++ n5)) as (n6 & E6 & _).
  rewrite Hrun in E6. cbn in E6. subst collected.
  exists ((((n1 ++ n2) ++ n3) ++ n4) ++ n5), n6.
  split; [reflexivity |]. split.
  - repeat (apply Forall_app; split). all: assumption.
  - apply Exists_app. right. exact X5.
Qed.

(** Had [findVideos] called the shadowed [removeDuplicates] (line 493), the
    scenario would hold on every page: whenever the host is YouTube, the
    script is on the page and the strategies return, the filtered list
    holds the youtube/HLS candidate of the manifest URL. *)
Theorem shadowed_dedup_keeps_manifest (streamingUrls : list string)
    (scripts : list element) (script : element) (collected : list candidate) :
  hostname doc = "www.youtube.com" ->
  querySelectorAll doc "script" = Normal scripts ->
  In script scripts ->
  el_textContent script = player_script_text ->
  strategies new_URL JSON_parse resolver doc streamingUrls []
  = (Normal tt, collected) ->
  exists c,
    In c (List.filter isValidVideo (removeDuplicates_first collected)) /\
    url c = Some manifest_url /\ platform c = Some "youtube" /\
    format c = Some "HLS".
Proof.
  intros Hhost Hscripts Hin Htext Hrun.
  assert (Hplat : detectPlatform (hostname doc) = "youtube")
    by (rewrite Hhost; vm_compute; reflexivity).
  destruct (strategies_youtube_manifest _ _ _ _ Hplat Hscripts Hin Htext Hrun)
    as (safe & rest & -> & Hsafe & Hex).
  pose proof (removeDuplicates_first_per_locator (safe ++ rest)
                (Some manifest_url)) as Hkey.
  rewrite filter_app in Hkey.
  apply Exists_exists in Hex as (c1 & Hc1 & Hurl1).
  destruct (filter (fun c => or_else (url c) (src c) = Some manifest_url) safe)
    as [|c0 tail] eqn:Efilter.
  { exfalso.
    assert (H : c1 ∈ filter (fun c => or_else (url c) (src c) = Some manifest_url)
                  safe).
    { apply list_elem_of_filter. split.
      - rewrite Hurl1. reflexivity.
      - exact Hc1. }
    rewrite Efilter in H. inversion H. }
  cbn in Hkey.
  assert (Hc0 : c0 ∈ filter (fun c => or_else (url c) (src c) = Some manifest_url)
                  safe) by (rewrite Efilter; left).
  apply list_elem_of_filter in Hc0 as [Hloc Hc0].
  rewrite Forall_forall in Hsafe.
  destruct (Hsafe c0 Hc0 Hloc) as (Hurl & Hplatform & Hformat & Hstream).
  exists c0. split; [| auto].
  apply filter_In. split.
  - apply list_elem_of_In.
    assert (H : c0 ∈ filter (fun c => or_else (url c) (src c) = Some manifest_url)
                  (removeDuplicates_first (safe ++ rest)))
      by (rewrite Hkey; left).
    now apply list_elem_of_filter in H as [_ H].
  - unfold isValidVideo. now rewrite Hstream, Hurl.
Qed.

End IntendedDedup.

(** On the watch page, where the method in effect loses the manifest, the
    shadowed one keeps it. *)
Example shadowed_dedup_on_watch_page :
  exists c,
    In c (List.filter isValidVideo
            (removeDuplicates_first
               (snd (strategies reference_URL no_JSON plain_resolver
                       youtube_watch_page [] [])))) /\
    url c = Some manifest_url /\ platform c = Some "youtube" /\
    format c = Some "HLS".
Proof.
  apply (shadowed_dedup_keeps_manifest reference_URL no_JSON plain_resolver
           youtube_watch_page [] [script_element player_script_text]
           (script_element player_script_text)).
  - reflexivity.
  - reflexivity.
  - now left.
  - reflexivity.
  - vm_compute. reflexivity.
Qed.

(** ** The string methods of the title code *)

Lemma length_drop_while (p : ascii -> bool) (l : list ascii) :
  length (drop_while p l) <= length l.
Proof. induction l as [|c l IH]; simpl; [lia |]. destruct (p c); simpl; lia. Qed.

(** A greedy repetition of a character class before a continuation that
    accepts everything takes the whole run. *)
Lemma star_loop_class {R : Type} (p : ascii -> bool)
    (k : list ascii -> capture -> option R) :
  (forall s cap, is_Some (k s cap)) ->
  forall fuel s cap,
    length s <= fuel ->
    star_loop true (rmatch (Chr p)) k fuel s cap = k (drop_while p s) cap.
Proof.
  intros Hk. induction fuel as [|fuel IH]; intros s cap Hlen.
  - destruct s; [reflexivity | simpl in Hlen; lia].
  - cbn [star_loop]. cbv zeta. destruct s as [|c s]; cbn [rmatch drop_while].
    + reflexivity.
    + destruct (p c); [| reflexivity].
      replace (length s <? length (c :: s))%nat with true
        by (symmetry; apply Nat.ltb_lt; simpl; lia).
      rewrite IH by (simpl in Hlen; lia).
      destruct (Hk (drop_while p s) cap) as [x Hx]. now rewrite Hx.
Qed.

Lemma match_here_class (p : ascii -> bool) (s : list ascii) :
  match_here (Chr p) s =
  match s with
  | c :: s' => if p c then Some (Matched [c] None s') else None
  | [] => None
  end.
Proof.
  unfold match_here. destruct s as [|c s]; cbn [rmatch]; [reflexivity |].
  destruct (p c); [| reflexivity].
  replace (length (c :: s) - length s) with 1 by (simpl; lia). reflexivity.
Qed.

Lemma rmatch_star_class {R : Type} (p : ascii -> bool) (s : list ascii)
    (cap : capture) (k : list ascii -> capture -> option R) :
  (forall s cap, is_Some (k s cap)) ->
  rmatch (Star true (Chr p)) s cap k = k (drop_while p s) cap.
Proof.
  intros Hk. rewrite (rmatch_star_fuel _ _ _ _ _ (length s)) by lia.
  now apply star_loop_class.
Qed.

Lemma rmatch_Seq {R : Type} (r1 r2 : regex) (s : list ascii) (cap : capture)
    (k : list ascii -> capture -> option R) :
  rmatch (Seq r1 r2) s cap k
  = rmatch r1 s cap (fun s' cap' => rmatch r2 s' cap' k).
Proof. reflexivity. Qed.

Lemma rmatch_Chr {R : Type} (p : ascii -> bool) (s : list ascii)
    (cap : capture) (k : list ascii -> capture -> option R) :
  rmatch (Chr p) s cap k
  = match s with
    | c :: s' => if p c then k s' cap else None
    | [] => None
    end.
Proof. reflexivity. Qed.

Lemma match_here_plus_class (p : ascii -> bool) (s : list ascii) :
  option_map m_rest (match_here (plus (Chr p)) s) =
  match s with
  | c :: s' => if p c then Some (drop_while p s') else None
  | [] => None
  end.
Proof.
  unfold match_here, plus. rewrite rmatch_Seq, rmatch_Chr.
  destruct s as [|c s]; [reflexivity |].
  destruct (p c); [| reflexivity].
  rewrite rmatch_star_class by eauto. reflexivity.
Qed.

(** Replacing every character of a class. *)
Lemma replace_all_loop_class (p : ascii -> bool) (by_ : list ascii) :
  forall fuel s,
    length s < fuel ->
    replace_all_loop fuel (Chr p) by_ s
    = flat_map (fun c => if p c then by_ else [c]) s.
Proof.
  induction fuel as [|fuel IH]; intros s Hlen; [lia |].
  cbn [replace_all_loop]. rewrite match_here_class.
  destruct s as [|c s]; [reflexivity |]. cbn [flat_map].
  destruct (p c); cbn [m_rest].
  - replace (length s <? length (c :: s))%nat with true
      by (symmetry; apply Nat.ltb_lt; simpl; lia).
    rewrite IH by (simpl in Hlen; lia). reflexivity.
  - rewrite IH by (simpl in Hlen; lia). reflexivity.
Qed.

Lemma squeeze_in_run (p : ascii -> bool) (by_ l : list ascii) :
  squeeze p by_ true l = squeeze p by_ false (drop_while p l).
Proof.
  induction l as [|c l IH]; cbn [squeeze drop_while]; [reflexivity |].
  destruct (p c) eqn:E; [assumption |]. cbn [squeeze]. now rewrite E.
Qed.

(** Replacing every run of characters of a class. *)
Lemma replace_all_loop_runs (p : ascii -> bool) (by_ : list ascii) :
  forall fuel s,
    length s < fuel ->
    replace_all_loop fuel (plus (Chr p)) by_ s = squeeze p by_ false s.
Proof.
  induction fuel as [|fuel IH]; intros s Hlen; [lia |].
  cbn [replace_all_loop].
  pose proof (match_here_plus_class p s) as Hm.
  destruct s as [|c s].
  - destruct (match_here _ _); [discriminate | reflexivity].
  - cbn [squeeze]. destruct (p c).
    + destruct (match_here _ _) as [m|]; [| discriminate].
      injection Hm as Hm. rewrite Hm.
      pose proof (length_drop_while p s) as Hd.
      replace (length (drop_while p s) <? length (c :: s))%nat with true
        by (symmetry; apply Nat.ltb_lt; simpl; lia).
      rewrite IH by (simpl in Hlen; lia).
      now rewrite squeeze_in_run.
    + destruct (match_here _ _); [discriminate |].
      rewrite IH by (simpl in Hlen; lia). reflexivity.
Qed.

(** The characters of a sanitized title. *)
Lemma sanitizeTitle_chars (title : string) :
  chars (sanitizeTitle title)
  = take 100 (trim_chars (squeeze is_space [" "%char] false
                            (map esc (chars title)))).
Proof.
  unfold sanitizeTitle, substring_to, trim, replace_all, spaces.
  rewrite !chars_from_chars, <- !chars_length, !chars_from_chars.
  rewrite replace_all_loop_class by lia.
  rewrite replace_all_loop_runs.
  - do 3 f_equal. clear. induction (chars title) as [|c l IH]; [reflexivity |].
    cbn [flat_map map]. rewrite IH. unfold esc. now destruct (is_reserved c).
  - clear. induction (chars title) as [|c l IH]; cbn [flat_map length]; [lia |].
    destruct (is_reserved c); cbn [chars list_ascii_of_string app length] in *; lia.
Qed.

(** *** Trimming *)

Lemma drop_while_split (p : ascii -> bool) (l : list ascii) :
  exists pre, l = pre ++ drop_while p l /\ forallb p pre = true.
Proof.
  induction l as [|c l (pre & IH & Hp)]; cbn [drop_while].
  - now exists [].
  - destruct (p c) eqn:E.
    + exists (c :: pre). cbn. rewrite E, Hp. now rewrite <- IH.
    + now exists [].
Qed.

Lemma drop_while_head (p : ascii -> bool) (l : list ascii) (c : ascii) :
  head (drop_while p l) = Some c -> p c = false.
Proof.
  induction l as [|a l IH]; cbn [drop_while]; [discriminate |].
  destruct (p a) eqn:E; [assumption |]. now intros [= <-].
Qed.

Lemma drop_while_fixed (p : ascii -> bool) (l : list ascii) :
  (forall c, head l = Some c -> p c = false) -> drop_while p l = l.
Proof.
  destruct l as [|a l]; [reflexivity |]. intros H. cbn.
  now rewrite (H a eq_refl).
Qed.

Lemma drop_while_nil (p : ascii -> bool) (l : list ascii) :
  drop_while p l = [] <-> forallb p l = true.
Proof.
  induction l as [|c l IH]; cbn; [tauto |].
  destruct (p c); cbn; [assumption |]. split; discriminate.
Qed.

Lemma forallb_rev (p : ascii -> bool) (l : list ascii) :
  forallb p (rev l) = forallb p l.
Proof.
  induction l as [|c l IH]; [reflexivity |]. cbn.
  rewrite forallb_app, IH. cbn. destruct (p c), (forallb p l); reflexivity.
Qed.

(** What [trim] cuts off at the end is white space. *)
Lemma trim_chars_end (l : list ascii) :
  exists post,
    drop_while is_space l = trim_chars l ++ post /\
    forallb is_space post = true.
Proof.
  unfold trim_chars.
  destruct (drop_while_split is_space (rev (drop_while is_space l)))
    as (sp & Hr & Hsp).
  exists (rev sp). split; [| now rewrite forallb_rev].
  rewrite <- rev_app_distr, <- Hr. now rewrite rev_involutive.
Qed.

(** The trimmed text sits in the text between two runs of white space. *)
Lemma trim_chars_split (l : list ascii) :
  exists pre post,
    l = pre ++ trim_chars l ++ post /\
    forallb is_space pre = true /\ forallb is_space post = true.
Proof.
  destruct (drop_while_split is_space l) as (pre & Hl & Hpre).
  destruct (trim_chars_end l) as (post & Hd & Hpost).
  exists pre, post. rewrite <- Hd. auto.
Qed.

Lemma head_rev_last (l : list ascii) : head (rev l) = last l.
Proof.
  induction l as [|c l IH]; [reflexivity |]. cbn [rev].
  destruct l as [|b l]; [reflexivity |].
  rewrite last_cons. cbn [rev] in *. rewrite <- IH.
  destruct (rev l ++ [b]) eqn:E; [| reflexivity].
  destruct (rev l); discriminate.
Qed.

Lemma last_rev_head (l : list ascii) : last (rev l) = head l.
Proof. rewrite <- head_rev_last. now rewrite rev_involutive. Qed.

(** The trimmed text neither starts nor ends with white space. *)
Lemma trim_chars_last (l : list ascii) (c : ascii) :
  last (trim_chars l) = Some c -> is_space c = false.
Proof.
  unfold trim_chars. rewrite last_rev_head. apply drop_while_head.
Qed.

Lemma trim_chars_head (l : list ascii) (c : ascii) :
  head (trim_chars l) = Some c -> is_space c = false.
Proof.
  intros H. destruct (trim_chars_end l) as (post & Hd & _).
  apply (drop_while_head is_space l). rewrite Hd.
  destruct (trim_chars l); [discriminate | exact H].
Qed.

Lemma trim_chars_nil (l : list ascii) :
  trim_chars l = [] <-> forallb is_space l = true.
Proof.
  destruct (trim_chars_split l) as (pre & post & Hl & Hpre & Hpost). split.
  - intros E. rewrite Hl, E, !forallb_app, Hpre, Hpost. reflexivity.
  - intros H. apply drop_while_nil in H. unfold trim_chars. now rewrite H.
Qed.

(** A text that neither starts nor ends with white space is its own
    trimmed text. *)
Lemma trim_chars_fixed (l : list ascii) :
  (forall c, head l = Some c -> is_space c = false) ->
  (forall c, last l = Some c -> is_space c = false) ->
  trim_chars l = l.
Proof.
  intros Hh Hl. unfold trim_chars. rewrite (drop_while_fixed _ l Hh).
  rewrite drop_while_fixed; [apply rev_involutive |].
  intros c. rewrite head_rev_last. apply Hl.
Qed.

Lemma length_trim_chars (l : list ascii) : length (trim_chars l) <= length l.
Proof.
  destruct (trim_chars_split l) as (pre & post & Hl & _).
  rewrite Hl at 2. rewrite !length_app. lia.
Qed.

(** *** Squeezing white space *)

Lemma is_space_esc (c : ascii) : is_space (esc c) = is_space c.
Proof. destruct c as [[] [] [] [] [] [] [] []]; reflexivity. Qed.

Lemma is_reserved_esc (c : ascii) : is_reserved (esc c) = false.
Proof. destruct c as [[] [] [] [] [] [] [] []]; reflexivity. Qed.

Lemma esc_fixed (c : ascii) : is_reserved c = false -> esc c = c.
Proof. unfold esc. now intros ->. Qed.

Lemma map_esc_fixed (l : list ascii) :
  Forall (fun c => is_reserved c = false) l -> map esc l = l.
Proof.
  induction 1 as [|c l Hc _ IH]; [reflexivity |].
  cbn. now rewrite esc_fixed, IH.
Qed.

Lemma squeeze_single_spaced (l : list ascii) (b : bool) :
  single_spaced b (squeeze is_space [" "%char] b l) = true.
Proof.
  revert b. induction l as [|c l IH]; intros b; cbn [squeeze]; [reflexivity |].
  destruct (is_space c) eqn:E.
  - destruct b; [apply IH |]. cbn. apply IH.
  - cbn [single_spaced]. rewrite E. apply IH.
Qed.

Lemma squeeze_fixed (l : list ascii) (b : bool) :
  single_spaced b l = true -> squeeze is_space [" "%char] b l = l.
Proof.
  revert b. induction l as [|c l IH]; intros b; cbn [squeeze single_spaced];
    [reflexivity |].
  destruct (is_space c).
  - rewrite !andb_true_iff, negb_true_iff. intros [[Hc ->] Hl].
    apply Ascii.eqb_eq in Hc. subst c. cbn. now rewrite IH.
  - intros Hl. now rewrite IH.
Qed.

Lemma single_spaced_weaken (b : bool) (l : list ascii) :
  single_spaced b l = true -> single_spaced false l = true.
Proof.
  destruct l as [|c l]; [reflexivity |]. cbn [single_spaced].
  destruct (is_space c); [| auto].
  rewrite !andb_true_iff. intros [[H1 _] H2]. auto.
Qed.

Lemma single_spaced_app_r (pre l : list ascii) (b : bool) :
  single_spaced b (pre ++ l) = true -> single_spaced false l = true.
Proof.
  revert b. induction pre as [|c pre IH]; intros b; cbn [app single_spaced].
  - apply single_spaced_weaken.
  - destruct (is_space c); [| apply IH].
    rewrite !andb_true_iff. intros [_ H]. now apply IH in H.
Qed.

Lemma single_spaced_app_l (l post : list ascii) (b : bool) :
  single_spaced b (l ++ post) = true -> single_spaced b l = true.
Proof.
  revert b. induction l as [|c l IH]; intros b; cbn [app single_spaced];
    [reflexivity |].
  destruct (is_space c); [| apply IH].
  rewrite !andb_true_iff. intros [H1 H2]. split; [assumption | now apply IH in H2].
Qed.

Lemma single_spaced_Forall (b : bool) (l : list ascii) :
  single_spaced b l = true ->
  Forall (fun c => is_space c = true -> c = " "%char) l.
Proof.
  revert b. induction l as [|c l IH]; intros b; cbn [single_spaced];
    [constructor |].
  destruct (is_space c) eqn:E.
  - rewrite !andb_true_iff. intros [[Hc _] Hl]. constructor; [| now apply IH in Hl].
    intros _. now apply Ascii.eqb_eq.
  - intros Hl. constructor; [congruence | now apply IH in Hl].
Qed.

Lemma single_spaced_no_double (b : bool) (l pre post : list ascii) :
  single_spaced b l = true -> l <> pre ++ " "%char :: " "%char :: post.
Proof.
  intros H ->. apply single_spaced_app_r in H. cbn in H. discriminate.
Qed.

Lemma squeeze_Forall (P : ascii -> Prop) (l : list ascii) (b : bool) :
  P " "%char -> Forall P l -> Forall P (squeeze is_space [" "%char] b l).
Proof.
  intros Hsp H. revert b.
  induction H as [|c l Hc _ IH]; intros b; cbn [squeeze]; [constructor |].
  destruct (is_space c); [| now constructor].
  destruct b; [apply IH |]. cbn. now constructor.
Qed.

Lemma length_squeeze (l : list ascii) (b : bool) :
  length (squeeze is_space [" "%char] b l) <= length l.
Proof.
  revert b. induction l as [|c l IH]; intros b; cbn [squeeze]; [lia |].
  destruct (is_space c); [destruct b |]; cbn; [specialize (IH true) | specialize (IH true) | specialize (IH false)]; lia.
Qed.

Lemma forallb_squeeze (l : list ascii) (b : bool) :
  forallb is_space (squeeze is_space [" "%char] b l) = forallb is_space l.
Proof.
  revert b. induction l as [|c l IH]; intros b; cbn [squeeze forallb];
    [reflexivity |].
  destruct (is_space c) eqn:E; cbn.
  - destruct b; cbn; apply IH.
  - now rewrite E.
Qed.

(** *** The sanitized title *)

(** The sanitized title is a piece of the squeezed text. *)
Lemma sanitizeTitle_piece (title : string) :
  exists pre post,
    squeeze is_space [" "%char] false (map esc (chars title))
    = pre ++ chars (sanitizeTitle title) ++ post.
Proof.
  rewrite sanitizeTitle_chars.
  set (sq := squeeze _ _ _ _).
  destruct (trim_chars_split sq) as (pre & post & Hsq & _).
  exists pre, (drop 100 (trim_chars sq) ++ post).
  rewrite (app_assoc (take _ _)), take_drop. exact Hsq.
Qed.

Lemma sanitizeTitle_single_spaced (title : string) :
  single_spaced false (chars (sanitizeTitle title)) = true.
Proof.
  destruct (sanitizeTitle_piece title) as (pre & post & H).
  pose proof (squeeze_single_spaced (map esc (chars title)) false) as Hs.
  rewrite H in Hs. apply single_spaced_app_r in Hs.
  now apply single_spaced_app_l in Hs.
Qed.

Lemma sanitizeTitle_reserved (title : string) :
  Forall (fun c => is_reserved c = false) (chars (sanitizeTitle title)).
Proof.
  destruct (sanitizeTitle_piece title) as (pre & post & H).
  assert (Hs : Forall (fun c => is_reserved c = false)
                 (squeeze is_space [" "%char] false (map esc (chars title)))).
  { apply squeeze_Forall; [reflexivity |].
    apply Forall_forall. intros c Hc. apply list_elem_of_In, in_map_iff in Hc.
    destruct Hc as (c0 & <- & _). apply is_reserved_esc. }
  rewrite H in Hs. apply Forall_app in Hs as [_ Hs].
  now apply Forall_app in Hs as [Hs _].
Qed.

Lemma sanitizeTitle_head (title : string) (c : ascii) :
  head (chars (sanitizeTitle title)) = Some c -> is_space c = false.
Proof.
  rewrite sanitizeTitle_chars. set (sq := squeeze _ _ _ _). intros H.
  apply (trim_chars_head sq). destruct (trim_chars sq); [discriminate | exact H].
Qed.

Lemma sanitizeTitle_length (title : string) :
  String.length (sanitizeTitle title) <= 100.
Proof.
  rewrite <- chars_length, sanitizeTitle_chars, length_take. lia.
Qed.

Lemma sanitizeTitle_is_tidy (title : string) : tidy (sanitizeTitle title).
Proof.
  split; [apply sanitizeTitle_length |].
  split; [apply sanitizeTitle_reserved |].
  split; [apply (single_spaced_Forall false), sanitizeTitle_single_spaced |].
  split.
  - intros (pre & post & H).
    eapply (single_spaced_no_double false); [apply sanitizeTitle_single_spaced |].
    exact H.
  - unfold startsWith. destruct (chars (sanitizeTitle title)) as [|c l] eqn:E;
      [reflexivity |].
    change (Ascii.eqb " " c && true = false).
    pose proof (sanitizeTitle_head title c) as Hc. rewrite E in Hc.
    specialize (Hc eq_refl).
    destruct (Ascii.eqb_spec " "%char c) as [<-|]; [discriminate | reflexivity].
Qed.

(** The sanitized title is empty exactly for a title of white space. *)
Lemma sanitizeTitle_empty (title : string) :
  sanitizeTitle title = "" <-> forallb is_space (chars title) = true.
Proof.
  assert (Hiff : sanitizeTitle title = "" <-> chars (sanitizeTitle title) = []).
  { split; [now intros -> |]. destruct (sanitizeTitle title); [reflexivity | discriminate]. }
  rewrite Hiff, sanitizeTitle_chars. set (sq := squeeze _ _ _ _).
  assert (Hsq : forallb is_space sq = forallb is_space (chars title)).
  { unfold sq. rewrite forallb_squeeze. clear.
    induction (chars title) as [|c l IH]; [reflexivity |].
    cbn. now rewrite is_space_esc, IH. }
  rewrite <- Hsq, <- trim_chars_nil.
  destruct (trim_chars sq); cbn; split; congruence.
Qed.

(** A second pass cuts off the space that the cut at 100 characters may
    have left at the end, and nothing else. *)
Lemma sanitizeTitle_again (title : string) :
  sanitizeTitle (sanitizeTitle title) = trim (sanitizeTitle title).
Proof.
  assert (Hinj : forall a b, chars a = chars b -> a = b).
  { intros a b H. apply (f_equal from_chars) in H.
    unfold from_chars, chars in H. now rewrite !string_of_list_ascii_of_string in H. }
  apply Hinj. rewrite (sanitizeTitle_chars (sanitizeTitle title)).
  rewrite map_esc_fixed by apply sanitizeTitle_reserved.
  rewrite squeeze_fixed by apply sanitizeTitle_single_spaced.
  unfold trim. rewrite chars_from_chars.
  apply take_ge.
  pose proof (length_trim_chars (chars (sanitizeTitle title))).
  pose proof (sanitizeTitle_length title). rewrite <- chars_length in *. lia.
Qed.

(** A sanitized title has at most 100 characters, none of them reserved
    in file names; its white space is single spaces, none in front; and it
    is empty exactly when the title is white space only (or empty). *)
Theorem sanitizeTitle_shape (title : string) :
  let t := sanitizeTitle title in
  String.length t <= 100 /\
  Forall (fun c => is_reserved c = false) (chars t) /\
  Forall (fun c => is_space c = true -> c = " "%char) (chars t) /\
  ~ contains t "  " /\
  startsWith t " " = false /\
  (t = "" <-> Forall (fun c => is_space c = true) (chars title)).
Proof.
  cbv zeta.
  destruct (sanitizeTitle_is_tidy title) as (H1 & H2 & H3 & H4 & H5).
  repeat (split; [assumption |]).
  rewrite sanitizeTitle_empty, forallb_forall, Forall_forall.
  split; intros H c Hc; apply H; now apply list_elem_of_In.
Qed.

(** Sanitizing a sanitized title only trims it: the cut at 100
    characters may leave a space at the end, which a second pass removes.
    A title of at most 100 characters is sanitized once and for all. *)
Theorem sanitizeTitle_twice (title : string) :
  sanitizeTitle (sanitizeTitle title) = trim (sanitizeTitle title) /\
  (String.length title <= 100 ->
   sanitizeTitle (sanitizeTitle title) = sanitizeTitle title).
Proof.
  split; [apply sanitizeTitle_again |]. intros Hlen.
  rewrite sanitizeTitle_again. unfold trim.
  assert (Hinj : forall a b, chars a = chars b -> a = b).
  { intros a b H. apply (f_equal from_chars) in H.
    unfold from_chars, chars in H.
    now rewrite !string_of_list_ascii_of_string in H. }
  apply Hinj. rewrite chars_from_chars, sanitizeTitle_chars.
  set (sq := squeeze _ _ _ _).
  assert (Hsq : length (trim_chars sq) <= 100).
  { pose proof (length_trim_chars sq).
    pose proof (length_squeeze (map esc (chars title)) false).
    fold sq in H0. rewrite length_map, chars_length in H0. lia. }
  rewrite take_ge by assumption.
  apply trim_chars_fixed.
  - apply trim_chars_head.
  - apply trim_chars_last.
Qed.

Lemma sanitizeTitle_twice_witness :
  sanitizeTitle (sanitizeTitle "  What: a  day?  ") = "What_ a day_".
Proof.
  destruct (sanitizeTitle_twice "  What: a  day?  ") as [_ H].
  rewrite H by (cbn; lia). reflexivity.
Defined.

(** A title of 101 characters whose hundredth is a space: the first pass
    leaves the space at the end, the second takes it away. *)
Example sanitizeTitle_not_idempotent :
  let title :=
    from_chars (repeat "a"%char 99 ++ " "%char :: ["b"%char]) in
  String.length (sanitizeTitle title) = 100 /\
  String.length (sanitizeTitle (sanitizeTitle title)) = 99.
Proof. split; vm_compute; reflexivity. Qed.

(** ** Titles taken from a URL *)

Lemma from_chars_chars (s : string) : from_chars (chars s) = s.
Proof. apply string_of_list_ascii_of_string. Qed.

Lemma chars_inj (a b : string) : chars a = chars b -> a = b.
Proof.
  intros H. apply (f_equal from_chars) in H. now rewrite !from_chars_chars in H.
Qed.

Lemma truthy_from_chars (l : list ascii) :
  truthy (from_chars l) = match l with [] => false | _ :: _ => true end.
Proof. now destruct l. Qed.

(** [s.includes(c)] for a text [c] of one character. *)
Lemma infixb_char (c : ascii) (l : list ascii) :
  infixb [c] l = existsb (Ascii.eqb c) l.
Proof.
  induction l as [|a l IH]; [reflexivity |].
  cbn [infixb prefixb existsb]. rewrite IH.
  now destruct (Ascii.eqb c a), l.
Qed.

Lemma split_app (sep : ascii) (a b : list ascii) :
  split sep (a ++ sep :: b) = split sep a ++ split sep b.
Proof.
  induction a as [|c a IH]; cbn [app split].
  - now rewrite Ascii.eqb_refl.
  - destruct (Ascii.eqb c sep); [now rewrite IH |].
    rewrite IH. destruct (split sep a) as [|piece pieces] eqn:E; [| reflexivity].
    destruct a as [|c' a]; [discriminate |]. cbn in E.
    destruct (Ascii.eqb c' sep); [discriminate |].
    destruct (split sep a); discriminate.
Qed.

Lemma split_whole (sep : ascii) (l : list ascii) :
  existsb (Ascii.eqb sep) l = false -> split sep l = [l].
Proof.
  induction l as [|c l IH]; [reflexivity |]. cbn [existsb split].
  rewrite orb_false_iff, Ascii.eqb_sym. intros [-> Hl]. now rewrite IH.
Qed.

(** A greedy repetition of a character class that must reach the end of
    the text. *)
Lemma star_loop_class_end {R : Type} (p : ascii -> bool)
    (k : list ascii -> capture -> option R) :
  forall fuel s cap,
    length s <= fuel ->
    star_loop true (rmatch (Chr p))
      (fun s' cap' => rmatch AtEnd s' cap' k) fuel s cap
    = if forallb p s then k [] cap else None.
Proof.
  induction fuel as [|fuel IH]; intros s cap Hlen.
  - destruct s; [reflexivity | simpl in Hlen; lia].
  - cbn [star_loop]. cbv zeta. rewrite rmatch_Chr.
    destruct s as [|c s]; [reflexivity |]. cbn [forallb].
    destruct (p c); [| reflexivity]. cbn [andb].
    replace (length s <? length (c :: s))%nat with true
      by (symmetry; apply Nat.ltb_lt; simpl; lia).
    rewrite IH by (simpl in Hlen; lia).
    now destruct (if forallb p s then k [] cap else None).
Qed.

Lemma rmatch_star_class_end {R : Type} (p : ascii -> bool) (s : list ascii)
    (cap : capture) (k : list ascii -> capture -> option R) :
  rmatch (Star true (Chr p)) s cap (fun s' cap' => rmatch AtEnd s' cap' k)
  = if forallb p s then k [] cap else None.
Proof.
  rewrite (rmatch_star_fuel _ _ _ _ _ (length s)) by lia.
  now apply star_loop_class_end.
Qed.

(** The extension pattern matches at a dot that only characters other than
    dots and slashes follow, one at least. *)
Lemma match_here_extension (s : list ascii) :
  match_here extensionPattern s =
  match s with
  | c :: d :: e =>
      if Ascii.eqb "." c && forallb not_slash_dot (d :: e)
      then Some (Matched s None []) else None
  | _ => None
  end.
Proof.
  unfold match_here, extensionPattern, seqs, plus, chr. cbn [fold_right].
  rewrite rmatch_Seq, rmatch_Chr. destruct s as [|c s]; [reflexivity |].
  destruct (Ascii.eqb "." c); [| now destruct s].
  rewrite !rmatch_Seq, rmatch_Chr. destruct s as [|d e]; [reflexivity |].
  cbn [andb forallb]. destruct (not_slash_dot d); [| reflexivity]. cbn [andb].
  rewrite (rmatch_ext (Star true (Chr not_slash_dot)) e None _
             (fun s' cap' => rmatch AtEnd s' cap'
                (fun s'' cap'' =>
                   Some (Matched (take (length (c :: d :: e) - length s'')
                                    (c :: d :: e)) cap'' s''))))
    by reflexivity.
  rewrite rmatch_star_class_end.
  destruct (forallb not_slash_dot e); [| reflexivity].
  cbn [length]. rewrite Nat.sub_0_r.
  now rewrite (take_ge (c :: d :: e)) by (cbn; lia).
Qed.

(** Cutting the extension off a file name. *)
Lemma replace_match_extension (base ext : list ascii) :
  ext <> [] -> forallb not_slash_dot ext = true ->
  replace_match extensionPattern [] (base ++ "."%char :: ext) = base.
Proof.
  intros Hne Hext. induction base as [|c base IH]; cbn [app replace_match].
  - rewrite match_here_extension. destruct ext as [|d e]; [contradiction |].
    rewrite Hext. reflexivity.
  - rewrite match_here_extension.
    destruct (base ++ "."%char :: ext) as [|d e] eqn:E.
    { destruct base; discriminate. }
    replace (forallb not_slash_dot (d :: e)) with false.
    + rewrite andb_false_r. now rewrite IH.
    + rewrite <- E, forallb_app. cbn. now rewrite andb_false_r.
Qed.

Lemma includes_char_false (s : string) (c : ascii) :
  includes s (String c "") = false -> existsb (Ascii.eqb c) (chars s) = false.
Proof. unfold includes. cbn [chars list_ascii_of_string]. now rewrite infixb_char. Qed.

Lemma last_split_file (dir file : list ascii) :
  existsb (Ascii.eqb "/") file = false ->
  last (split "/" (dir ++ "/"%char :: file)) = Some file.
Proof.
  intros H. rewrite split_app, (split_whole _ file H). apply last_snoc.
Qed.

(** The title taken from a URL whose path ends in [base.ext] is [base]:
    the directories and the last extension are cut off. *)
Theorem extractTitleFromUrl_strips (new_URL : string -> option URL)
    (url : string) (urlObj : URL) (dir base ext : string) :
  url <> "" ->
  new_URL url = Some urlObj ->
  pathname urlObj = (dir ++ "/" ++ base ++ "." ++ ext)%string ->
  includes base "/" = false ->
  ext <> "" -> includes ext "/" = false -> includes ext "." = false ->
  Titles.extractTitleFromUrl new_URL (Some url) = base.
Proof.
  intros Hurl Hparse Hpath Hbase Hext Hext1 Hext2.
  unfold Titles.extractTitleFromUrl.
  apply truthy_true in Hurl. rewrite Hurl, Hparse, Hpath. cbn [negb].
  rewrite !chars_app.
  change (chars "/" ++ chars base ++ chars "." ++ chars ext)
    with ("/"%char :: (chars base ++ "."%char :: chars ext)).
  apply includes_char_false in Hbase, Hext1, Hext2.
  rewrite last_split_file.
  2:{ rewrite existsb_app. cbn [existsb]. rewrite Hbase, Hext1. reflexivity. }
  rewrite truthy_from_chars.
  destruct (chars base ++ "."%char :: chars ext) as [|c0 l0] eqn:E.
  { destruct (chars base); discriminate. }
  rewrite <- E. cbn [andb].
  replace (includes _ ".") with true.
  2:{ symmetry. apply includes_spec. exists (chars base), (chars ext).
      now rewrite chars_from_chars. }
  rewrite replace_match_extension.
  - apply from_chars_chars.
  - intros Hnil. apply Hext. apply chars_inj. exact Hnil.
  - clear -Hext1 Hext2. induction (chars ext) as [|c l IH]; [reflexivity |].
    cbn [existsb forallb] in *.
    apply orb_false_iff in Hext1 as [H1 Hl1].
    apply orb_false_iff in Hext2 as [H2 Hl2].
    rewrite IH by assumption. unfold not_slash_dot.
    rewrite (Ascii.eqb_sym c "/"), (Ascii.eqb_sym c "."), H1, H2. reflexivity.
Qed.

Lemma extractTitleFromUrl_strips_witness :
  Titles.extractTitleFromUrl reference_URL
    (Some "https://cdn.example.com/media/2024/holiday.final.mp4?sig=1")
  = "holiday.final".
Proof.
  apply (extractTitleFromUrl_strips reference_URL _
           (mkURL "https:" "cdn.example.com" "/media/2024/holiday.final.mp4")
           "/media/2024" "holiday.final" "mp4");
    first [reflexivity | discriminate].
Defined.

(** The edge cases of the title from a URL: no URL, the empty one, one
    that does not parse, or a last path segment without a dot, give the
    empty title. *)
Lemma extractTitleFromUrl_none (new_URL : string -> option URL)
    (url : option string) :
  (url = None \/ url = Some "" \/
   (exists u, url = Some u /\ new_URL u = None)) ->
  Titles.extractTitleFromUrl new_URL url = "".
Proof.
  intros [-> | [-> | (u & -> & H)]]; [reflexivity | reflexivity |].
  unfold Titles.extractTitleFromUrl. rewrite H. now destruct (negb (truthy u)).
Qed.

(** The parts of a path that a directory and a file end. *)
Lemma split_dir_file (dir name file : list ascii) :
  existsb (Ascii.eqb "/") name = false ->
  existsb (Ascii.eqb "/") file = false ->
  split "/" (dir ++ "/"%char :: name ++ "/"%char :: file)
  = split "/" dir ++ [name; file].
Proof.
  intros Hn Hf. rewrite split_app, split_app.
  now rewrite (split_whole _ name Hn), (split_whole _ file Hf).
Qed.

(** The title of a stream whose manifest lies in a directory with a name
    of its own (more than three characters, no manifest extension) is that
    name, dashes and underscores turned into spaces, sanitized. *)
Theorem extractTitleFromStreamingUrl_directory
    (new_URL : string -> option URL) (url platform : string) (urlObj : URL)
    (dir name file : string) :
  new_URL url = Some urlObj ->
  pathname urlObj = (dir ++ "/" ++ name ++ "/" ++ file)%string ->
  includes name "/" = false -> includes file "/" = false ->
  3 < String.length name ->
  test manifestNamePattern name = false ->
  test manifestNamePattern file = true ->
  Titles.extractTitleFromStreamingUrl new_URL url platform
  = sanitizeTitle (replace_all name (Chr is_dash) " ").
Proof.
  intros Hparse Hpath Hname Hfile Hlen Hn Hf.
  unfold Titles.extractTitleFromStreamingUrl. rewrite Hparse, Hpath.
  rewrite !chars_app.
  change (chars "/" ++ chars name ++ chars "/" ++ chars file)
    with ("/"%char :: chars name ++ "/"%char :: chars file).
  apply includes_char_false in Hname, Hfile.
  rewrite split_dir_file by assumption.
  rewrite map_app, List.filter_app, rev_app_distr.
  cbn [map List.filter]. rewrite !from_chars_chars.
  assert (Hmn : Titles.meaningful name = true).
  { unfold Titles.meaningful. rewrite Hn.
    replace (truthy name) with true
      by (symmetry; apply truthy_true; intros ->; cbn in Hlen; lia).
    cbn [negb andb]. now apply Nat.ltb_lt. }
  assert (Hmf : Titles.meaningful file = false).
  { unfold Titles.meaningful. rewrite Hf. now rewrite andb_false_r. }
  replace (truthy name) with true
    by (symmetry; apply truthy_true; intros ->; cbn in Hlen; lia).
  destruct (truthy file); cbn [rev app find]; rewrite ?Hmf, Hmn; reflexivity.
Qed.

Lemma extractTitleFromStreamingUrl_directory_witness :
  Titles.extractTitleFromStreamingUrl reference_URL
    "https://cdn.example.com/live/my-show_2024/index.m3u8?token=1" "generic"
  = "my show 2024".
Proof.
  rewrite (extractTitleFromStreamingUrl_directory reference_URL _ "generic"
             (mkURL "https:" "cdn.example.com" "/live/my-show_2024/index.m3u8")
             "/live" "my-show_2024" "index.m3u8");
    first [reflexivity | vm_compute; lia].
Defined.

(** Without a part of the path to take the title from, the title names
    the platform: the manifest of the scenarios has the directory [hls],
    of three characters. *)
Example extractTitleFromStreamingUrl_fallback :
  Titles.extractTitleFromStreamingUrl reference_URL manifest_url "youtube"
  = "youtube Stream" /\
  Titles.extractTitleFromStreamingUrl reference_URL "not a url" "generic"
  = "generic Stream".
Proof. split; vm_compute; reflexivity. Qed.

(** ** The titles of the candidates *)

Lemma tidyb_tidy (s : string) : tidyb s = true -> tidy s.
Proof.
  unfold tidyb. rewrite !andb_true_iff, negb_true_iff.
  intros [[[Hlen Hres] Hsp] Hst].
  split; [now apply Nat.leb_le |]. split.
  - apply Forall_forall. intros c Hc.
    rewrite forallb_forall in Hres. apply list_elem_of_In, Hres in Hc.
    now apply negb_true_iff.
  - split; [now apply (single_spaced_Forall false) |]. split; [| assumption].
    intros (pre & post & H).
    now apply (single_spaced_no_double false _ pre post Hsp).
Qed.

Lemma detectPlatform_range (hostname : string) :
  In (detectPlatform hostname) platformNames.
Proof.
  unfold detectPlatform, platformNames.
  repeat match goal with
         | |- context [if ?b then _ else _] => destruct b
         end; cbn; tauto.
Qed.

Lemma getStreamingFormat_range (url : string) :
  In (getStreamingFormat url) streamingFormats.
Proof.
  unfold getStreamingFormat, streamingFormats.
  repeat match goal with
         | |- context [if ?b then _ else _] => destruct b
         end; cbn; tauto.
Qed.

(** The default titles of the streaming candidates are tidy. *)
Lemma stream_titles_tidy (platform format : string) :
  In platform platformNames -> In format streamingFormats ->
  tidy (platform ++ " Stream") /\
  tidy (platform ++ " " ++ format ++ " Stream").
Proof.
  intros Hp Hf.
  assert (H : forallb (fun p =>
                tidyb (p ++ " Stream")
                && forallb (fun f => tidyb (p ++ " " ++ f ++ " Stream"))
                     streamingFormats) platformNames = true)
    by (vm_compute; reflexivity).
  rewrite forallb_forall in H. apply H in Hp.
  apply andb_true_iff in Hp as [H1 H2].
  rewrite forallb_forall in H2. split; apply tidyb_tidy; auto.
Qed.

(** A text that [trim] leaves something of is not white space only. *)
Lemma trim_not_blank (s : string) :
  truthy (trim s) = true -> forallb is_space (chars (trim s)) = false.
Proof.
  unfold trim. rewrite truthy_from_chars, chars_from_chars.
  destruct (trim_chars (chars s)) as [|c l] eqn:E; [discriminate |]. intros _.
  cbn [forallb]. rewrite (trim_chars_head (chars s) c); [reflexivity |].
  now rewrite E.
Qed.

Lemma sanitizeTitle_trim_nonempty (s : string) :
  truthy (trim s) = true -> sanitizeTitle (trim s) <> "".
Proof.
  intros H E. apply sanitizeTitle_empty in E.
  rewrite trim_not_blank in E by assumption. discriminate.
Qed.

Section PageTitles.

Variable new_URL : string -> option URL.
Variable doc : document.
Variable el_title : element -> string.
Variable getAttribute : element -> string -> option string.
Variable parentElement : element -> option element.
Variable el_content : element -> option string.

Lemma titleFromText_tidy (titleSelectors : list string) (fallback t : string) :
  tidy fallback -> fallback <> "" ->
  Titles.titleFromText doc titleSelectors fallback = Normal t ->
  tidy t /\ t <> "".
Proof.
  intros Hf Hne. induction titleSelectors as [|selector rest IH];
    cbn [Titles.titleFromText].
  - intros [= <-]. auto.
  - unfold and_then, Titles.doc_querySelector.
    destruct (querySelectorAll doc selector) as [l|e]; [| discriminate].
    destruct (head l) as [e|]; [| exact IH].
    destruct (truthy (trim (el_textContent e))) eqn:E; [| exact IH].
    intros [= <-]. split; [apply sanitizeTitle_is_tidy |].
    now apply sanitizeTitle_trim_nonempty.
Qed.

Lemma titleFromTextOrContent_tidy (titleSelectors : list string)
    (fallback t : string) :
  tidy fallback -> fallback <> "" ->
  Titles.titleFromTextOrContent doc el_content titleSelectors fallback
  = Normal t ->
  tidy t /\ t <> "".
Proof.
  intros Hf Hne. induction titleSelectors as [|selector rest IH];
    cbn [Titles.titleFromTextOrContent].
  - intros [= <-]. auto.
  - unfold and_then, Titles.doc_querySelector.
    destruct (querySelectorAll doc selector) as [l|e]; [| discriminate].
    destruct (head l) as [e|]; [| exact IH].
    destruct (or_else _ _) as [title|]; [| exact IH].
    destruct (truthy title && truthy (trim title)) eqn:E; [| exact IH].
    apply andb_true_iff in E as [_ E].
    intros [= <-]. split; [apply sanitizeTitle_is_tidy |].
    now apply sanitizeTitle_trim_nonempty.
Qed.

Lemma extractVideoTitle_tidy (now : N) (video : element)
    (source : option element) (t : string) :
  Titles.extractVideoTitle new_URL el_title getAttribute parentElement now
    video source = Normal t ->
  tidy t.
Proof.
  unfold Titles.extractVideoTitle, and_then.
  destruct (if negb _ then _ else _) as [title|e]; [| discriminate].
  intros [= <-]. apply sanitizeTitle_is_tidy.
Qed.

Lemma extractTitleFromStreamingUrl_tidy (url platform : string) :
  In platform platformNames ->
  tidy (Titles.extractTitleFromStreamingUrl new_URL url platform).
Proof.
  intros Hp. unfold Titles.extractTitleFromStreamingUrl.
  assert (Hd : tidy (platform ++ " Stream"))
    by (apply (stream_titles_tidy platform "HLS"); cbn; tauto).
  destruct (new_URL url); [| exact Hd].
  destruct (find _ _); [apply sanitizeTitle_is_tidy | exact Hd].
Qed.

Ltac fallback_tidy := first [apply tidyb_tidy; vm_compute; reflexivity | discriminate].

(** The methods of the page return tidy titles. *)
Lemma page_titles_tidy (resolver : title_resolver) :
  page_titles new_URL doc el_title getAttribute parentElement el_content
    resolver ->
  tidy_resolver resolver.
Proof.
  intros (Hv & Htt & Hfb & Hyt & Hig & Htw & Htc & Hs).
  unfold tidy_resolver. repeat apply conj.
  - intros video source t. destruct (Hv video source) as [now ->].
    apply extractVideoTitle_tidy.
  - intros e t. rewrite Htt. intros H.
    eapply titleFromText_tidy in H; [tauto | fallback_tidy ..].
  - intros e t. rewrite Hfb. intros H.
    eapply titleFromText_tidy in H; [tauto | fallback_tidy ..].
  - intros e t. rewrite Hyt. intros H.
    eapply titleFromTextOrContent_tidy in H; [tauto | fallback_tidy ..].
  - intros e t. rewrite Hig. intros H.
    eapply titleFromTextOrContent_tidy in H; [tauto | fallback_tidy ..].
  - intros e t. rewrite Htw. intros H.
    eapply titleFromTextOrContent_tidy in H; [tauto | fallback_tidy ..].
  - intros e t. rewrite Htc. intros H.
    eapply titleFromTextOrContent_tidy in H; [tauto | fallback_tidy ..].
  - intros url platform t Hp. rewrite Hs. intros [= <-].
    now apply extractTitleFromStreamingUrl_tidy.
Qed.

Lemma resolver_page_titles (now : N) :
  page_titles new_URL doc el_title getAttribute parentElement el_content
    (Titles.resolver new_URL doc el_title getAttribute parentElement
       el_content now).
Proof.
  unfold page_titles. repeat apply conj; try reflexivity.
  intros video source. now exists now.
Qed.

(** The title that a blob candidate gets from the title code of the page
    is tidy, and on the six platforms it is never empty: the page gives a
    text, or the method falls back on the name of the platform. *)
Theorem extractPlatformTitle_tidy (now : N) (el : element)
    (platform t : string) :
  extractPlatformTitle
    (Titles.resolver new_URL doc el_title getAttribute parentElement
       el_content now) el platform = Normal t ->
  tidy t /\
  (In platform ["tiktok"; "facebook"; "youtube"; "instagram"; "twitter";
                "twitch"] -> t <> "").
Proof.
  unfold extractPlatformTitle. cbn [Titles.resolver extractTikTokTitle
    extractFacebookTitle extractYouTubeTitle extractInstagramTitle
    extractTwitterTitle extractTwitchTitle extractVideoTitle].
  repeat match goal with
         | |- context [String.eqb platform ?s] =>
             destruct (String.eqb_spec platform s) as [->|?]
         end;
    try (intros H;
         first [ eapply titleFromText_tidy in H; [| fallback_tidy ..]
               | eapply titleFromTextOrContent_tidy in H; [| fallback_tidy ..] ];
         tauto).
  intros H. apply extractVideoTitle_tidy in H. split; [assumption |].
  cbn. intros Hin. exfalso. intuition congruence.
Qed.

End PageTitles.

Lemma extractPlatformTitle_tidy_witness :
  extractPlatformTitle
    (Titles.resolver reference_URL tiktok_blob_page (fun _ => "")
       (fun _ _ => None) (fun _ => None) (fun _ => None) 0)
    (video_element tiktok_blob_url) "tiktok" = Normal "TikTok Video" /\
  tidy "TikTok Video" /\ "TikTok Video" <> "".
Proof.
  split; [reflexivity |].
  destruct (extractPlatformTitle_tidy reference_URL tiktok_blob_page
              (fun _ => "") (fun _ _ => None) (fun _ => None) (fun _ => None)
              0%N (video_element tiktok_blob_url) "tiktok" "TikTok Video"
              eq_refl) as [Ht Hne].
  split; [exact Ht |]. apply Hne. cbn. tauto.
Defined.

(** ** What a scan returns *)

(** A strategy step that binds the outcome of a host call. *)
Lemma appends_lift_bind {A B : Type} (P : candidate -> Prop)
    (c : completion B) (f : B -> ST (list candidate) A) :
  (forall b, c = Normal b -> appends P (f b)) ->
  appends P (bind (lift c) f).
Proof.
  intros Hf videos. unfold bind, lift. destruct c as [b|e].
  - apply Hf. reflexivity.
  - exists []. now rewrite app_nil_r.
Qed.

(** Breaks a strategy down to its pushes, keeping what each host call
    returned. *)
Ltac appends_steps_eq :=
  repeat first
    [ apply appends_ret
    | apply appends_lift
    | apply appends_forEach; intros ?
    | apply appends_lift_bind; intros ? ?
    | apply appends_bind; [| intros ?]
    | apply appends_try_catch; [| intros ?]
    | match goal with
      | |- appends _ (match ?x with _ => _ end) => destruct x eqn:?
      | |- appends _ (if ?b then _ else _) => destruct b eqn:?
      end ].

Section TidyStrategies.

Variable new_URL : string -> option URL.
Variable JSON_parse : string -> option playerData.
Variable resolver : title_resolver.
Variable doc : document.

Hypothesis Hresolver : tidy_resolver resolver.

Lemma extractPlatformTitle_resolver_tidy (el : element) (platform t : string) :
  extractPlatformTitle resolver el platform = Normal t -> tidy t.
Proof.
  destruct Hresolver as (Hv & Htt & Hfb & Hyt & Hig & Htw & Htc & _).
  unfold extractPlatformTitle.
  repeat match goal with
         | |- context [if ?b then _ else _] => destruct b
         end; eauto.
Qed.

Ltac push_titled :=
  apply appends_push; unfold titled; cbn [title generic_candidate
    platform_candidate blob_candidate streaming_candidate];
  destruct Hresolver as (Hv & Htt & Hfb & Hyt & Hig & Htw & Htc & Hs);
  eauto using extractPlatformTitle_resolver_tidy.

Lemma findDirectVideoElements_titled :
  appends titled (findDirectVideoElements new_URL resolver doc).
Proof. unfold findDirectVideoElements. appends_steps_eq. push_titled. Qed.

Lemma findSourceElements_titled :
  appends titled (findSourceElements new_URL resolver doc).
Proof. unfold findSourceElements. appends_steps_eq. push_titled. Qed.

Lemma findBlobVideos_titled (platform : string) :
  appends titled (findBlobVideos resolver doc platform).
Proof. unfold findBlobVideos. appends_steps_eq. push_titled. Qed.

Lemma findPlatformVideos_titled (selectors : list string)
    (titleOf : option element -> completion string) (tag : string) :
  (forall e t, titleOf e = Normal t -> tidy t) ->
  appends titled
    (findPlatformVideos new_URL resolver doc selectors titleOf tag).
Proof.
  intros Htitle. unfold findPlatformVideos.
  apply appends_bind; [| intros _; apply findBlobVideos_titled].
  appends_steps_eq. apply appends_push. unfold titled. cbn. eauto.
Qed.

Lemma findPlatformSpecificVideos_titled (platform : string) :
  appends titled (findPlatformSpecificVideos new_URL resolver doc platform).
Proof.
  destruct Hresolver as (Hv & Htt & Hfb & Hyt & Hig & Htw & Htc & Hs).
  unfold findPlatformSpecificVideos.
  repeat match goal with
         | |- appends _ (if ?b then _ else _) => destruct b
         end;
    try (apply findPlatformVideos_titled; assumption).
  apply appends_ret.
Qed.

Lemma streaming_push_titled (tag : string) (titleOf : completion string)
    (default : string -> string) (u : string) :
  (forall t, titleOf = Normal t -> tidy t) ->
  tidy (default (getStreamingFormat u)) ->
  appends titled (streaming_push tag titleOf default u).
Proof.
  intros Htitle Hdefault. unfold streaming_push.
  apply appends_lift_bind. intros ttl Httl. apply appends_push.
  unfold titled. cbn. destruct (truthy ttl); auto.
Qed.

Lemma push_streaming_titled (platform u : string) :
  In platform platformNames ->
  appends titled (push_streaming resolver platform u).
Proof.
  intros Hp. unfold push_streaming. apply streaming_push_titled.
  - destruct Hresolver as (_ & _ & _ & _ & _ & _ & _ & Hs). eauto.
  - apply stream_titles_tidy; [assumption | apply getStreamingFormat_range].
Qed.

Lemma scanPageForStreamingUrls_titled (platform : string) :
  In platform platformNames -> platform <> "youtube" ->
  appends titled (scanPageForStreamingUrls JSON_parse resolver doc platform).
Proof.
  intros Hp Hyt.
  destruct Hresolver as (Hv & Htt & Hfb & _).
  unfold scanPageForStreamingUrls.
  apply appends_bind; [apply appends_lift | intros scripts].
  apply appends_bind.
  - apply appends_forEach. intros script.
    destruct (truthy _); [| apply appends_ret].
    apply appends_forEach. intros u. now apply push_streaming_titled.
  - intros _. destruct (String.eqb_spec platform "youtube"); [contradiction |].
    destruct (String.eqb platform "facebook");
      [| destruct (String.eqb platform "tiktok"); [| apply appends_ret]].
    + unfold findFacebookStreamingUrls.
      apply appends_bind; [apply appends_lift | intros scripts'].
      apply appends_forEach. intros script.
      destruct (_ && _); [| apply appends_ret].
      apply appends_forEach. intros u. apply streaming_push_titled.
      * apply Hfb.
      * apply tidyb_tidy. vm_compute. reflexivity.
    + unfold findTikTokStreamingUrls.
      apply appends_bind; [apply appends_lift | intros scripts'].
      apply appends_forEach. intros script.
      destruct (_ && _); [| apply appends_ret].
      apply appends_forEach. intros u. apply streaming_push_titled.
      * apply Htt.
      * apply tidyb_tidy. vm_compute. reflexivity.
Qed.

Lemma strategies_titled (streamingUrls : list string) :
  detectPlatform (hostname doc) <> "youtube" ->
  appends titled (strategies new_URL JSON_parse resolver doc streamingUrls).
Proof.
  intros Hyt. unfold strategies.
  apply appends_bind; [apply findDirectVideoElements_titled | intros _].
  apply appends_bind; [apply findSourceElements_titled | intros _].
  apply appends_bind; [apply findPlatformSpecificVideos_titled | intros _].
  unfold findStreamingVideos. apply appends_bind.
  - apply appends_forEach. intros u.
    apply push_streaming_titled, detectPlatform_range.
  - intros _. apply scanPageForStreamingUrls_titled;
      [apply detectPlatform_range | assumption].
Qed.

End TidyStrategies.

(** Off YouTube, every candidate that a scan returns has a tidy title: at
    most 100 characters, none of them reserved in file names, no white space
    but single spaces, none in front.  The title code of the page sanitizes
    what it reads, and the default titles are tidy. *)
Theorem scan_titles_tidy (new_URL : string -> option URL)
    (JSON_parse : string -> option playerData) (doc : document)
    (el_title : element -> string)
    (getAttribute : element -> string -> option string)
    (parentElement : element -> option element)
    (el_content : element -> option string)
    (resolver : title_resolver)
    (streamingUrls : list string) (videos0 result : list candidate) :
  page_titles new_URL doc el_title getAttribute parentElement el_content
    resolver ->
  detectPlatform (hostname doc) <> "youtube" ->
  scan new_URL JSON_parse resolver doc streamingUrls videos0 = Normal result ->
  Forall titled result.
Proof.
  intros Hpage Hyt. apply page_titles_tidy in Hpage.
  rewrite scan_outcome.
  destruct (strategies_titled new_URL JSON_parse resolver doc Hpage
              streamingUrls Hyt []) as (new & E & Hnew).
  destruct (strategies _ _ _ _ _ []) as [[[]|e] collected]; cbn in E; subst.
  - intros [= <-]. now apply Forall_filter_isValidVideo, Forall_removeDuplicates.
  - intros [= <-]. constructor.
Qed.

Lemma scan_titles_tidy_witness :
  scan reference_URL no_JSON
    (Titles.resolver reference_URL clip_page (fun _ => "") (fun _ _ => None)
       (fun _ => None) (fun _ => None) 0)
    clip_page [] []
  = Normal [generic_candidate clip_url "direct" "clip"
              (video_element clip_url) None None] /\
  Forall titled
    [generic_candidate clip_url "direct" "clip" (video_element clip_url)
       None None].
Proof.
  assert (H : scan reference_URL no_JSON
                (Titles.resolver reference_URL clip_page (fun _ => "")
                   (fun _ _ => None) (fun _ => None) (fun _ => None) 0)
                clip_page [] []
              = Normal [generic_candidate clip_url "direct" "clip"
                          (video_element clip_url) None None])
    by (vm_compute; reflexivity).
  split; [exact H |].
  apply (scan_titles_tidy reference_URL no_JSON clip_page (fun _ => "")
           (fun _ _ => None) (fun _ => None) (fun _ => None) _ [] [] _
           (resolver_page_titles _ _ _ _ _ _ 0%N)
           ltac:(discriminate) H).
Defined.

(** On YouTube the candidate of the player response takes its title from
    the title of the document as it is: the colon stays. *)
Example scan_youtube_title_raw :
  scan reference_URL manifest_JSON plain_resolver youtube_escaped_page [] []
  = Normal [streaming_candidate manifest_url "youtube" "HLS" "Talk: part 1"] /\
  tidyb "Talk: part 1" = false.
Proof. split; vm_compute; reflexivity. Qed.

(** *** Streaming candidates have a title *)

Lemma app_not_empty (a b : string) : b <> "" -> (a ++ b)%string <> "".
Proof. destruct a; [auto | discriminate]. Qed.

Section NamedStreams.

Variable new_URL : string -> option URL.
Variable JSON_parse : string -> option playerData.
Variable resolver : title_resolver.
Variable doc : document.

Ltac push_unnamed :=
  apply appends_push; unfold named_stream; cbn; discriminate.

Lemma streaming_push_named (tag : string) (titleOf : completion string)
    (default : string -> string) (u : string) :
  default (getStreamingFormat u) <> "" ->
  appends named_stream (streaming_push tag titleOf default u).
Proof.
  intros Hdefault. unfold streaming_push. appends_steps.
  apply appends_push. intros _. cbn.
  destruct (truthy b) eqn:E; [now apply truthy_true | assumption].
Qed.

Lemma push_streaming_named (platform u : string) :
  appends named_stream (push_streaming resolver platform u).
Proof.
  unfold push_streaming. apply streaming_push_named.
  apply app_not_empty. discriminate.
Qed.

Lemma extractYouTubeStreamingData_named (sd : streamingData) :
  appends named_stream (extractYouTubeStreamingData doc sd).
Proof.
  unfold extractYouTubeStreamingData. appends_steps;
    apply appends_push; intros _; cbn;
    (destruct (truthy (replace _ _ _)) eqn:E;
     [now apply truthy_true | discriminate]).
Qed.

Lemma strategies_named (streamingUrls : list string) :
  appends named_stream
    (strategies new_URL JSON_parse resolver doc streamingUrls).
Proof.
  unfold strategies.
  apply appends_bind; [| intros _].
  { unfold findDirectVideoElements. appends_steps. push_unnamed. }
  apply appends_bind; [| intros _].
  { unfold findSourceElements. appends_steps. push_unnamed. }
  apply appends_bind; [| intros _].
  { unfold findPlatformSpecificVideos, findTikTokVideos, findFacebookVideos,
      findYouTubeVideos, findInstagramVideos, findTwitterVideos,
      findTwitchVideos, findPlatformVideos, findBlobVideos.
    appends_steps; push_unnamed. }
  unfold findStreamingVideos, scanPageForStreamingUrls.
  apply appends_bind; [| intros _].
  { apply appends_forEach. intros u. apply push_streaming_named. }
  apply appends_bind; [apply appends_lift | intros scripts].
  apply appends_bind; [| intros _].
  { apply appends_forEach. intros script.
    destruct (truthy _); [| apply appends_ret].
    apply appends_forEach. intros u. apply push_streaming_named. }
  unfold findYouTubeStreamingUrls, findFacebookStreamingUrls,
    findTikTokStreamingUrls.
  repeat match goal with
         | |- appends _ (if ?b then _ else _) => destruct b
         end; [| | | apply appends_ret].
  - apply appends_bind; [apply appends_lift | intros scripts'].
    apply appends_forEach. intros script.
    destruct (_ && _); [| apply appends_ret].
    apply appends_try_catch; [| intros _; apply appends_ret].
    repeat match goal with
           | |- appends _ (match ?x with _ => _ end) => destruct x
           end;
      first [ apply extractYouTubeStreamingData_named
            | apply appends_ret | apply appends_lift ].
  - apply appends_bind; [apply appends_lift | intros scripts'].
    apply appends_forEach. intros script.
    destruct (_ && _); [| apply appends_ret].
    apply appends_forEach. intros u. apply streaming_push_named. discriminate.
  - apply appends_bind; [apply appends_lift | intros scripts'].
    apply appends_forEach. intros script.
    destruct (_ && _); [| apply appends_ret].
    apply appends_forEach. intros u. apply streaming_push_named. discriminate.
Qed.

(** Every streaming candidate that a scan returns has a title that is not
    empty, whatever the title code answers: each literal of the streaming
    strategies falls back on a default title. *)
Theorem scan_streams_named (streamingUrls : list string)
    (videos0 : list candidate) :
  exists result,
    scan new_URL JSON_parse resolver doc streamingUrls videos0 = Normal result /\
    Forall named_stream result.
Proof.
  rewrite scan_outcome.
  destruct (strategies_named streamingUrls []) as (new & E & Hnew).
  destruct (strategies _ _ _ _ _ []) as [[[]|e] collected]; cbn in E; subst.
  - eexists. split; [reflexivity |].
    now apply Forall_filter_isValidVideo, Forall_removeDuplicates.
  - exists []. split; [reflexivity | constructor].
Qed.

(** *** Locators *)

Lemma isValidVideo_long_locator (c : candidate) :
  isValidVideo c = true -> long_locator c.
Proof.
  unfold isValidVideo, long_locator.
  destruct (isStreaming c) as [[]|] eqn:Es; cbn [is_true_opt].
  - destruct (url c) as [u|]; [| discriminate].
    rewrite andb_true_iff, Nat.ltb_lt. intros [Ht Hlen].
    exists u. unfold or_else. cbn. rewrite Ht.
    split; [reflexivity |]. split; [lia | congruence].
  - destruct (or_else (url c) (src c)) as [videoUrl|]; [| discriminate].
    destruct (negb (truthy videoUrl) || _); [discriminate |].
    destruct (Nat.ltb_spec (String.length videoUrl) 20); [discriminate |].
    intros _. exists videoUrl. split; [reflexivity |]. split; lia.
  - destruct (or_else (url c) (src c)) as [videoUrl|]; [| discriminate].
    destruct (negb (truthy videoUrl) || _); [discriminate |].
    destruct (Nat.ltb_spec (String.length videoUrl) 20); [discriminate |].
    intros _. exists videoUrl. split; [reflexivity |]. split; lia.
Qed.

(** Equal keys in a list of pairwise different keys belong to one
    element. *)
Lemma NoDup_map_eq {A B : Type} (f : A -> B) (l : list A) (x y : A) :
  NoDup (map f l) -> x ∈ l -> y ∈ l -> f x = f y -> x = y.
Proof.
  induction l as [|a l IH]; cbn [map]; [intros _ H; inversion H |].
  rewrite NoDup_cons. intros [Ha Hl] Hx Hy E.
  apply elem_of_cons in Hx as [-> | Hx]; apply elem_of_cons in Hy as [-> | Hy];
    auto.
  - exfalso. apply Ha. rewrite E.
    apply list_elem_of_In, in_map, list_elem_of_In, Hy.
  - exfalso. apply Ha. rewrite <- E.
    apply list_elem_of_In, in_map, list_elem_of_In, Hx.
Qed.

Lemma NoDup_map_filter {A B : Type} (f : A -> B) (p : A -> bool) (l : list A) :
  NoDup (map f l) -> NoDup (map f (List.filter p l)).
Proof.
  induction l as [|a l IH]; cbn [map List.filter]; [auto |].
  rewrite NoDup_cons. intros [Ha Hl]. destruct (p a); [| auto].
  cbn [map]. apply NoDup_cons. split; [| auto].
  intros Hin. apply Ha.
  apply list_elem_of_In, in_map_iff in Hin as (x & E & Hx).
  apply filter_In in Hx as [Hx _].
  apply list_elem_of_In, in_map_iff. eauto.
Qed.

(** Every candidate that a scan returns has a locator of at least eleven
    characters, and of at least twenty unless it is a streaming candidate:
    the final filter lets nothing shorter through. *)
Theorem scan_locators_long (streamingUrls : list string)
    (videos0 : list candidate) :
  exists result,
    scan new_URL JSON_parse resolver doc streamingUrls videos0 = Normal result /\
    Forall long_locator result.
Proof.
  rewrite scan_outcome.
  destruct (strategies _ _ _ _ _ []) as [[[]|e] collected].
  - eexists. split; [reflexivity |].
    apply Forall_forall. intros c Hc.
    apply list_elem_of_In, filter_In in Hc as [_ Hc].
    now apply isValidVideo_long_locator.
  - exists []. split; [reflexivity | constructor].
Qed.

(** The [src] values of the candidates that a scan returns are pairwise
    different, the absent one included: since the platform, blob and
    streaming strategies write [url] and no [src], a scan returns at most one
    of all the candidates that they found. *)
Theorem scan_one_candidate_without_src (streamingUrls : list string)
    (videos0 : list candidate) :
  exists result,
    scan new_URL JSON_parse resolver doc streamingUrls videos0 = Normal result /\
    NoDup (map src result) /\
    (forall c1 c2, c1 ∈ result -> c2 ∈ result ->
                   url_only c1 -> url_only c2 -> c1 = c2).
Proof.
  assert (H : exists result,
             scan new_URL JSON_parse resolver doc streamingUrls videos0
             = Normal result /\ NoDup (map src result)).
  { rewrite scan_outcome.
    destruct (strategies _ _ _ _ _ []) as [[[]|e] collected].
    - eexists. split; [reflexivity |].
      apply NoDup_map_filter. apply (filter_unseen_NoDup src).
    - exists []. split; [reflexivity | constructor]. }
  destruct H as (result & Hscan & Hnd). exists result.
  split; [assumption |]. split; [assumption |].
  intros c1 c2 H1 H2 [_ E1] [_ E2].
  apply (NoDup_map_eq src result); congruence.
Qed.

End NamedStreams.

(** ** What the text scanner returns *)

Lemma unique_from_spec (seen : gset string) (urls : list string) :
  NoDup (unique_from seen urls) /\
  forall u, u ∈ unique_from seen urls <-> u ∈ urls /\ u ∉ seen.
Proof.
  revert seen. induction urls as [|a urls IH]; intros seen; cbn [unique_from].
  - split; [constructor |]. intros u. split; [intros H; inversion H |].
    intros [H _]. inversion H.
  - case_bool_decide as Ha.
    + destruct (IH seen) as [Hnd Hin]. split; [assumption |].
      intros u. rewrite Hin, elem_of_cons. split; [tauto |].
      intros [[-> | H] Hu]; [contradiction | tauto].
    + destruct (IH ({[a]} ∪ seen)) as [Hnd Hin]. split.
      * constructor; [| assumption]. rewrite Hin.
        intros [_ H]. apply H, elem_of_union. left. now apply elem_of_singleton.
      * intros u. rewrite !elem_of_cons, Hin, elem_of_union, elem_of_singleton.
        split.
        -- intros [-> | [H Hu]]; [tauto |]. split; [tauto |]. tauto.
        -- intros [[-> | H] Hu]; [tauto |].
           destruct (decide (u = a)) as [->|Hne]; [tauto |]. right. tauto.
Qed.

Lemma lower_char_quote (c : ascii) :
  (Ascii.eqb (lower_char c) dquote || Ascii.eqb (lower_char c) squote)
  = (Ascii.eqb c dquote || Ascii.eqb c squote).
Proof. destruct c as [[] [] [] [] [] [] [] []]; reflexivity. Qed.

Lemma strip_quotes_app (a b : list ascii) :
  strip_quotes (a ++ b) = strip_quotes a ++ strip_quotes b.
Proof. apply List.filter_app. Qed.

Lemma strip_quotes_lower (l : list ascii) :
  map lower_char (strip_quotes l) = strip_quotes (map lower_char l).
Proof.
  unfold strip_quotes. induction l as [|c l IH]; [reflexivity |].
  cbn [List.filter map]. rewrite lower_char_quote.
  destruct (Ascii.eqb c dquote || Ascii.eqb c squote); cbn [negb map];
    now rewrite IH.
Qed.

Lemma strip_quotes_free (l : list ascii) :
  Forall (fun c => c <> dquote /\ c <> squote) (strip_quotes l).
Proof.
  unfold strip_quotes. apply Forall_forall. intros c Hc.
  apply list_elem_of_In, filter_In in Hc as [_ Hc].
  apply negb_true_iff, orb_false_iff in Hc as [H1 H2].
  split; intros ->; [now rewrite Ascii.eqb_refl in H1 | now rewrite Ascii.eqb_refl in H2].
Qed.

Lemma contains_unquoted (s w : string) :
  strip_quotes (chars w) = chars w ->
  contains s w -> contains (unquoted s) w.
Proof.
  intros Hw (pre & post & H). exists (strip_quotes pre), (strip_quotes post).
  unfold unquoted. rewrite chars_from_chars, H, !strip_quotes_app. now rewrite Hw.
Qed.

Lemma toLowerCase_unquoted (s : string) :
  toLowerCase (unquoted s) = unquoted (toLowerCase s).
Proof.
  apply chars_inj. unfold unquoted.
  rewrite chars_toLowerCase, !chars_from_chars, chars_toLowerCase.
  apply strip_quotes_lower.
Qed.

(** Taking the quotes out of a streaming URL leaves a streaming URL. *)
Lemma streaming_marker_unquoted (url : string) :
  streaming_marker url -> streaming_marker (unquoted url).
Proof.
  unfold streaming_marker. rewrite toLowerCase_unquoted.
  intros H.
  repeat (destruct H as [H | H];
          [ match type of H with
            | contains _ ?w => apply (contains_unquoted _ w eq_refl) in H
            end; tauto |]).
  destruct H as [H | H].
  - destruct H as [pre H].
    do 9 right. left. exists (strip_quotes pre).
    unfold unquoted. rewrite chars_from_chars, H, strip_quotes_app. reflexivity.
  - destruct H as (pre & d & post & H & Hd).
    do 10 right. exists (strip_quotes pre), d, (strip_quotes post).
    split; [| assumption].
    unfold unquoted. rewrite chars_from_chars, H, !strip_quotes_app.
    do 2 f_equal. unfold strip_quotes. cbn [List.filter].
    replace (Ascii.eqb d dquote || Ascii.eqb d squote) with false; [reflexivity |].
    clear -Hd. destruct d as [[] [] [] [] [] [] [] []]; try reflexivity; discriminate.
Qed.

Lemma urls_of_matches_spec (ms : list rmatched) (u : string) :
  u ∈ urls_of_matches ms ->
  exists raw, u = unquoted raw /\ isStreamingUrl (JString raw) = true.
Proof.
  unfold urls_of_matches. intros H.
  apply list_elem_of_In, in_flat_map in H as (m & _ & H).
  cbv zeta in H.
  destruct (truthy _ && isStreamingUrl _) eqn:E; [| destruct H].
  destruct H as [<- | []]. apply andb_true_iff in E as [_ E].
  eexists. split; [| exact E]. unfold unquoted. now rewrite chars_from_chars.
Qed.

(** Every URL that the text scanner returns is a streaming URL for
    [isStreamingUrl], holds no quote character, and is returned once. *)
Theorem extractStreamingUrlsFromText_sound (text : string) :
  NoDup (extractStreamingUrlsFromText text) /\
  Forall (fun u => isStreamingUrl (JString u) = true /\ quote_free u)
    (extractStreamingUrlsFromText text).
Proof.
  unfold extractStreamingUrlsFromText.
  destruct (unique_from_spec ∅
              (flat_map (fun pattern =>
                 urls_of_matches
                   (exec_all (S (String.length text)) pattern (chars text)))
                 extractPatterns)) as [Hnd Hin].
  split; [exact Hnd |]. apply Forall_forall. intros u Hu.
  apply Hin in Hu as [Hu _].
  apply list_elem_of_In, in_flat_map in Hu as (pattern & _ & Hu).
  apply list_elem_of_In, urls_of_matches_spec in Hu as (raw & -> & Hraw).
  split.
  - apply isStreamingUrl_iff, streaming_marker_unquoted, isStreamingUrl_iff, Hraw.
  - unfold quote_free, unquoted. rewrite chars_from_chars.
    apply strip_quotes_free.
Qed.

(** ** What the request wrappers record *)

Lemma observe_spec (urls : list string) (r : page_request) (u : string) :
  u ∈ observe urls r <->
  u ∈ urls \/ (requested r = Some u /\ isStreamingUrl (JString u) = true).
Proof.
  destruct r as [v|v]; cbn [observe].
  - rewrite observe_open_spec.
    destruct v; cbn [requested]; split;
      intros [H | [H1 H2]]; auto; try discriminate; right;
      (split; [congruence |]); congruence.
  - rewrite observe_fetch_spec.
    destruct v; cbn [requested]; split;
      intros [H | [H1 H2]]; auto; try (destruct H1; discriminate);
      try discriminate; right.
    + destruct H1 as [[= ->] | [=]]. auto.
    + injection H1 as ->. auto.
    + destruct H1 as [[=] | [= ->]]. auto.
    + injection H1 as ->. auto.
Qed.

Lemma observe_NoDup (urls : list string) (r : page_request) :
  NoDup urls -> NoDup (observe urls r).
Proof.
  assert (Hadd : forall u, NoDup urls -> NoDup (streamingUrls_add u urls)).
  { intros u Hnd. unfold streamingUrls_add. case_bool_decide as Hin; [assumption |].
    apply NoDup_app. split; [assumption |]. split; [| apply NoDup_singleton].
    intros x Hx Hx'. apply list_elem_of_singleton in Hx'. now subst. }
  intros Hnd. destruct r as [[]|[]]; cbn [observe observe_open observe_fetch];
    try assumption;
    match goal with |- context [if ?b then _ else _] => destruct b end; auto.
Qed.

(** The set of observed URLs holds exactly the texts that a request of the
    page asked for and that [isStreamingUrl] accepts, each once. *)
Theorem observed_exactly (requests : list page_request) :
  NoDup (observed requests) /\
  forall u,
    u ∈ observed requests <->
    isStreamingUrl (JString u) = true /\
    exists r, r ∈ requests /\ requested r = Some u.
Proof.
  unfold observed.
  assert (H : forall urls,
             NoDup urls ->
             NoDup (fold_left observe requests urls) /\
             forall u,
               u ∈ fold_left observe requests urls <->
               u ∈ urls \/
               (isStreamingUrl (JString u) = true /\
                exists r, r ∈ requests /\ requested r = Some u)).
  { induction requests as [|r requests IH]; intros urls Hnd; cbn [fold_left].
    - split; [assumption |]. intros u. split; [auto |].
      intros [H | (_ & r & Hr & _)]; [assumption | inversion Hr].
    - destruct (IH (observe urls r) (observe_NoDup urls r Hnd)) as [Hnd' Hin].
      split; [assumption |]. intros u. rewrite Hin, observe_spec. split.
      + intros [[H | [Hr Hs]] | (Hs & r' & Hr' & Hreq)]; auto.
        * right. split; [assumption |]. exists r. split; [left | assumption].
        * right. split; [assumption |]. exists r'. split; [now right | assumption].
      + intros [H | (Hs & r' & Hr' & Hreq)]; auto.
        apply elem_of_cons in Hr' as [-> | Hr']; [auto |].
        right. eauto. }
  destruct (H [] (NoDup_nil_2)) as [Hnd Hin]. split; [assumption |].
  intros u. rewrite Hin. split; [| auto].
  intros [Hu | Hu]; [inversion Hu | assumption].
Qed.

(** ** File names of the background script *)

Lemma squeeze_fixed_class (p : ascii -> bool) (by_ l : list ascii) (b : bool) :
  Forall (fun c => p c = false) l -> squeeze p by_ b l = l.
Proof.
  intros H. revert b. induction H as [|c l Hc _ IH]; intros b;
    cbn [squeeze]; [reflexivity |].
  now rewrite Hc, IH.
Qed.

Lemma squeeze_underscore (l : list ascii) (b : bool) :
  Forall (fun c => is_reserved c = false /\ is_space c = false)
    (squeeze is_space ["_"%char] b (map esc l)).
Proof.
  revert b. induction l as [|c l IH]; intros b; cbn [map squeeze];
    [constructor |].
  destruct (is_space (esc c)) eqn:E.
  - destruct b; [apply IH |]. cbn [app]. constructor; [split; reflexivity | apply IH].
  - constructor; [| apply IH]. split; [apply is_reserved_esc | assumption].
Qed.

Lemma squeeze_not_nil (p : ascii -> bool) (c : ascii) (l : list ascii) :
  l <> [] -> squeeze p [c] false l <> [].
Proof.
  destruct l as [|a l]; [contradiction |]. intros _. cbn [squeeze].
  destruct (p a); discriminate.
Qed.

Lemma length_squeeze_one (p : ascii -> bool) (c : ascii) (l : list ascii)
    (b : bool) :
  length (squeeze p [c] b l) <= length l.
Proof.
  revert b. induction l as [|a l IH]; intros b; cbn [squeeze]; [lia |].
  destruct (p a); [destruct b |]; cbn;
    [specialize (IH true) | specialize (IH true) | specialize (IH false)]; lia.
Qed.

Lemma trim_chars_plain (l : list ascii) :
  Forall (fun c => is_space c = false) l -> trim_chars l = l.
Proof.
  intros H. apply trim_chars_fixed.
  - intros c Hc. destruct l as [|a l]; [discriminate |].
    injection Hc as ->. now inversion H.
  - intros c Hc. apply last_Some in Hc as [l' ->].
    apply Forall_app in H as [_ H]. now inversion H.
Qed.

(** The characters of a sanitized file name. *)
Lemma sanitized_chars (filename : string) :
  chars (substring_to 100
           (trim (replace_all (replace_all filename (Chr is_reserved) "_")
                    spaces "_")))
  = take 100 (squeeze is_space ["_"%char] false (map esc (chars filename))).
Proof.
  unfold substring_to, trim, replace_all, spaces.
  rewrite !chars_from_chars, <- !chars_length, !chars_from_chars.
  rewrite replace_all_loop_class by lia.
  assert (Hmap : flat_map (fun c => if is_reserved c then chars "_" else [c])
                   (chars filename) = map esc (chars filename)).
  { clear. induction (chars filename) as [|c l IH]; [reflexivity |].
    cbn [flat_map map]. rewrite IH. unfold esc. now destruct (is_reserved c). }
  rewrite Hmap, replace_all_loop_runs by (rewrite length_map; lia).
  f_equal. apply trim_chars_plain.
  eapply Forall_impl; [apply squeeze_underscore |]. now intros c [_ H].
Qed.

Lemma sanitizeFilename_chars (now : N) (filename : option string) :
  exists name,
    name <> "" /\
    (forall f, filename = Some f -> f <> "" -> name = f) /\
    chars (Background.sanitizeFilename now filename)
    = take 100 (squeeze is_space ["_"%char] false (map esc (chars name))).
Proof.
  unfold Background.sanitizeFilename.
  destruct filename as [f|].
  - destruct (truthy f) eqn:E.
    + exists f. split; [now apply truthy_true |]. split; [now intros ? [= ->] |].
      apply sanitized_chars.
    + exists ("video_" ++ decimal now)%string. split; [discriminate |]. split.
      * intros ? [= ->] Hne. apply truthy_false in E. contradiction.
      * apply sanitized_chars.
  - exists ("video_" ++ decimal now)%string. split; [discriminate |].
    split; [discriminate | apply sanitized_chars].
Qed.

Lemma sanitizeFilename_plain (now : N) (filename : option string) :
  plain_name (Background.sanitizeFilename now filename) /\
  String.length (Background.sanitizeFilename now filename) <= 100 /\
  Background.sanitizeFilename now filename <> "".
Proof.
  destruct (sanitizeFilename_chars now filename) as (name & Hne & _ & E).
  split; [| split].
  - unfold plain_name. rewrite E. apply Forall_take, squeeze_underscore.
  - rewrite <- chars_length, E, length_take. lia.
  - intros H. rewrite H in E. cbn in E.
    assert (Hsq : squeeze is_space ["_"%char] false (map esc (chars name)) <> []).
    { apply squeeze_not_nil. destruct name; [contradiction | discriminate]. }
    destruct (squeeze _ _ _ _); [contradiction | discriminate].
Qed.

Lemma plain_name_fixed (now : N) (s : string) :
  plain_name s -> s <> "" -> String.length s <= 100 ->
  Background.sanitizeFilename now (Some s) = s.
Proof.
  intros Hp Hne Hlen. apply chars_inj.
  destruct (sanitizeFilename_chars now (Some s)) as (name & _ & Hname & ->).
  rewrite (Hname s eq_refl Hne).
  rewrite map_esc_fixed by (eapply Forall_impl; [exact Hp |]; now intros c [H _]).
  rewrite squeeze_fixed_class
    by (eapply Forall_impl; [exact Hp |]; now intros c [_ H]).
  apply take_ge. now rewrite chars_length.
Qed.

(** A sanitized file name is not empty, has at most 100 characters, none
    of them reserved or white space, and passes through the sanitizer
    unchanged. *)
Theorem sanitizeFilename_shape (now now' : N) (filename : option string) :
  let name := Background.sanitizeFilename now filename in
  name <> "" /\ String.length name <= 100 /\ plain_name name /\
  Background.sanitizeFilename now' (Some name) = name.
Proof.
  cbv zeta.
  destruct (sanitizeFilename_plain now filename) as (Hp & Hlen & Hne).
  repeat split; try assumption. now apply plain_name_fixed.
Qed.

Lemma lastIndexOf_none (c : ascii) (l : list ascii) :
  existsb (Ascii.eqb c) l = false -> lastIndexOf c l = (-1)%Z.
Proof.
  induction l as [|a l IH]; [reflexivity |]. cbn [existsb lastIndexOf].
  rewrite orb_false_iff, Ascii.eqb_sym. intros [Ha Hl].
  rewrite (IH Hl), Ha. reflexivity.
Qed.

Lemma lastIndexOf_last (c : ascii) (stem old : list ascii) :
  existsb (Ascii.eqb c) old = false ->
  lastIndexOf c (stem ++ c :: old) = Z.of_nat (length stem).
Proof.
  intros Hold. induction stem as [|a stem IH]; cbn [app lastIndexOf length].
  - rewrite (lastIndexOf_none c old Hold), Ascii.eqb_refl. reflexivity.
  - rewrite IH. cbv zeta.
    destruct (Z.leb_spec 0 (Z.of_nat (length stem))); lia.
Qed.

(** A text that holds [c] splits at its last [c]. *)
Lemma last_occurrence (c : ascii) (l : list ascii) :
  existsb (Ascii.eqb c) l = true ->
  exists stem old, l = stem ++ c :: old /\ existsb (Ascii.eqb c) old = false.
Proof.
  induction l as [|a l IH]; [discriminate |]. cbn [existsb].
  destruct (existsb (Ascii.eqb c) l) eqn:E.
  - intros _. destruct (IH eq_refl) as (stem & old & -> & Hold).
    now exists (a :: stem), old.
  - rewrite orb_false_r. intros Ha. apply Ascii.eqb_eq in Ha. subst a.
    now exists [], l.
Qed.

Lemma includes_char (s : string) (c : ascii) :
  includes s (String c "") = existsb (Ascii.eqb c) (chars s).
Proof. unfold includes. cbn [chars list_ascii_of_string]. apply infixb_char. Qed.

(** Where [generateFilename] cuts the sanitized title. *)
Lemma generateFilename_cut (now : N) (video : candidate) (extension : string) :
  let name :=
    Background.sanitizeFilename now
      (Some (if truthy (title video) then title video else "video")) in
  exists stem,
    Background.generateFilename now video extension
    = (from_chars stem ++ "." ++ extension)%string /\
    ((existsb (Ascii.eqb ".") (chars name) = false /\ stem = chars name) \/
     (exists old, chars name = stem ++ "."%char :: old /\
                  existsb (Ascii.eqb ".") old = false)).
Proof.
  cbv zeta. unfold Background.generateFilename.
  set (name := Background.sanitizeFilename now _).
  rewrite includes_char.
  destruct (existsb (Ascii.eqb ".") (chars name)) eqn:E.
  - destruct (last_occurrence _ _ E) as (stem & old & Hname & Hold).
    exists stem. split; [| right; eauto].
    unfold substring_to_Z, substring_to.
    rewrite Hname, lastIndexOf_last by assumption.
    now rewrite Nat2Z.id, take_app_length.
  - exists (chars name). rewrite from_chars_chars. auto.
Qed.

Lemma plain_name_app (a b : string) :
  plain_name a -> plain_name b -> plain_name (a ++ b).
Proof. unfold plain_name. rewrite chars_app. apply Forall_app_2. Qed.

Lemma generateFilename_stem_plain (now : N) (video : candidate)
    (extension : string) (stem : list ascii) :
  let name :=
    Background.sanitizeFilename now
      (Some (if truthy (title video) then title video else "video")) in
  (existsb (Ascii.eqb ".") (chars name) = false /\ stem = chars name) \/
  (exists old, chars name = stem ++ "."%char :: old /\
               existsb (Ascii.eqb ".") old = false) ->
  plain_name (from_chars stem) /\ length stem <= 100.
Proof.
  cbv zeta. set (name := Background.sanitizeFilename now _).
  destruct (sanitizeFilename_plain now
              (Some (if truthy (title video) then title video else "video")))
    as (Hp & Hlen & _).
  fold name in Hp, Hlen. unfold plain_name in *.
  rewrite chars_from_chars, <- chars_length in *.
  intros [[_ ->] | (old & Hname & _)]; [auto |].
  rewrite Hname in Hp, Hlen. rewrite length_app in Hlen.
  apply Forall_app in Hp as [Hp _]. split; [assumption | lia].
Qed.

Lemma generateFilename_plain (now : N) (video : candidate) (extension : string) :
  plain_name extension ->
  plain_name (Background.generateFilename now video extension).
Proof.
  intros Hext.
  destruct (generateFilename_cut now video extension) as (stem & -> & Hstem).
  apply generateFilename_stem_plain in Hstem as [Hstem _]; [| exact extension].
  apply plain_name_app; [assumption |]. apply plain_name_app; [| assumption].
  repeat constructor.
Qed.

(** The name under which a playlist is saved is the sanitized title, cut
    before its last dot when it has one, with the extension asked for;
    what stands before the extension is plain and has at most 100
    characters. *)
Theorem generateFilename_extension (now : N) (video : candidate)
    (extension : string) :
  let name :=
    Background.sanitizeFilename now
      (Some (if truthy (title video) then title video else "video")) in
  exists stem,
    Background.generateFilename now video extension
    = (stem ++ "." ++ extension)%string /\
    plain_name stem /\ String.length stem <= 100 /\
    ((includes name "." = false /\ stem = name) \/
     (exists old, name = (stem ++ "." ++ old)%string /\
                  includes old "." = false)).
Proof.
  cbv zeta.
  destruct (generateFilename_cut now video extension) as (stem & E & Hstem).
  destruct (generateFilename_stem_plain now video extension stem Hstem)
    as [Hp Hlen].
  exists (from_chars stem). split; [exact E |]. split; [exact Hp |].
  split; [now rewrite <- chars_length, chars_from_chars |].
  rewrite includes_char.
  destruct Hstem as [[Hno ->] | (old & Hname & Hold)].
  - left. split; [assumption | apply from_chars_chars].
  - right. exists (from_chars old). split.
    + apply chars_inj. rewrite !chars_app, !chars_from_chars. exact Hname.
    + rewrite includes_char, chars_from_chars. exact Hold.
Qed.

(** ** The playlist parser *)

Section Playlist.

Variable new_URL : string -> option Background.URL.

Lemma segments_of_absolute (baseUrl : option string) (lines : list string) :
  Forall (fun line => startsWith line "http" = true) (media_of lines) ->
  Background.segments_of new_URL baseUrl lines = Normal (media_of lines).
Proof.
  unfold media_of. induction lines as [|l lines IH];
    cbn [map List.filter Background.segments_of]; [reflexivity |].
  destruct (truthy (trim l) && negb (startsWith (trim l) "#")); [| exact IH].
  intros H. inversion H as [|? ? Hl Hrest]; subst.
  unfold Background.segmentUrl. rewrite Hl. cbn [negb and_then].
  now rewrite (IH Hrest).
Qed.




(** A playlist whose media lines are all absolute is parsed to those
    lines, in order, whatever the base URL: comments and empty lines are
    left out and the base is never looked at. *)
Theorem parseM3U8_absolute (playlistText : string) (baseUrl : option string) :
  Forall (fun line => startsWith line "http" = true)
    (media_lines playlistText) ->
  Background.parseM3U8 new_URL playlistText baseUrl
  = Normal (media_lines playlistText).
Proof.
  apply segments_of_absolute.
Qed.

End Playlist.

Lemma parseM3U8_absolute_witness :
  Background.parseM3U8 (fun _ => None)
    (from_chars
       (chars "#EXTM3U" ++ newline :: chars "#EXTINF:4.0," ++ newline
        :: chars "  https://cdn.example.com/live/seg1.ts " ++ newline
        :: newline :: chars "https://cdn.example.com/live/seg2.ts"))
    None
  = Normal ["https://cdn.example.com/live/seg1.ts";
            "https://cdn.example.com/live/seg2.ts"].
Proof.
  rewrite parseM3U8_absolute; [reflexivity |].
  vm_compute. repeat constructor.
Defined.

(** Relative lines are resolved against the origin of the playlist, or
    against its directory. *)
Example parseM3U8_relative :
  Background.parseM3U8 background_URL
    (from_chars
       (chars "#EXTM3U" ++ newline :: chars "seg1.ts" ++ newline
        :: chars "/abs/seg2.ts" ++ newline
        :: chars "https://other.example.com/seg3.ts"))
    (Some "https://cdn.example.com/live/show/index.m3u8?token=1")
  = Normal ["https://cdn.example.com/live/show/seg1.ts";
            "https://cdn.example.com/abs/seg2.ts";
            "https://other.example.com/seg3.ts"].
Proof. vm_compute. reflexivity. Qed.

(** ** The streaming URLs kept per tab *)

Ltac case_bound :=
  match goal with
  | |- context [(100 <? ?n)%nat] => destruct (100 <? n)%nat
  end.

Lemma storeStreamingUrl_lookup (url : string) (tabId : Z)
    (m : gmap Z (list string)) :
  Background.storeStreamingUrl url tabId m !! tabId
  = Some (stored_set url (default [] (m !! tabId))).
Proof.
  unfold Background.storeStreamingUrl, stored_set.
  destruct (m !! tabId) as [urls|] eqn:E; cbn [default id];
    rewrite lookup_alter_eq, ?lookup_insert_eq, ?E;
    cbn [fmap option_fmap option_map];
    case_bound; rewrite ?lookup_insert_eq, ?lookup_alter_eq,
                  ?lookup_insert_eq, ?E; reflexivity.
Qed.

Lemma storeStreamingUrl_other (url : string) (tabId tab : Z)
    (m : gmap Z (list string)) :
  tab <> tabId ->
  Background.storeStreamingUrl url tabId m !! tab = m !! tab.
Proof.
  intros Hne. unfold Background.storeStreamingUrl.
  destruct (m !! tabId) as [urls|] eqn:E;
    rewrite lookup_alter_eq, ?lookup_insert_eq, ?E;
    cbn [fmap option_fmap option_map];
    case_bound;
    rewrite ?(lookup_insert_ne _ tabId tab) by congruence;
    rewrite lookup_alter_ne by congruence;
    rewrite ?(lookup_insert_ne _ tabId tab) by congruence; reflexivity.
Qed.

Lemma streamingUrls_add_NoDup (url : string) (urls : list string) :
  NoDup urls -> NoDup (streamingUrls_add url urls).
Proof.
  intros Hnd. unfold streamingUrls_add. case_bool_decide as Hin; [assumption |].
  apply NoDup_app. split; [assumption |]. split; [| apply NoDup_singleton].
  intros x Hx Hx'. apply list_elem_of_singleton in Hx'. now subst.
Qed.

Lemma length_streamingUrls_add (url : string) (urls : list string) :
  length (streamingUrls_add url urls) <= S (length urls).
Proof.
  unfold streamingUrls_add. case_bool_decide; [lia |].
  rewrite length_app. cbn. lia.
Qed.

Lemma stored_set_spec (url : string) (urls : list string) :
  length urls <= 100 -> NoDup urls ->
  length (stored_set url urls) <= 100 /\ NoDup (stored_set url urls) /\
  url ∈ stored_set url urls /\
  (forall u, u ∈ stored_set url urls -> u ∈ urls \/ u = url) /\
  (length urls = 100 -> url ∉ urls ->
   stored_set url urls = drop 1 urls ++ [url]).
Proof.
  intros Hlen Hnd. unfold stored_set, Background.slice_last. cbv zeta.
  pose proof (length_streamingUrls_add url urls) as Hadd.
  pose proof (streamingUrls_add_NoDup url urls Hnd) as Hnd'.
  assert (Hin : url ∈ streamingUrls_add url urls)
    by (apply streamingUrls_add_spec; now right).
  destruct (Nat.ltb_spec 100 (length (streamingUrls_add url urls))) as [Hgt|Hle].
  - assert (Hnew : streamingUrls_add url urls = urls ++ [url] /\ url ∉ urls).
    { unfold streamingUrls_add in *. case_bool_decide; [lia | auto]. }
    destruct Hnew as [Hnew Hfresh]. rewrite Hnew in *. clear Hnew.
    rewrite length_app in *. cbn [length] in *.
    assert (Hl : length urls = 100) by lia.
    replace (length urls + 1 - 100) with 1 by lia.
    assert (Hdrop : drop 1 (urls ++ [url]) = drop 1 urls ++ [url]).
    { destruct urls; [discriminate | reflexivity]. }
    rewrite Hdrop. split; [| split; [| split; [| split]]].
    + rewrite length_app, length_drop. cbn. lia.
    + rewrite <- Hdrop.
      exact (sublist_NoDup _ _ Hnd' (sublist_drop _ _)).
    + apply elem_of_app. right. now left.
    + intros u Hu. apply elem_of_app in Hu as [Hu | Hu].
      * left. eapply elem_of_sublist; [exact Hu | apply sublist_drop].
      * right. now apply list_elem_of_singleton in Hu.
    + reflexivity.
  - split; [assumption |]. split; [assumption |]. split; [assumption |]. split.
    + intros u. apply streamingUrls_add_spec.
    + intros Hl Hfresh. exfalso. unfold streamingUrls_add in Hle.
      case_bool_decide; [contradiction |]. rewrite length_app in Hle. cbn in Hle. lia.
Qed.

(** What the monitor keeps for a tab never grows beyond 100 URLs, holds no
    URL twice, and holds only streaming URLs that were requested in that
    tab. *)
Theorem monitored_bounded (requests : list (jsval * Z)) :
  map_Forall
    (fun tab urls =>
       length urls <= 100 /\ NoDup urls /\
       Forall (fun u => Background.isStreamingUrl (JString u) = true /\
                        (JString u, tab) ∈ requests) urls)
    (Background.monitored requests).
Proof.
  unfold Background.monitored.
  assert (H : forall (seen : string -> Z -> Prop) (m : gmap Z (list string)),
             map_Forall
               (fun tab urls =>
                  length urls <= 100 /\ NoDup urls /\
                  Forall (fun u => Background.isStreamingUrl (JString u) = true /\
                                   seen u tab) urls) m ->
             map_Forall
               (fun tab urls =>
                  length urls <= 100 /\ NoDup urls /\
                  Forall (fun u => Background.isStreamingUrl (JString u) = true /\
                                   (seen u tab \/ (JString u, tab) ∈ requests))
                    urls)
               (fold_left
                  (fun streamingUrls details =>
                     Background.onBeforeRequest details streamingUrls)
                  requests m)).
  { induction requests as [|[v tabId] requests IH]; intros seen m Hm;
      cbn [fold_left].
    - intros tab urls Hl. destruct (Hm tab urls Hl) as (H1 & H2 & H3).
      split; [assumption |]. split; [assumption |].
      eapply Forall_impl; [exact H3 |]. intros u [Hs Hu]. auto.
    - specialize (IH (fun u tab => seen u tab \/ (u = u /\ (JString u, tab) = (v, tabId)))).
      eapply map_Forall_impl.
      + apply IH. clear IH.
        unfold Background.onBeforeRequest.
        destruct v as [| | b | n | url | url |];
          try (intros tab urls Hl; destruct (Hm tab urls Hl) as (H1 & H2 & H3);
               split; [assumption |]; split; [assumption |];
               eapply Forall_impl; [exact H3 |]; intros u [Hs Hu]; auto).
        destruct (Background.isStreamingUrl (JString url)) eqn:Hs;
          [| intros tab urls Hl; destruct (Hm tab urls Hl) as (H1 & H2 & H3);
             split; [assumption |]; split; [assumption |];
             eapply Forall_impl; [exact H3 |]; intros u [Hs' Hu]; auto].
        intros tab urls Hl.
        destruct (decide (tab = tabId)) as [->|Hne].
        * rewrite storeStreamingUrl_lookup in Hl. injection Hl as <-.
          assert (Hold : length (default [] (m !! tabId)) <= 100 /\
                         NoDup (default [] (m !! tabId)) /\
                         Forall (fun u =>
                           Background.isStreamingUrl (JString u) = true /\
                           seen u tabId) (default [] (m !! tabId))).
          { destruct (m !! tabId) as [old|] eqn:E; cbn [default].
            - exact (Hm tabId old E).
            - cbn. split; [lia |]. split; constructor. }
          destruct Hold as (H1 & H2 & H3).
          destruct (stored_set_spec url _ H1 H2) as (G1 & G2 & _ & G4 & _).
          split; [assumption |]. split; [assumption |].
          apply Forall_forall. intros u Hu. apply G4 in Hu as [Hu | ->].
          -- rewrite Forall_forall in H3. destruct (H3 u Hu). auto.
          -- auto.
        * rewrite storeStreamingUrl_other in Hl by assumption.
          destruct (Hm tab urls Hl) as (H1 & H2 & H3).
          split; [assumption |]. split; [assumption |].
          eapply Forall_impl; [exact H3 |]. intros u [Hs' Hu]. auto.
      + intros tab urls (H1 & H2 & H3). split; [assumption |].
        split; [assumption |]. eapply Forall_impl; [exact H3 |].
        intros u [Hs [[Hu | [_ Hu]] | Hu]].
        * auto.
        * split; [assumption |]. right. rewrite Hu. now left.
        * split; [assumption |]. right. now right. }
  eapply map_Forall_impl.
  - apply (H (fun _ _ => False) ∅). intros tab urls Hl.
    rewrite lookup_empty in Hl. discriminate.
  - intros tab urls (H1 & H2 & H3). split; [assumption |].
    split; [assumption |]. eapply Forall_impl; [exact H3 |].
    intros u [Hs [[] | Hu]]. auto.
Qed.

(** Storing a URL for a tab whose set is within the bound keeps that URL,
    leaves the other tabs as they are, and, when the set is full, makes
    room by dropping the URL stored first. *)
Theorem storeStreamingUrl_latest (url : string) (tabId : Z)
    (m : gmap Z (list string)) :
  let urls := default [] (m !! tabId) in
  length urls <= 100 -> NoDup urls ->
  (exists urls',
      Background.storeStreamingUrl url tabId m !! tabId = Some urls' /\
      url ∈ urls' /\ length urls' <= 100) /\
  (forall tab, tab <> tabId ->
               Background.storeStreamingUrl url tabId m !! tab = m !! tab) /\
  (length urls = 100 -> url ∉ urls ->
   Background.storeStreamingUrl url tabId m !! tabId
   = Some (drop 1 urls ++ [url])).
Proof.
  cbv zeta. intros Hlen Hnd.
  destruct (stored_set_spec url _ Hlen Hnd) as (G1 & _ & G3 & _ & G5).
  rewrite storeStreamingUrl_lookup.
  split; [eauto |]. split.
  - intros tab Hne. now apply storeStreamingUrl_other.
  - intros Hfull Hfresh. now rewrite G5.
Qed.

Lemma storeStreamingUrl_latest_witness :
  Background.storeStreamingUrl "https://a.example.com/two.m3u8" 7
    {[ 7%Z := ["https://a.example.com/one.m3u8"] ]} !! 7%Z
  = Some ["https://a.example.com/one.m3u8"; "https://a.example.com/two.m3u8"] /\
  Background.storeStreamingUrl "https://a.example.com/two.m3u8" 7
    {[ 7%Z := ["https://a.example.com/one.m3u8"] ]} !! 8%Z
  = None.
Proof.
  destruct (storeStreamingUrl_latest "https://a.example.com/two.m3u8" 7
              {[ 7%Z := ["https://a.example.com/one.m3u8"] ]})
    as (_ & Hother & _).
  - rewrite lookup_singleton_eq. cbn. lia.
  - rewrite lookup_singleton_eq. cbn. repeat constructor. intros H. inversion H.
  - split; [| rewrite Hother by lia; now rewrite lookup_singleton_ne by lia].
    rewrite storeStreamingUrl_lookup, lookup_singleton_eq. reflexivity.
Defined.

(** ** Downloads *)

Section Downloads.

Variable new_URL : string -> option Background.URL.
Variable fetch_head : string -> completion N.
Variable fetch_text : option string -> completion string.
Variable createObjectURL : string -> string.
Variable downloads_download : Background.download_options -> completion N.
Variable now : N.
Variable startTime : N.

Local Abbreviation downloadVideo :=
  (Background.downloadVideo new_URL fetch_head downloads_download now startTime).
Local Abbreviation downloadStreamingVideo :=
  (Background.downloadStreamingVideo new_URL fetch_head fetch_text
     createObjectURL downloads_download now startTime).
Local Abbreviation handleMessage :=
  (Background.handleMessage new_URL fetch_head fetch_text createObjectURL
     downloads_download now startTime).

(** Unfolds the monad of the background script. *)
Ltac run_background :=
  unfold Background.downloadHLS, Background.downloadDASH,
    Background.downloadDirect, Background.downloadPlaylistFile,
    Background.showStreamingNotification, Background.showNotification,
    Background.storeDownloadInfo, Background.notifications_create,
    Background.download, Background.storage_set, Background.sendResponse,
    try_catch, bind, lift, ret;
  cbn [fst snd Background.notifications Background.started Background.storage
       Background.sent].

(** What [downloadVideo] does to the browser: it leaves the responses
    alone; and either it starts no download and stores nothing, or the URL
    parses, is no blob URL and answered the probe, and it starts one
    download of that URL under the sanitized name. *)
Lemma downloadVideo_effect (url filename : option string)
    (st : Background.state) :
  let st' := snd (downloadVideo url filename st) in
  Background.sent st' = Background.sent st /\
  ((Background.started st' = Background.started st /\
    Background.storage st' = Background.storage st /\
    exists e, fst (downloadVideo url filename st) = Throw e) \/
   (exists u status,
      url = Some u /\ is_Some (new_URL u) /\
      Background.isBlobUrl u = false /\ fetch_head u = Normal status /\
      Background.started st'
      = Background.started st
        ++ [ {| Background.d_url := u;
                Background.d_filename :=
                  Background.sanitizeFilename now filename;
                Background.d_conflictAction := "uniquify";
                Background.d_saveAs := false |} ])).
Proof.
  cbv zeta. unfold Background.downloadVideo.
  destruct (Background.isValidUrl new_URL url) eqn:Hv; cbn [negb].
  2:{ run_background. split; [reflexivity |]. left. eauto. }
  destruct url as [u|]; [| discriminate].
  unfold Background.isValidUrl in Hv.
  destruct (new_URL u) as [urlObj|] eqn:Hu; [| discriminate].
  destruct (Background.isBlobUrl u) eqn:Hb.
  { run_background. split; [reflexivity |]. left. eauto. }
  destruct (fetch_head u) as [status|e] eqn:Hf.
  - destruct (Background.isSocialMediaUrl new_URL u); run_background;
      (destruct (downloads_download _) as [downloadId|e] eqn:Hd;
       cbn [fst snd Background.notifications Background.started
            Background.storage Background.sent];
       (split; [reflexivity |]); right; exists u, status;
       rewrite Hu; repeat split; eauto).
  - destruct (Background.isSocialMediaUrl new_URL u); run_background;
      (split; [reflexivity |]); left; eauto.
Qed.

(** [downloadVideo] starts no download and stores nothing for a URL that
    does not parse, for a blob URL, or when the probe of the URL fails: it
    rejects. *)
Theorem downloadVideo_refuses (url filename : option string)
    (st : Background.state) :
  Background.isValidUrl new_URL url = false \/
  (exists u, url = Some u /\
             (Background.isBlobUrl u = true \/
              exists e, fetch_head u = Throw e)) ->
  exists e st',
    downloadVideo url filename st = (Throw e, st') /\
    Background.started st' = Background.started st /\
    Background.storage st' = Background.storage st /\
    Background.sent st' = Background.sent st.
Proof.
  intros H.
  destruct (downloadVideo_effect url filename st) as [Hsent Heff].
  cbv zeta in *.
  destruct (downloadVideo url filename st) as [c st'] eqn:E. cbn [fst snd] in *.
  destruct Heff as [(Hst & Hsto & e & ->) | (u & status & -> & Hu & Hb & Hf & _)].
  - eauto 6.
  - exfalso. destruct H as [H | (u' & [= <-] & [H | [e H]])].
    + unfold Background.isValidUrl in H. destruct Hu as [x Hx].
      rewrite Hx in H. discriminate.
    + congruence.
    + congruence.
Qed.

Lemma plain_m3u8 : plain_name "m3u8" /\ plain_name "mpd".
Proof. split; repeat constructor. Qed.

(** A message starts at most one download, and a quiet one. *)
Lemma downloadStreamingVideo_effect (video : option candidate)
    (st : Background.state) :
  let st' := snd (downloadStreamingVideo video st) in
  Background.sent st' = Background.sent st /\
  (Background.started st' = Background.started st \/
   exists d, Background.started st' = Background.started st ++ [d] /\
             quiet_download d).
Proof.
  cbv zeta. unfold Background.downloadStreamingVideo.
  destruct video as [video|]; [| run_background; auto].
  unfold bind, lift.
  destruct (if truthy_opt (format video) then _ else _) as [fmt|e];
    [| cbn; auto].
  fold (@bind Background.state). fold (@lift Background.state).
  destruct (String.eqb fmt "HLS"); [| destruct (String.eqb fmt "DASH")].
  - run_background.
    destruct (fetch_text (url video)) as [playlistText|e]; [| cbn; auto].
    destruct (Background.parseM3U8 new_URL playlistText (url video))
      as [segments|e]; [| cbn; auto].
    destruct (downloads_download _) as [downloadId|e]; cbn;
      (split; [reflexivity |]); right; eexists; (split; [reflexivity |]);
      (split; [apply generateFilename_plain, plain_m3u8 | auto]).
  - run_background.
    destruct (fetch_text (url video)) as [manifestText|e]; [| cbn; auto].
    destruct (downloads_download _) as [downloadId|e]; cbn;
      (split; [reflexivity |]); right; eexists; (split; [reflexivity |]);
      (split; [apply generateFilename_plain, plain_m3u8 | auto]).
  - unfold Background.downloadDirect, bind, ret.
    set (filename := Some _).
    destruct (downloadVideo_effect (url video) filename st) as [Hsent Heff].
    cbv zeta in *.
    destruct (downloadVideo (url video) filename st) as [[downloadId|e] st'];
      cbn [fst snd] in *; (split; [assumption |]);
      (destruct Heff as [(Hst & _) | (u & status & _ & _ & _ & _ & Hst)];
       [left; assumption |]);
      right; eexists; (split; [exact Hst |]);
      (split; [apply sanitizeFilename_plain | auto]).
Qed.

(** A message of the popup is answered once, and the handler never
    throws: the answer says [success] when the download call returned and
    carries the message of the error otherwise.  A message with another
    action changes nothing and is never answered. *)
Theorem handleMessage_one_response (request : Background.request)
    (st : Background.state) :
  let st' := snd (handleMessage request st) in
  fst (handleMessage request st) = Normal tt /\
  (Background.action request = "downloadVideo" \/
   Background.action request = "downloadStreaming" ->
   exists r,
     Background.sent st' = Background.sent st ++ [r] /\
     (Background.success r = true <-> Background.error r = None)) /\
  (Background.action request <> "downloadVideo" ->
   Background.action request <> "downloadStreaming" ->
   st' = st).
Proof.
  cbv zeta. unfold Background.handleMessage.
  destruct (String.eqb_spec (Background.action request) "downloadVideo")
    as [Ha | Ha].
  - pose proof (downloadVideo_effect (Background.r_url request)
                  (Background.r_filename request) st) as [Hsent _].
    cbv zeta in Hsent. unfold try_catch, bind, Background.sendResponse.
    destruct (downloadVideo _ _ st) as [[downloadId|e] st1];
      cbn [fst snd Background.sent] in *; rewrite Hsent;
      (split; [reflexivity |]); (split; [| congruence]);
      intros _; eexists; (split; [reflexivity |]); cbn; split; congruence.
  - destruct (String.eqb_spec (Background.action request) "downloadStreaming")
      as [Hb | Hb].
    + pose proof (downloadStreamingVideo_effect (Background.r_video request) st)
        as [Hsent _].
      cbv zeta in Hsent. unfold try_catch, bind, Background.sendResponse.
      destruct (downloadStreamingVideo _ st) as [[res|e] st1];
        cbn [fst snd Background.sent] in *; rewrite Hsent;
        (split; [reflexivity |]); (split; [| congruence]);
        intros _; eexists; (split; [reflexivity |]); cbn; split; congruence.
    + unfold try_catch, ret. cbn. split; [reflexivity |].
      split; [intros [H | H]; contradiction | reflexivity].
Qed.

(** Handling a message starts at most one download, and a quiet one:
    under a name without reserved characters and white space, never
    overwriting a file, never asking where to save. *)
Theorem handleMessage_downloads (request : Background.request)
    (st : Background.state) :
  let st' := snd (handleMessage request st) in
  Background.started st' = Background.started st \/
  exists d, Background.started st' = Background.started st ++ [d] /\
            quiet_download d.
Proof.
  cbv zeta. unfold Background.handleMessage.
  destruct (String.eqb (Background.action request) "downloadVideo").
  - pose proof (downloadVideo_effect (Background.r_url request)
                  (Background.r_filename request) st) as [_ Heff].
    cbv zeta in Heff. unfold try_catch, bind, Background.sendResponse.
    destruct (downloadVideo _ _ st) as [[downloadId|e] st1];
      cbn [fst snd Background.started] in *;
      (destruct Heff as [(Hst & _) | (u & status & _ & _ & _ & _ & Hst)];
       [left; assumption |]);
      right; eexists; (split; [exact Hst |]);
      (split; [apply sanitizeFilename_plain | auto]).
  - destruct (String.eqb (Background.action request) "downloadStreaming").
    + pose proof (downloadStreamingVideo_effect (Background.r_video request) st)
        as [_ Heff].
      cbv zeta in Heff. unfold try_catch, bind, Background.sendResponse.
      destruct (downloadStreamingVideo _ st) as [[res|e] st1];
        cbn [fst snd Background.started] in *; exact Heff.
    + left. reflexivity.
Qed.

End Downloads.

Lemma downloadVideo_refuses_witness :
  exists e st',
    Background.downloadVideo background_URL (fun _ => Normal 200%N)
      (fun _ => Normal 1%N) 0 0 (Some player_blob_url) (Some "clip") idle
    = (Throw e, st') /\
    Background.started st' = [] /\ Background.storage st' = ∅ /\
    Background.sent st' = [].
Proof.
  apply (downloadVideo_refuses background_URL (fun _ => Normal 200%N)
           (fun _ => Normal 1%N) 0 0 (Some player_blob_url) (Some "clip") idle).
  right. exists player_blob_url. split; [reflexivity |]. left. reflexivity.
Defined.

Lemma handleMessage_one_response_witness :
  exists r,
    Background.sent
      (snd (Background.handleMessage background_URL (fun _ => Normal 200%N)
              (fun _ => Normal "") (fun _ => "blob:playlist")
              (fun _ => Normal 1%N) 0 0
              (Background.Request "downloadVideo" (Some clip_url)
                 (Some "clip") None) idle))
    = [r] /\
    (Background.success r = true <-> Background.error r = None).
Proof.
  destruct (handleMessage_one_response background_URL (fun _ => Normal 200%N)
              (fun _ => Normal "") (fun _ => "blob:playlist")
              (fun _ => Normal 1%N) 0 0
              (Background.Request "downloadVideo" (Some clip_url)
                 (Some "clip") None) idle) as (_ & H & _).
  apply H. left. reflexivity.
Defined.

(** ** The end of a download *)

Section Changes.

Variable new_URL : string -> option Background.URL.
Variable fetch_head : string -> completion N.
Variable downloads_download : Background.download_options -> completion N.
Variable now : N.
Variable startTime : N.
Variable downloads_search : N -> completion (list Background.download_item).

Local Abbreviation downloadVideo :=
  (Background.downloadVideo new_URL fetch_head downloads_download now
     startTime).
Local Abbreviation handleDownloadChange :=
  (Background.handleDownloadChange downloads_search).

(** Unfolds the monad of the listener of the downloads. *)
Ltac run_change :=
  unfold Background.getDownloadInfo, Background.cleanupDownloadInfo,
    Background.showNotification, Background.storeDownloadInfo,
    Background.notifications_create, Background.tabs_create,
    Background.download, Background.storage_set, Background.storage_remove,
    try_catch, bind, lift, ret;
  cbn [fst snd Background.notifications Background.started Background.storage
       Background.sent Background.opened].

(** A download that [downloadVideo] started is stored under its key, with
    the sanitized name. *)
Lemma downloadVideo_stores (url filename : option string) (downloadId : N)
    (st st1 : Background.state) :
  downloadVideo url filename st = (Normal downloadId, st1) ->
  exists u,
    url = Some u /\
    Background.storage st1
    = <[Background.download_key downloadId :=
          {| Background.i_url := u;
             Background.i_filename := Background.sanitizeFilename now filename;
             Background.i_startTime := startTime |}]>
        (Background.storage st).
Proof.
  unfold Background.downloadVideo.
  destruct (Background.isValidUrl new_URL url); cbn [negb];
    [| run_change; discriminate].
  destruct url as [u|]; [| run_change; discriminate].
  destruct (Background.isBlobUrl u); [run_change; discriminate |].
  destruct (fetch_head u) as [status|e];
    destruct (Background.isSocialMediaUrl new_URL u); run_change;
    try discriminate;
    (destruct (downloads_download _) as [i|e]; [| discriminate]);
    intros [= <- <-]; exists u; split; reflexivity.
Qed.

Lemma filename_of_stored (info : Background.download_info) :
  Background.i_filename info <> "" ->
  Background.filename_of (Some info) = Background.i_filename info.
Proof.
  intros H. unfold Background.filename_of.
  destruct (truthy (Background.i_filename info)) eqn:E; [reflexivity |].
  apply truthy_false in E. contradiction.
Qed.

(** When a download that [downloadVideo] started completes, the change
    handler announces it under the sanitized name and removes what was
    stored for it: a storage area that had no entry under the key of the
    download is as it was before the download. *)
Theorem completed_download_forgotten (url filename : option string)
    (downloadId : N) (st st1 : Background.state) :
  downloadVideo url filename st = (Normal downloadId, st1) ->
  exists st2,
    handleDownloadChange
      (Background.DownloadDelta downloadId (Some "complete")) st1
    = (Normal tt, st2) /\
    Background.notifications st2
    = Background.notifications st1
      ++ [ {| Background.n_type := "basic";
              Background.n_iconUrl := "icons/icon.png";
              Background.n_title := "Tải xuống hoàn tất";
              Background.n_message :=
                "Video đã được tải xuống: "
                ++ Background.sanitizeFilename now filename |} ] /\
    Background.storage st2
    = delete (Background.download_key downloadId) (Background.storage st) /\
    (Background.storage st !! Background.download_key downloadId = None ->
     Background.storage st2 = Background.storage st).
Proof.
  intros H. apply downloadVideo_stores in H as (u & -> & Hsto).
  unfold Background.handleDownloadChange.
  cbn [Background.delta_state Background.delta_id].
  change (truthy "complete") with true. cbn [negb].
  change (String.eqb "complete" "complete") with true. cbv iota.
  run_change. rewrite Hsto, lookup_insert_eq.
  rewrite filename_of_stored
    by (cbn [Background.i_filename]; apply sanitizeFilename_plain).
  cbn [Background.i_filename Background.basic Background.o_type
       Background.o_iconUrl Background.o_message Background.or_default].
  eexists. split; [reflexivity |].
  cbn [Background.notifications Background.storage].
  split; [| split].
  - reflexivity.
  - apply delete_insert_eq.
  - intros Hnone. now apply delete_insert_id.
Qed.

(** What a change of a download does to the browser.  It starts no
    download, answers no message and leaves the entries of the other
    downloads alone.  A change to [complete], or to [interrupted] when
    the download can be looked up, shows one notification and removes the
    entry of the download; only an interruption opens a tab, and at most
    one.  When looking an interrupted download up fails, the handler
    rejects, shows nothing and keeps the entry.  Any other change does
    nothing. *)
Theorem handleDownloadChange_forgets (delta : Background.download_delta)
    (st : Background.state) :
  let outcome := fst (handleDownloadChange delta st) in
  let st' := snd (handleDownloadChange delta st) in
  let key := Background.download_key (Background.delta_id delta) in
  Background.started st' = Background.started st /\
  Background.sent st' = Background.sent st /\
  (forall k, k <> key ->
             Background.storage st' !! k = Background.storage st !! k) /\
  (Background.delta_state delta = Some "complete" \/
   (Background.delta_state delta = Some "interrupted" /\
    exists items,
      downloads_search (Background.delta_id delta) = Normal items) ->
   outcome = Normal tt /\
   Background.storage st' !! key = None /\
   (exists n,
      Background.notifications st' = Background.notifications st ++ [n]) /\
   (Background.opened st' = Background.opened st \/
    Background.delta_state delta = Some "interrupted" /\
    exists u, Background.opened st' = Background.opened st ++ [u])) /\
  (forall e,
     Background.delta_state delta = Some "interrupted" ->
     downloads_search (Background.delta_id delta) = Throw e ->
     outcome = Throw e /\ st' = st) /\
  (Background.delta_state delta <> Some "complete" ->
   Background.delta_state delta <> Some "interrupted" ->
   outcome = Normal tt /\ st' = st).
Proof.
  cbv zeta. destruct delta as [downloadId current].
  unfold Background.handleDownloadChange.
  cbn [Background.delta_state Background.delta_id].
  destruct st as [ns ds sto rs os].
  destruct current as [state|].
  2:{ unfold ret. cbn [fst snd]. repeat apply conj; try reflexivity.
      - intros [H | [H _]]; discriminate.
      - discriminate.
      - auto. }
  destruct (truthy state) eqn:Ht; cbn [negb].
  2:{ apply truthy_false in Ht. subst state. unfold ret. cbn [fst snd].
      repeat apply conj; try reflexivity.
      - intros [H | [H _]]; discriminate.
      - discriminate.
      - auto. }
  destruct (String.eqb_spec state "complete") as [-> | Hc].
  { run_change. repeat apply conj; try reflexivity.
    - intros k Hk. now apply lookup_delete_ne.
    - intros _. repeat apply conj; try reflexivity.
      + apply lookup_delete_eq.
      + eexists. reflexivity.
      + left. reflexivity.
    - discriminate.
    - intros H. now contradiction H. }
  destruct (String.eqb_spec state "interrupted") as [-> | Hi].
  2:{ run_change. repeat apply conj; try reflexivity.
      - intros [[= H] | [[= H] _]]; contradiction.
      - intros e [= H]. contradiction.
      - auto. }
  run_change.
  destruct (downloads_search downloadId) as [items|e].
  - destruct (_ || _); run_change; repeat apply conj; try reflexivity;
      try (intros k Hk; now apply lookup_delete_ne);
      try discriminate;
      try (intros _ H; now contradiction H);
      intros _; repeat apply conj; try reflexivity;
      try apply lookup_delete_eq; try (eexists; reflexivity).
    + right. split; [reflexivity |]. eexists. reflexivity.
    + left. reflexivity.
  - cbn [fst snd]. repeat apply conj; try reflexivity.
    + intros [[= H] | [_ [items [= H]]]].
    + intros e' _ [= ->]. split; reflexivity.
    + intros _ H. now contradiction H.
Qed.

End Changes.

Lemma completed_download_forgotten_witness :
  exists st2,
    Background.handleDownloadChange (fun _ => Normal [])
      (Background.DownloadDelta 1 (Some "complete"))
      (snd (Background.downloadVideo background_URL (fun _ => Normal 200%N)
              (fun _ => Normal 1%N) 0 0 (Some clip_url) (Some "my clip")
              idle))
    = (Normal tt, st2) /\
    Background.notifications st2
    = [ {| Background.n_type := "basic";
           Background.n_iconUrl := "icons/icon.png";
           Background.n_title := "Tải xuống hoàn tất";
           Background.n_message := "Video đã được tải xuống: my_clip" |} ] /\
    Background.storage st2 = ∅.
Proof.
  destruct (completed_download_forgotten background_URL
              (fun _ => Normal 200%N) (fun _ => Normal 1%N) 0 0
              (fun _ => Normal []) (Some clip_url) (Some "my clip") 1 idle
              (snd (Background.downloadVideo background_URL
                      (fun _ => Normal 200%N) (fun _ => Normal 1%N) 0 0
                      (Some clip_url) (Some "my clip") idle)) eq_refl)
    as (st2 & E & Hn & _ & Hs).
  exists st2. split; [exact E |]. split; [exact Hn |].
  apply Hs. reflexivity.
Defined.

(** ** The popup *)




Section PopupHost.

Variable new_URL : string -> option URL.
Variable now : N.
Variable tabs_query : completion (option Popup.tab).
Variable sendMessage : nat -> completion (option response).

Lemma after_waiting_nil (st : Popup.state) : after_waiting st [] = st.
Proof. destruct st. unfold after_waiting. cbn. now rewrite app_nil_r. Qed.

Lemma after_waiting_app (st : Popup.state) (a b : list nat) :
  after_waiting (after_waiting st a) b = after_waiting st (a ++ b).
Proof. unfold after_waiting. cbn. now rewrite app_assoc. Qed.

(** The loop of the retries, up to the first attempt that succeeds. *)
Lemma retry_success (maxRetries k : nat) (r : option response) :
  sendMessage k = Normal r -> k <= maxRetries ->
  forall rounds attempt st,
    attempt <= k -> k < attempt + rounds ->
    (forall j, attempt <= j < k -> exists e, sendMessage j = Throw e) ->
    Popup.retry sendMessage rounds attempt maxRetries st
    = (Normal (Some r), after_waiting st (delays_between attempt k)).
Proof.
  intros Hk Hmax. induction rounds as [|rounds IH]; intros attempt st Hle Hlt Hfail;
    [lia |].
  cbn [Popup.retry].
  destruct (Nat.eq_dec attempt k) as [->|Hne].
  - rewrite Hk. unfold ret, delays_between. rewrite Nat.sub_diag. cbn.
    now rewrite after_waiting_nil.
  - destruct (Hfail attempt ltac:(lia)) as [e ->].
    replace (attempt =? maxRetries)%nat with false
      by (symmetry; apply Nat.eqb_neq; lia).
    unfold bind, Popup.wait at 1. cbn beta iota.
    rewrite IH by first [lia | intros j Hj; apply Hfail; lia].
    f_equal. unfold after_waiting, delays_between. cbn. f_equal.
    rewrite <- app_assoc. f_equal.
    replace (k - attempt) with (S (k - S attempt)) by lia. reflexivity.
Qed.

(** The loop of the retries when every attempt fails. *)
Lemma retry_exhausted (maxRetries : nat) :
  (forall j, 1 <= j <= maxRetries -> exists e, sendMessage j = Throw e) ->
  forall rounds attempt st,
    1 <= attempt -> attempt + rounds = S maxRetries -> 1 <= rounds ->
    exists message,
      Popup.retry sendMessage rounds attempt maxRetries st
      = (Throw message, after_waiting st (delays_between attempt maxRetries)).
Proof.
  intros Hfail. induction rounds as [|rounds IH]; intros attempt st H1 Hsum Hr;
    [lia |].
  cbn [Popup.retry]. destruct (Hfail attempt ltac:(lia)) as [e ->].
  destruct (Nat.eqb_spec attempt maxRetries) as [->|Hne].
  - eexists. unfold lift, delays_between. rewrite Nat.sub_diag. cbn.
    now rewrite after_waiting_nil.
  - unfold bind, Popup.wait at 1. cbn beta iota.
    destruct (IH (S attempt)
                {| Popup.videos_ := Popup.videos_ st;
                   Popup.shown := Popup.shown st;
                   Popup.errorDetails := Popup.errorDetails st;
                   Popup.items := Popup.items st;
                   Popup.waited := Popup.waited st ++ [300 * attempt] |})
      as [message ->]; try lia.
    exists message. f_equal. unfold after_waiting, delays_between. cbn. f_equal.
    rewrite <- app_assoc. f_equal.
    replace (maxRetries - attempt) with (S (maxRetries - S attempt)) by lia.
    reflexivity.
Qed.

(** [sendMessageWithRetry] returns the answer of the first attempt that
    succeeds, among the first [maxRetries], after waiting 300 ms times its
    number after each failed attempt; when all [maxRetries] attempts fail it
    throws, without waiting after the last one. *)
Theorem sendMessageWithRetry_outcome (maxRetries : nat) (st : Popup.state) :
  (forall k r,
      1 <= k <= maxRetries ->
      sendMessage k = Normal r ->
      (forall j, 1 <= j < k -> exists e, sendMessage j = Throw e) ->
      Popup.sendMessageWithRetry sendMessage maxRetries st
      = (Normal (Some r), after_waiting st (delays_between 1 k))) /\
  (1 <= maxRetries ->
   (forall j, 1 <= j <= maxRetries -> exists e, sendMessage j = Throw e) ->
   exists message,
     Popup.sendMessageWithRetry sendMessage maxRetries st
     = (Throw message, after_waiting st (delays_between 1 maxRetries))).
Proof.
  unfold Popup.sendMessageWithRetry. split.
  - intros k r [Hk1 Hk2] Hk Hfail.
    apply (retry_success maxRetries k r Hk Hk2); [lia | lia | exact Hfail].
  - intros Hmax Hfail. apply retry_exhausted; [exact Hfail | lia | lia | lia].
Qed.

(** *** The list of the popup *)

Lemma createVideoItem_without_url (video : candidate) (index : nat) :
  url video = None ->
  Popup.createVideoItem new_URL now video index = Throw "TypeError".
Proof. intros H. unfold Popup.createVideoItem. rewrite H. reflexivity. Qed.

Lemma createVideoItem_with_url (video : candidate) (index : nat) (u : string) :
  url video = Some u ->
  exists it,
    Popup.createVideoItem new_URL now video index = Normal it /\
    Popup.it_index it = index /\
    Popup.it_button it
    = (if Popup.isBlob video || Popup.isNonDownloadable video
       then Popup.InfoButton else Popup.DownloadButton).
Proof.
  intros H. unfold Popup.createVideoItem, Popup.shortenUrl. rewrite H.
  destruct (String.length u <=? 50)%nat; cbn [and_then]; eexists;
    (split; [reflexivity |]); cbn; auto.
Qed.

(** A list item has its download button exactly when the candidate has a
    URL that is no blob URL and is not marked as not downloadable; with the
    other button it carries a warning that is not empty.  For a candidate
    without URL no item is made: the method throws. *)
Theorem createVideoItem_button (video : candidate) (index : nat) :
  (url video = None ->
   exists e, Popup.createVideoItem new_URL now video index = Throw e) /\
  (forall u,
      url video = Some u ->
      exists it,
        Popup.createVideoItem new_URL now video index = Normal it /\
        (Popup.it_button it = Popup.DownloadButton <->
         startsWith u "blob:" = false /\ downloadable video <> Some false) /\
        (Popup.it_button it = Popup.InfoButton ->
         exists text alternative,
           Popup.it_warning it = Some (text, alternative) /\ text <> "")).
Proof.
  split.
  - intros H. exists "TypeError". now apply createVideoItem_without_url.
  - intros u Hu. unfold Popup.createVideoItem, Popup.shortenUrl. rewrite Hu.
    assert (Hblob : Popup.isBlob video = startsWith u "blob:").
    { unfold Popup.isBlob. rewrite Hu. destruct u; reflexivity. }
    assert (Hnd : Popup.isNonDownloadable video = false <->
                  downloadable video <> Some false).
    { unfold Popup.isNonDownloadable.
      destruct (downloadable video) as [[]|]; split; congruence. }
    assert (Htext : Popup.or_text (reason video)
                      "Video này không thể tải xuống trực tiếp" <> "").
    { unfold Popup.or_text. destruct (reason video) as [r|]; [| discriminate].
      destruct (truthy r) eqn:E; [now apply truthy_true | discriminate]. }
    destruct (String.length u <=? 50)%nat; cbn [and_then]; eexists;
      (split; [reflexivity |]); cbn [Popup.it_button Popup.it_warning];
      rewrite Hblob;
      (destruct (startsWith u "blob:"); cbn [orb];
       [ split; [split; [discriminate | intros [? _]; discriminate] | eauto]
       | destruct (Popup.isNonDownloadable video) eqn:E;
         [ split; [split; [discriminate |] | eauto];
           intros [_ H]; apply Hnd in H; congruence
         | split; [split; [intros _; split; [reflexivity | now apply Hnd]
                          | reflexivity]
                  | discriminate] ] ]).
Qed.

End PopupHost.

Section PopupScan.

Variable new_URL : string -> option URL.
Variable now : N.
Variable tabs_query : completion (option Popup.tab).
Variable sendMessage : nat -> completion (option response).

Local Abbreviation scanForVideos :=
  (Popup.scanForVideos new_URL now tabs_query sendMessage).

Lemma appendItems_cons (video : candidate) (rest : list candidate)
    (index : nat) (st : Popup.state) :
  Popup.appendItems new_URL now (video :: rest) index st
  = match Popup.createVideoItem new_URL now video index with
    | Normal it =>
        Popup.appendItems new_URL now rest (S index)
          {| Popup.videos_ := Popup.videos_ st; Popup.shown := Popup.shown st;
             Popup.errorDetails := Popup.errorDetails st;
             Popup.items := Popup.items st ++ [it];
             Popup.waited := Popup.waited st |}
    | Throw e => (Throw e, st)
    end.
Proof.
  cbn [Popup.appendItems]. unfold bind, lift, Popup.appendChild.
  now destruct (Popup.createVideoItem new_URL now video index).
Qed.

(** The items are appended one by one until a candidate has no URL. *)
Lemma appendItems_effect (videos : list candidate) :
  forall index st,
    let out := Popup.appendItems new_URL now videos index st in
    Popup.shown (snd out) = Popup.shown st /\
    Popup.videos_ (snd out) = Popup.videos_ st /\
    ((Forall has_url videos ->
      fst out = Normal tt /\
      length (Popup.items (snd out))
      = length (Popup.items st) + length videos) /\
     (Exists (fun c => url c = None) videos ->
      fst out = Throw "TypeError")).
Proof.
  induction videos as [|video rest IH]; intros index st; cbv zeta.
  - cbn. split; [reflexivity |]. split; [reflexivity |]. split.
    + intros _. split; [reflexivity | lia].
    + intros H. inversion H.
  - rewrite appendItems_cons.
    destruct (url video) as [u|] eqn:Hu.
    + destruct (createVideoItem_with_url new_URL now video index u Hu)
        as (it & -> & _).
      set (st1 := {| Popup.videos_ := _ |}).
      destruct (IH (S index) st1) as (Hs & Hv & Hall & Hex).
      cbv zeta in *.
      destruct (Popup.appendItems new_URL now rest (S index) st1) as [c st2].
      cbn [fst snd] in *.
      split; [exact Hs |]. split; [exact Hv |]. split.
      * intros H. inversion H as [|? ? _ Hrest]; subst.
        destruct (Hall Hrest) as [-> ->]. split; [reflexivity |].
        unfold st1. cbn. rewrite length_app. cbn. lia.
      * intros H. apply Hex. inversion H as [? ? Hc | ? ? Hrest]; subst;
          [congruence | assumption].
    + rewrite (createVideoItem_without_url new_URL now video index Hu).
      cbn [fst snd]. split; [reflexivity |]. split; [reflexivity |]. split.
      * intros H. inversion H as [|? ? [u' Hc] _]; subst. congruence.
      * intros _. reflexivity.
Qed.

Lemma displayVideos_effect (st : Popup.state) :
  let out := Popup.displayVideos new_URL now st in
  (Popup.videos_ st = [] ->
   fst out = Normal tt /\ Popup.shown (snd out) = Some Popup.NoVideos) /\
  (Popup.videos_ st <> [] -> Forall has_url (Popup.videos_ st) ->
   fst out = Normal tt /\ Popup.shown (snd out) = Some Popup.VideosList /\
   length (Popup.items (snd out)) = length (Popup.videos_ st) /\
   Popup.videos_ (snd out) = Popup.videos_ st) /\
  (Exists (fun c => url c = None) (Popup.videos_ st) ->
   fst out = Throw "TypeError") /\
  (fst out = Normal tt ->
   Popup.shown (snd out) = Some Popup.NoVideos \/
   Popup.shown (snd out) = Some Popup.VideosList).
Proof.
  cbv zeta. unfold Popup.displayVideos.
  destruct (Popup.videos_ st) as [|video rest] eqn:E.
  - cbn. split; [auto |]. split; [intros H; contradiction |].
    split; [intros H; inversion H | auto].
  - set (st1 := {| Popup.videos_ := _ |}).
    destruct (appendItems_effect (video :: rest) 0 st1)
      as (Hs & Hv & Hall & Hex).
    cbv zeta in *. split; [discriminate |]. split; [| split].
    + intros _ H. destruct (Hall H) as [H1 H2].
      repeat split; auto; rewrite H2; reflexivity.
    + exact Hex.
    + intros _. right. exact Hs.
Qed.

(** The popup always comes to rest: [scanForVideos] never throws, and it
    ends with the list, the no-videos note or the error section displayed,
    never with the loading indicator. *)
Theorem scanForVideos_settles (st : Popup.state) :
  fst (scanForVideos st) = Normal tt /\
  (Popup.shown (snd (scanForVideos st)) = Some Popup.NoVideos \/
   Popup.shown (snd (scanForVideos st)) = Some Popup.VideosList \/
   Popup.shown (snd (scanForVideos st)) = Some Popup.ErrorSection).
Proof.
  destruct (scanForVideos st) as [c st'] eqn:E. cbn [fst snd]. revert E.
  unfold Popup.scanForVideos, Popup.showLoading.
  unfold bind at 1, Popup.show at 1. cbn beta iota.
  set (st0 := {| Popup.videos_ := _ |}).
  unfold try_catch.
  match goal with
  | |- context [let (c, st') := ?m st0 in _] =>
      destruct (m st0) as [[[]|e] st1] eqn:E
  end; [| cbn; intros [= <- <-]; cbn; auto].
  intros [= <- <-]. split; [reflexivity |].
  revert E. unfold bind at 1, lift at 1.
  destruct tabs_query as [[tab|]|e]; [| discriminate | discriminate].
  destruct (negb (Popup.isValidTabUrl (Popup.tab_url tab))).
  - unfold Popup.showSpecialPageError.
    destruct (Popup.tab_url tab) as [u|]; [| discriminate].
    destruct (if startsWith u "chrome://" then _ else _) as [pageType suggestion].
    intros [= <-]. cbn. auto.
  - unfold bind at 1, Popup.wait at 1. cbn beta iota.
    unfold bind at 1.
    destruct (Popup.sendMessageWithRetry _ _ _) as [[[[resp|]|]|e] st2];
      try discriminate.
    + unfold bind, Popup.set_videos. cbn beta iota.
      set (st3 := {| Popup.videos_ := _ |}).
      destruct (displayVideos_effect st3) as (_ & _ & _ & H). cbv zeta in H.
      destruct (Popup.displayVideos new_URL now st3) as [[[]|e] st4];
        [| discriminate].
      intros [= <-]. destruct (H eq_refl); auto.
    + intros [= <-]. cbn. auto.
    + intros [= <-]. cbn. auto.
Qed.

(** When the tab is a web page and the content script answers, within
    three attempts, with a list of candidates: the popup shows the
    no-videos note for the empty list; it shows the list, one item per
    candidate, when every candidate has a URL; and it shows the error
    section, with the message of the error, instead of the list when a
    candidate has none. *)
Theorem scanForVideos_lists (st : Popup.state) (tab : Popup.tab) (k : nat)
    (answer : response) :
  tabs_query = Normal (Some tab) ->
  Popup.isValidTabUrl (Popup.tab_url tab) = true ->
  1 <= k <= 3 ->
  sendMessage k = Normal (Some answer) ->
  (forall j, 1 <= j < k -> exists e, sendMessage j = Throw e) ->
  let st' := snd (scanForVideos st) in
  (videos answer = [] -> Popup.shown st' = Some Popup.NoVideos) /\
  (videos answer <> [] -> Forall has_url (videos answer) ->
   Popup.shown st' = Some Popup.VideosList /\
   length (Popup.items st') = length (videos answer) /\
   Popup.videos_ st' = videos answer) /\
  (Exists (fun c => url c = None) (videos answer) ->
   Popup.shown st' = Some Popup.ErrorSection /\
   exists message, Popup.errorDetails st' = Popup.ErrorText message).
Proof.
  intros Htab Hvalid Hk Hanswer Hfail. cbv zeta.
  destruct (scanForVideos st) as [c st'] eqn:E. cbn [fst snd]. revert E.
  unfold Popup.scanForVideos, Popup.showLoading.
  unfold bind at 1, Popup.show at 1. cbn beta iota.
  set (st0 := {| Popup.videos_ := _ |}).
  unfold try_catch, bind at 1, lift at 1. rewrite Htab, Hvalid. cbn [negb].
  unfold bind at 1, Popup.wait at 1. cbn beta iota.
  set (st1 := {| Popup.videos_ := _ |}).
  unfold bind at 1.
  unfold Popup.sendMessageWithRetry.
  rewrite (retry_success sendMessage 3 k (Some answer) Hanswer)
    by first [lia | exact Hfail].
  unfold bind, Popup.set_videos. cbn beta iota.
  set (st3 := {| Popup.videos_ := _ |}).
  destruct (displayVideos_effect st3) as (Hnil & Hall & Hex & _).
  cbv zeta in *. change (Popup.videos_ st3) with (videos answer) in *.
  destruct (Popup.displayVideos new_URL now st3) as [c4 st4].
  cbn [fst snd] in *. intros E. split; [| split].
  - intros H. destruct (Hnil H) as [-> Hs]. injection E as <- <-. exact Hs.
  - intros Hne H. destruct (Hall Hne H) as (-> & Hs & Hl & Hv).
    injection E as <- <-. auto.
  - intros H. rewrite (Hex H) in E. injection E as <- <-. cbn. eauto.
Qed.

End PopupScan.

Lemma sendMessageWithRetry_outcome_witness :
  Popup.sendMessageWithRetry (answering_late [stream_one]) 3 closed
  = (Normal (Some (Some {| videos := [stream_one]; error := None |})),
     after_waiting closed [300; 600]) /\
  exists message,
    Popup.sendMessageWithRetry (fun _ => Throw "no receiver") 3 closed
    = (Throw message, after_waiting closed [300; 600]).
Proof.
  split.
  - destruct (sendMessageWithRetry_outcome (answering_late [stream_one]) 3
                closed) as [H _].
    apply (H 3); [lia | reflexivity |].
    intros j Hj. exists "Could not establish connection".
    unfold answering_late. destruct j as [|[|[|j]]]; try reflexivity; lia.
  - destruct (sendMessageWithRetry_outcome (fun _ => Throw "no receiver") 3
                closed) as [_ H].
    apply H; [lia |]. intros j _. now exists "no receiver".
Defined.

Lemma createVideoItem_button_witness :
  (exists e,
      Popup.createVideoItem reference_URL 0
        (generic_candidate clip_url "direct" "clip" (video_element clip_url)
           None None) 0 = Throw e) /\
  exists it,
    Popup.createVideoItem reference_URL 0 stream_one 0 = Normal it /\
    Popup.it_button it = Popup.DownloadButton.
Proof.
  split.
  - apply (createVideoItem_button reference_URL 0). reflexivity.
  - destruct (createVideoItem_button reference_URL 0 stream_one 0) as [_ H].
    destruct (H _ eq_refl) as (it & Hit & Hbutton & _).
    exists it. split; [exact Hit |]. apply Hbutton.
    split; [reflexivity | discriminate].
Defined.

Lemma scanForVideos_lists_witness :
  Popup.shown
    (snd (Popup.scanForVideos reference_URL 0 (Normal (Some clip_tab))
            (answering [stream_one]) closed))
  = Some Popup.VideosList /\
  Popup.shown
    (snd (Popup.scanForVideos reference_URL 0 (Normal (Some clip_tab))
            (answering
               [generic_candidate clip_url "direct" "clip"
                  (video_element clip_url) None None]) closed))
  = Some Popup.ErrorSection.
Proof.
  split.
  - pose proof (scanForVideos_lists reference_URL 0 (Normal (Some clip_tab))
                  (answering [stream_one]) closed clip_tab 1
                  {| videos := [stream_one]; error := None |}
                  eq_refl eq_refl ltac:(lia) eq_refl ltac:(intros; lia))
      as (_ & H & _).
    apply H; [discriminate |]. repeat constructor. now eexists.
  - pose proof (scanForVideos_lists reference_URL 0 (Normal (Some clip_tab))
                  (answering
                     [generic_candidate clip_url "direct" "clip"
                        (video_element clip_url) None None])
                  closed clip_tab 1
                  {| videos :=
                       [generic_candidate clip_url "direct" "clip"
                          (video_element clip_url) None None];
                     error := None |}
                  eq_refl eq_refl ltac:(lia) eq_refl ltac:(intros; lia))
      as (_ & _ & H).
    apply H. now left.
Defined.

(** The page with one video element, end to end: what the content script
    returns for it makes the popup show its error section. *)
Example popup_on_clip_page :
  match scan reference_URL no_JSON plain_resolver clip_page [] [] with
  | Normal videos =>
      Popup.shown
        (snd (Popup.scanForVideos reference_URL 0 (Normal (Some clip_tab))
                (answering videos) closed))
  | Throw _ => None
  end = Some Popup.ErrorSection.
Proof. vm_compute. reflexivity. Qed.

(** ** The types of the candidates and the names of the popup *)

Section NamedTypes.

Variable new_URL : string -> option URL.
Variable JSON_parse : string -> option playerData.
Variable resolver : title_resolver.
Variable doc : document.

Ltac known := right; unfold known_type; cbn; eauto.

Lemma findPlatformVideos_named (selectors : list string)
    (titleOf : option element -> completion string) (tag : string) :
  In tag platformTags ->
  appends named_type
    (findPlatformVideos new_URL resolver doc selectors titleOf tag).
Proof.
  intros Htag. unfold findPlatformVideos, findBlobVideos.
  appends_steps; apply appends_push;
    cbn in Htag; intuition subst; known.
Qed.

Lemma strategies_named_types (streamingUrls : list string) :
  appends named_type
    (strategies new_URL JSON_parse resolver doc streamingUrls).
Proof.
  unfold strategies.
  apply appends_bind; [| intros _].
  { unfold findDirectVideoElements. appends_steps. apply appends_push. known. }
  apply appends_bind; [| intros _].
  { unfold findSourceElements. appends_steps. apply appends_push. known. }
  apply appends_bind; [| intros _].
  { unfold findPlatformSpecificVideos, findTikTokVideos, findFacebookVideos,
      findYouTubeVideos, findInstagramVideos, findTwitterVideos,
      findTwitchVideos.
    repeat match goal with
           | |- appends _ (if ?b then _ else _) => destruct b
           end;
      try (apply findPlatformVideos_named; cbn; tauto).
    apply appends_ret. }
  unfold findStreamingVideos, scanPageForStreamingUrls, push_streaming,
    streaming_push, findYouTubeStreamingUrls, extractYouTubeStreamingData,
    findFacebookStreamingUrls, findTikTokStreamingUrls.
  appends_steps; apply appends_push; left; reflexivity.
Qed.

(** Every candidate that a scan returns has a type that the popup has a
    name for, or the type [streaming], for which the popup says
    [Generic]. *)
Theorem scan_types_named (streamingUrls : list string)
    (videos0 : list candidate) :
  exists result,
    scan new_URL JSON_parse resolver doc streamingUrls videos0 = Normal result /\
    Forall named_type result /\
    Forall (fun c => type c = "streaming" ->
                     Popup.getPlatformDisplayName (type c) = "Generic") result.
Proof.
  rewrite scan_outcome.
  destruct (strategies_named_types streamingUrls []) as (new & E & Hnew).
  destruct (strategies _ _ _ _ _ []) as [[[]|e] collected]; cbn in E; subst.
  - eexists. split; [reflexivity |]. split.
    + now apply Forall_filter_isValidVideo, Forall_removeDuplicates.
    + apply Forall_forall. intros c _ ->. reflexivity.
  - exists []. split; [reflexivity |]. split; constructor.
Qed.

End NamedTypes.

(** ** From the button to the background script *)

Section Click.

Variable new_URL : string -> option URL.
Variable bg_URL : string -> option Background.URL.
Variable fetch_head : string -> completion N.
Variable fetch_text : option string -> completion string.
Variable createObjectURL : string -> string.
Variable downloads_download : Background.download_options -> completion N.
Variable now : N.
Variable startTime : N.

(** The handler answers the two actions that the popup sends. *)
Lemma handleMessage_answers (request : Background.request)
    (st : Background.state) :
  Background.action request = "downloadVideo" \/
  Background.action request = "downloadStreaming" ->
  exists r,
    Background.handleMessage bg_URL fetch_head fetch_text createObjectURL
      downloads_download now startTime request st
    = (Normal tt,
       snd (Background.handleMessage bg_URL fetch_head fetch_text
              createObjectURL downloads_download now startTime request st)) /\
    Background.sent
      (snd (Background.handleMessage bg_URL fetch_head fetch_text
              createObjectURL downloads_download now startTime request st))
    = Background.sent st ++ [r].
Proof.
  intros Haction.
  assert (Hcases :
            forall {A : Type} (m : Background.background A)
                   (respond : A -> Background.response),
              Background.sent (snd (m st)) = Background.sent st ->
              exists r,
                try_catch
                  (result <- m ;;
                   Background.sendResponse (respond result))
                  (fun e =>
                     Background.sendResponse
                       {| Background.success := false;
                          Background.downloadId := None;
                          Background.result := None;
                          Background.error := Some e |}) st
                = (Normal tt,
                   snd (try_catch
                          (result <- m ;;
                           Background.sendResponse (respond result))
                          (fun e =>
                             Background.sendResponse
                               {| Background.success := false;
                                  Background.downloadId := None;
                                  Background.result := None;
                                  Background.error := Some e |}) st)) /\
                Background.sent
                  (snd (try_catch
                          (result <- m ;;
                           Background.sendResponse (respond result))
                          (fun e =>
                             Background.sendResponse
                               {| Background.success := false;
                                  Background.downloadId := None;
                                  Background.result := None;
                                  Background.error := Some e |}) st))
                = Background.sent st ++ [r]).
  { intros A m respond Hsent. unfold try_catch, bind, Background.sendResponse.
    destruct (m st) as [[a|e] st1]; cbn [fst snd Background.sent] in *;
      rewrite Hsent; eauto. }
  unfold Background.handleMessage.
  destruct (String.eqb_spec (Background.action request) "downloadVideo")
    as [Ha | Ha].
  - apply Hcases.
    apply (downloadVideo_effect bg_URL fetch_head downloads_download now startTime).
  - destruct (String.eqb_spec (Background.action request) "downloadStreaming")
      as [Hb | Hb]; [| tauto].
    apply Hcases.
    apply (downloadStreamingVideo_effect bg_URL fetch_head fetch_text
             createObjectURL downloads_download now startTime).
Qed.

(** A click on the download button of a candidate with a URL makes the
    popup send one of the two messages that the background script knows,
    and the background script answers it once: the popup is never left
    without an answer. *)
Theorem download_click_answered (video : candidate) (u : string)
    (st : Background.state) :
  url video = Some u ->
  exists request r,
    Popup.downloadRequest new_URL now video = Normal request /\
    (Background.action request = "downloadVideo" \/
     Background.action request = "downloadStreaming") /\
    Background.sent
      (snd (Background.handleMessage bg_URL fetch_head fetch_text
              createObjectURL downloads_download now startTime request st))
    = Background.sent st ++ [r].
Proof.
  intros Hu. unfold Popup.downloadRequest. rewrite Hu.
  assert (Hreq : exists request,
             and_then
               (if match format video with
                   | Some f => String.eqb f "HLS" || String.eqb f "DASH"
                   | None => false
                   end
                then Normal true
                else Normal (includes u ".m3u8" || includes u ".mpd"))
               (fun isStreaming =>
                  if isStreaming then
                    Normal {| Background.action := "downloadStreaming";
                              Background.r_url := None;
                              Background.r_filename := None;
                              Background.r_video := Some video |}
                  else
                    Normal {| Background.action := "downloadVideo";
                              Background.r_url := Some u;
                              Background.r_filename :=
                                Some (if truthy (title video) then title video
                                      else Popup.extractVideoTitle new_URL now
                                             (Some u));
                              Background.r_video := None |})
             = Normal request /\
             (Background.action request = "downloadVideo" \/
              Background.action request = "downloadStreaming")).
  { destruct (match format video with Some _ => _ | None => _ end);
      cbn [and_then]; [eauto |].
    destruct (includes u ".m3u8" || includes u ".mpd"); eauto. }
  destruct Hreq as (request & Hreq & Haction).
  destruct (handleMessage_answers request st Haction) as (r & _ & Hsent).
  exists request, r. auto.
Qed.

End Click.

Lemma download_click_answered_witness :
  exists request r,
    Popup.downloadRequest reference_URL 0 stream_one = Normal request /\
    Background.action request = "downloadStreaming" /\
    Background.sent
      (snd (Background.handleMessage background_URL (fun _ => Normal 200%N)
              (fun _ => Normal "") (fun _ => "blob:playlist")
              (fun _ => Normal 1%N) 0 0 request idle))
    = [r].
Proof.
  destruct (download_click_answered reference_URL background_URL
              (fun _ => Normal 200%N) (fun _ => Normal "")
              (fun _ => "blob:playlist") (fun _ => Normal 1%N) 0 0
              stream_one "https://a.example.com/live/one.m3u8" idle eq_refl)
    as (request & r & Hreq & _ & Hsent).
  exists request, r. split; [exact Hreq |]. split; [| exact Hsent].
  injection Hreq as <-. reflexivity.
Defined.
